(** * PromptHub MCP: the DAG orchestrator and the prompt execution pipeline

    A shallow embedding of [src/core/prompt-router.ts] (DAG validation,
    topological ordering, node input preparation, fail-fast execution, the
    module cache, the search index and [executePrompt] over the vault
    client) and of [src/core/prompt-module.ts] (the constructor, input
    validation, access check, the [execute] pipeline, the metadata
    accessors and [updateMetadata]), with the schemas and error types of
    [src/types].

    Conventions of the embedding.
    - A JavaScript plain object used as a dictionary ([Record<string, any>])
      is a finite map [gmap string Value] of its own enumerable properties.
      The order in which the engine enumerates an object ([Object.entries],
      [Object.keys]) depends on how the object was built and is abstract:
      where the source loops over an object, the model loops over
      [Object_entries], some list of the entries of the map.
    - The members a plain object inherits from [Object.prototype] are
      modelled where the module asks for a property by a computed name: the
      operator [in] is [key_in], the property read [Object_get] and the
      assignment [Object_set]. The router keeps its results and its node
      inputs as maps of own properties.
    - JavaScript [Set<string>] and [Map<string, _>] are [gset string] and
      [gmap string _].
    - JavaScript numbers that occur here (timestamps, counters, lengths and
      numeric bounds) are integers [Z]; [NaN] is a value of its own, and
      fractions and the infinities are not represented. A string holds the
      UTF-8 bytes of its text, and its [length] counts UTF-16 code units.
    - A value is a tree: an object that contains itself, or one with
      accessors or a [toJSON] method, is not represented.
    - A [throw] is the [Throw] outcome of the [Completion] monad; a
      [try]/[catch] is a case analysis on that outcome ([run_try] in the
      module, where the fields of the module and the clock survive a throw).
    - [Date.now()] and [uuidv4()] are oracles on an abstract world that every
      read advances; regular expressions, the text of [JSON.stringify] and
      SHA-256 are abstract functions.
    - The vault client reaches the chain and IPFS: its methods are abstract
      functions on the same world, which resolve or reject. The schema of a
      prompt definition and the base64 encoding are abstract as well. *)

From stdpp Require Import gmap strings list fin_maps pretty.

#[local] Set Warnings "-register-all,-clear-no-such-hyp".
#[local] Open Scope string_scope.

(** ** JavaScript values *)

Inductive Value : Type :=
  | VUndefined
  | VNull
  | VBool (b : bool)
  | VNum (n : Z)
  | VNaN
  | VBigInt (n : Z)
  | VStr (s : string)
  | VArr (xs : list Value)
  | VObj (o : gmap string Value)
  | VFunction (name : string).

(** The result of the [typeof] operator. *)
Inductive JsType :=
  TUndefined | TObject | TBoolean | TNumber | TBigint | TString | TFunction.

Definition typeof (v : Value) : JsType :=
  match v with
  | VUndefined => TUndefined
  | VNull => TObject
  | VBool _ => TBoolean
  | VNum _ => TNumber
  | VNaN => TNumber
  | VBigInt _ => TBigint
  | VStr _ => TString
  | VArr _ => TObject
  | VObj _ => TObject
  | VFunction _ => TFunction
  end.

#[global] Instance JsType_eq_dec : EqDecision JsType.
Proof. solve_decision. Defined.

(** The own enumerable string-keyed properties [Object.assign] and the spread
    syntax copy from a source value: the entries of an object, the indices of
    an array, nothing for [null] and for primitives other than strings. *)
Definition array_props (xs : list Value) : gmap string Value :=
  list_to_map (imap (λ i x, (pretty i, x)) xs).

Definition own_props (v : Value) : gmap string Value :=
  match v with
  | VObj o => o
  | VArr xs => array_props xs
  | VStr s => array_props ((λ c, VStr (String c EmptyString)) <$> String.list_ascii_of_string s)
  | _ => ∅
  end.

(** [Object.assign(target, source)]: every property of the source overwrites
    the property of the same name in the target. *)
Definition Object_assign (target : gmap string Value) (source : Value) : gmap string Value :=
  own_props source ∪ target.

(** *** Inherited properties *)

(** A plain object inherits the members of [Object.prototype]. The operator
    [in] and a property read see them; [Object.keys], [Object.entries], the
    spread syntax and [JSON.stringify] see own properties only. The names
    below are the methods of [Object.prototype]; its one accessor,
    [__proto__], reads the prototype itself, an object without enumerable
    properties of its own. *)
Definition Object_prototype_methods : list string :=
  ["constructor"; "__defineGetter__"; "__defineSetter__"; "hasOwnProperty";
   "__lookupGetter__"; "__lookupSetter__"; "isPrototypeOf"; "propertyIsEnumerable";
   "toString"; "valueOf"; "toLocaleString"].

Definition Object_prototype (key : string) : option Value :=
  if decide (key = "__proto__") then Some (VObj ∅)
  else if decide (key ∈ Object_prototype_methods) then
    Some (VFunction (if decide (key = "constructor") then "Object" else key))
  else None.

(** [key in obj], for a plain object [obj]: an own or an inherited
    property. *)
Definition key_in {A} (key : string) (obj : gmap string A) : bool :=
  bool_decide (is_Some (obj !! key)) || bool_decide (is_Some (Object_prototype key)).

(** [obj[key]], for a plain object: the own property, else the inherited
    one, else [undefined]. *)
Definition Object_get (obj : gmap string Value) (key : string) : Value :=
  match obj !! key with
  | Some value => value
  | None => default VUndefined (Object_prototype key)
  end.

(** [obj[key] = value], for a plain object. The assignment creates or
    overwrites an own property, except under the name [__proto__] when the
    object has no own property of that name: then the inherited setter runs,
    and the object gets no new property. *)
Definition Object_set (obj : gmap string Value) (key : string) (value : Value)
    : gmap string Value :=
  if decide (key = "__proto__" ∧ obj !! key = None) then obj else <[key := value]> obj.

(** *** Strings *)

(** A string of the model holds the UTF-8 bytes of the text. The [length]
    of a JavaScript string counts UTF-16 code units: one for a character of
    one, two or three bytes, two for a character of four bytes. *)
Definition utf16_units (byte : Ascii.ascii) : nat :=
  let n := Ascii.nat_of_ascii byte in
  if (n <? 128)%nat then 1%nat
  else if (n <? 192)%nat then 0%nat
  else if (n <? 240)%nat then 1%nat
  else 2%nat.

Fixpoint utf16_length (s : string) : nat :=
  match s with
  | EmptyString => 0%nat
  | String byte s' => (utf16_units byte + utf16_length s')%nat
  end.

(** ** Exceptions *)

(** [ErrorCodes] of [src/types]. *)
Inductive ErrorCodes :=
  | PROMPT_NOT_FOUND
  | INVALID_INPUT
  | ACCESS_DENIED
  | EXECUTION_FAILED
  | BLOCKCHAIN_ERROR
  | VALIDATION_ERROR
  | NETWORK_ERROR
  | INSUFFICIENT_BALANCE
  | RATE_LIMIT_EXCEEDED
  | SIGNATURE_VERIFICATION_FAILED.

#[global] Instance ErrorCodes_eq_dec : EqDecision ErrorCodes.
Proof. solve_decision. Defined.

(** What a [throw] carries: a [PromptHubMCPError(code, message, details)] or
    another [Error] raised by the runtime ([TypeError], [SyntaxError]). *)
Inductive Thrown :=
  | PromptHubMCPError (code : ErrorCodes) (message : string) (details : Value)
  | JsError (name : string) (message : string).

Inductive Completion (A : Type) :=
  | Return (a : A)
  | Throw (e : Thrown).
Arguments Return {A} a.
Arguments Throw {A} e.

Definition bind {A B} (c : Completion A) (k : A → Completion B) : Completion B :=
  match c with
  | Return a => k a
  | Throw e => Throw e
  end.

(** A [for ... of] loop over [l] whose body may throw, threading the state
    the body mutates. *)
Fixpoint for_of {A S} (l : list A) (body : A → S → Completion S) (s : S) : Completion S :=
  match l with
  | [] => Return s
  | x :: l' => bind (body x s) (for_of l' body)
  end.

(** ** The ambient runtime *)

(** [Date.now()] and [uuidv4()] read the outside world. The world is abstract;
    each read returns a value and the world after the read. *)
Class Runtime := {
  World : Type;
  Date_now : World → Z * World;
  uuidv4 : World → string * World;
}.

(** ** Shared types ([src/types]) *)

Record ErrorInfo := {
  code : ErrorCodes;
  message : string;
  details : Value;
}.

Record TokenUsage := {
  promptTokens : Z;
  completionTokens : Z;
  totalTokens : Z;
}.

(** [ExecutionContext]; [R] is the type of the entries of [previousOutputs]
    ([any] in the source). *)
Module ExecutionContext.
Record t (R : Type) := {
  caller : string;
  modelProvider : option string;
  timestamp : Z;
  previousOutputs : option (gmap string R);
  requestId : string;
  chainId : option string;
  blockHeight : option Z;
}.
Arguments caller {R} _.
Arguments modelProvider {R} _.
Arguments timestamp {R} _.
Arguments previousOutputs {R} _.
Arguments requestId {R} _.
Arguments chainId {R} _.
Arguments blockHeight {R} _.
End ExecutionContext.

(** [Partial<ExecutionContext>]: every field may be absent. *)
Module PartialContext.
Record t := {
  caller : option string;
  modelProvider : option string;
  timestamp : option Z;
  requestId : option string;
}.
End PartialContext.

Module PromptExecutionResult.
Record Metadata := {
  promptId : string;
  version : string;
  executionId : string;
  timestamp : Z;
  executionTime : Z;
  tokenUsage : option TokenUsage;
  modelProvider : option string;
}.
Record t := {
  success : bool;
  output : Value;
  metadata : Metadata;
  signature : option string;
  error : option ErrorInfo;
}.
End PromptExecutionResult.

(** The [type] of an input parameter. *)
Inductive ParamType := PString | PNumber | PBoolean | PArray | PObject.

(** [InputParameter]: the fields the module reads. An absent optional field
    is [None]; an absent [default] is [VUndefined]. The nested schemas
    [items] and [properties] are never read by the module and are left out. *)
Module InputParameter.
Record t := {
  type : ParamType;
  required : bool;
  default : Value;
  description : option string;
  minLength : option Z;
  maxLength : option Z;
  pattern : option string;
  enum : option (list string);
  minimum : option Z;
  maximum : option Z;
  minItems : option Z;
  maxItems : option Z;
}.
End InputParameter.

Module PromptDefinition.
Record t := {
  id : string;
  name : string;
  description : string;
  version : string;
  author : string;
  license : string;
  inputs : gmap string InputParameter.t;
  template : string;
  dependencies : option (list string);
  tags : option (list string);
  models : option (list string);
}.
End PromptDefinition.

Inductive AccessType := public | token_gated | nft_gated | private | custom.

Module AccessPolicy.
Record t := {
  type : AccessType;
  tokenAddress : option string;
  minimumBalance : option string;
  whitelist : option (list string);
  maxUsagePerDay : option Z;
  expirationDate : option Z;
}.
End AccessPolicy.

Record RoyaltyConfiguration := {
  creatorShare : Z;
  daoShare : Z;
  validatorShare : Z;
  burnShare : Z;
}.

Module PromptMetadata.
Record t := {
  id : string;
  name : string;
  description : string;
  version : string;
  author : string;
  license : string;
  tags : list string;
  createdAt : Z;
  updatedAt : Z;
  executionCount : Z;
  averageRating : option Z;
  accessPolicy : AccessPolicy.t;
  royaltyConfig : RoyaltyConfiguration;
}.
End PromptMetadata.

(** [Partial<PromptMetadata>], the argument of [updateMetadata]: [Some] for
    a property the object has, [None] for one it lacks. A property that is
    present holds a value of the type of its field. *)
Module PartialMetadata.
Record t := {
  id : option string;
  name : option string;
  description : option string;
  version : option string;
  author : option string;
  license : option string;
  tags : option (list string);
  createdAt : option Z;
  updatedAt : option Z;
  executionCount : option Z;
  averageRating : option Z;
  accessPolicy : option AccessPolicy.t;
  royaltyConfig : option RoyaltyConfiguration;
}.
End PartialMetadata.


Module ModuleResponse.
(** The [metadata] object [execute] builds. *)
Module Metadata.
Record t := {
  executionId : string;
  promptId : string;
  version : string;
  executionTime : Z;
  timestamp : Z;
  error : option ErrorInfo;
}.
End Metadata.
Record t := {
  success : bool;
  output : Value;
  metadata : Metadata.t;
  executionTime : Z;
  signature : option string;
}.
End ModuleResponse.

Module ValidationResult.
Record t := {
  valid : bool;
  errors : list string;
  warnings : list string;
}.
End ValidationResult.

(** ** The zod schema of the execution context ([src/types]) *)

Record ZodIssue := {
  issue_path : string;
  issue_expected : string;
}.

Inductive SafeParse (A : Type) :=
  | ParseSuccess (data : A)
  | ParseFailure (issues : list ZodIssue).
Arguments ParseSuccess {A} data.
Arguments ParseFailure {A} issues.

(** [z.string()], [z.number()] and [z.record(z.any())] accept by runtime
    type; [.optional()] accepts [undefined] as well. Nothing in the schema
    looks at the length of a string. *)
Definition zod_string (v : Value) : bool :=
  match v with VStr _ => true | _ => false end.
Definition zod_number (v : Value) : bool :=
  match v with VNum _ => true | _ => false end.
Definition zod_record (v : Value) : bool :=
  match v with VObj _ => true | _ => false end.
Definition zod_optional (check : Value → bool) (v : Value) : bool :=
  match v with VUndefined => true | _ => check v end.

(** Reading the property [key] of an object: [undefined] when absent. *)
Definition prop (o : gmap string Value) (key : string) : Value :=
  default VUndefined (o !! key).

Definition zod_field (o : gmap string Value) (key : string) (check : Value → bool)
    (expected : string) : list ZodIssue :=
  if check (prop o key) then []
  else [{| issue_path := key; issue_expected := expected |}].

Definition as_string (v : Value) : string :=
  match v with VStr s => s | _ => "" end.
Definition as_optional_string (v : Value) : option string :=
  match v with VStr s => Some s | _ => None end.
Definition as_number (v : Value) : Z :=
  match v with VNum n => n | _ => 0 end.
Definition as_optional_number (v : Value) : option Z :=
  match v with VNum n => Some n | _ => None end.
Definition as_optional_record (v : Value) : option (gmap string Value) :=
  match v with VObj o => Some o | _ => None end.

(** [ExecutionContextSchema.safeParse(context)]. *)
Definition ExecutionContextSchema_safeParse (context : Value)
    : SafeParse (ExecutionContext.t Value) :=
  match context with
  | VObj o =>
    let issues :=
      (zod_field o "caller" zod_string "string" ++
       zod_field o "modelProvider" (zod_optional zod_string) "string" ++
       zod_field o "timestamp" zod_number "number" ++
       zod_field o "previousOutputs" (zod_optional zod_record) "object" ++
       zod_field o "requestId" zod_string "string" ++
       zod_field o "chainId" (zod_optional zod_string) "string" ++
       zod_field o "blockHeight" (zod_optional zod_number) "number")%list in
    match issues with
    | [] =>
      ParseSuccess
        {| ExecutionContext.caller := as_string (prop o "caller");
           ExecutionContext.modelProvider := as_optional_string (prop o "modelProvider");
           ExecutionContext.timestamp := as_number (prop o "timestamp");
           ExecutionContext.previousOutputs := as_optional_record (prop o "previousOutputs");
           ExecutionContext.requestId := as_string (prop o "requestId");
           ExecutionContext.chainId := as_optional_string (prop o "chainId");
           ExecutionContext.blockHeight := as_optional_number (prop o "blockHeight") |}
    | _ => ParseFailure issues
    end
  | _ => ParseFailure [{| issue_path := ""; issue_expected := "object" |}]
  end.

(** [validation.error.errors] as the value stored in the error details. *)
Definition issues_value (issues : list ZodIssue) : Value :=
  VArr ((λ i, VObj (<["path" := VStr (issue_path i)]>
                    (<["expected" := VStr (issue_expected i)]> ∅))) <$> issues).

(** ** External libraries *)

(** Regular expressions ([RegExp]), [JSON.stringify] and [CryptoJS.SHA256]
    are outside the repository. Their results are left abstract; what is
    modelled is when they throw. The order in which the engine enumerates
    the own properties of an object is abstract as well: it depends on how
    the object was built, which a finite map does not record. *)
Class Externals := {
  (** [Object.entries(obj)]: the own properties of the object, each once,
      in the order of the engine. [Object.keys(obj)] lists their names in
      the same order. *)
  Object_entries : ∀ A : Type, gmap string A → list (string * A);
  Object_entries_permutation :
    ∀ (A : Type) (obj : gmap string A), Object_entries A obj ≡ₚ map_to_list obj;
  (** [new RegExp(pattern)] does not throw a [SyntaxError]. *)
  RegExp_valid : string → bool;
  (** The message of the [SyntaxError] that [new RegExp(pattern, flags)]
      throws for a pattern that is not valid; its wording is the engine's. *)
  RegExp_error : string → string → string;
  (** [new RegExp(pattern).test(value)]. *)
  RegExp_test : string → string → bool;
  (** [subject.replace(new RegExp(pattern, 'g'), replacement)]. *)
  RegExp_replace_all : string → string → string → string;
  (** The text of a number of 22 digits or more, which the engine writes
      in exponent notation. *)
  Number_exponential : Z → string;
  (** The text [JSON.stringify] produces for a value it can serialize. *)
  JSON_text : Value → string;
  (** [CryptoJS.SHA256(text).toString()]. *)
  SHA256 : string → string;
}.

Arguments Object_entries {_ _} _.

Definition Object_keys `{ext : Externals} {A} (obj : gmap string A) : list string :=
  (Object_entries obj).*1.

(** A number in a template literal: its decimal digits, up to 21 of
    them. *)
Definition Number_toString `{ext : Externals} (n : Z) : string :=
  if (Z.abs n <? 10 ^ 21)%Z then pretty n else Number_exponential n.

(** Two more library calls. [PromptDefinitionSchema.safeParse] is applied
    to a definition as it comes from the vault, any JSON value: it refuses
    it with a list of issues or accepts it, and then the definition is read
    through its type. [Buffer.from(text).toString('base64')] is the
    encoding [hashObject] applies. *)
Class Libraries := {
  PromptDefinitionSchema_safeParse : Value → SafeParse PromptDefinition.t;
  Buffer_base64 : string → string;
}.

(** [JSON.stringify] throws a [TypeError] when it meets a [BigInt]. *)
Fixpoint has_bigint (v : Value) : bool :=
  match v with
  | VBigInt _ => true
  | VArr xs => existsb has_bigint xs
  | VObj o => map_fold (λ _ x acc, has_bigint x || acc) false o
  | _ => false
  end.

Definition bigint_error : Thrown :=
  JsError "TypeError" "Do not know how to serialize a BigInt".

(** [JSON.stringify(v)]: [undefined] for [undefined] and for a function, a
    text otherwise. *)
Definition JSON_stringify `{ext : Externals} (v : Value) : Completion (option string) :=
  match v with
  | VUndefined => Return None
  | VFunction _ => Return None
  | _ => if has_bigint v then Throw bigint_error else Return (Some (JSON_text v))
  end.

(** An [Error] object as a value (the [details] of a failure that is not a
    [PromptHubMCPError]). *)
Definition error_value (e : Thrown) : Value :=
  match e with
  | PromptHubMCPError _ message details =>
    VObj (<["name" := VStr "PromptHubMCPError"]>
          (<["message" := VStr message]> (<["details" := details]> ∅)))
  | JsError name message =>
    VObj (<["name" := VStr name]> (<["message" := VStr message]> ∅))
  end.

(** ** Router data ([src/core/prompt-router.ts]) *)

Module DAGNode.
Record t := {
  id : string;
  promptId : string;
  version : option string;
  inputs : gmap string Value;
  dependencies : list string;
}.
End DAGNode.

Record DAGEdge := {
  from : string;
  to : string;
  outputKey : option string;
  inputKey : option string;
}.

Module DAGDefinition.
Record t := {
  id : string;
  name : string;
  description : string;
  nodes : list DAGNode.t;
  edges : list DAGEdge;
}.
End DAGDefinition.

(** The [error] field of a [DAGExecutionResult] is [any]: the [error] field of
    the failing node's result, or whatever was caught. *)
Inductive DagErrorValue :=
  | NodeError (e : option ErrorInfo)
  | CaughtError (e : Thrown).

Module DAGExecutionResult.
Record t := {
  success : bool;
  results : gmap string PromptExecutionResult.t;
  executionOrder : list string;
  totalExecutionTime : Z;
  error : option (string * DagErrorValue);
}.
End DAGExecutionResult.

Module PromptRouter.

(** *** [topologicalSort] *)

(** The three locals of [topologicalSort] that [visit] mutates. *)
Record SortState := {
visited : gset string;
temp : gset string;
result : list DAGNode.t;
}.

(** [new Map(dag.nodes.map(n => [n.id, n]))]: a later node replaces an earlier
  one of the same id. *)
Definition nodeMap (dag : DAGDefinition.t) : gmap string DAGNode.t :=
foldl (λ m n, <[DAGNode.id n := n]> m) ∅ (DAGDefinition.nodes dag).

Definition cycle_error : Thrown :=
PromptHubMCPError VALIDATION_ERROR "DAG contains cycles" VUndefined.

(** [nodeMap.get(nodeId)!] is [undefined] for an unknown id, and reading
  [.dependencies] of it is a [TypeError]. *)
Definition undefined_node_error : Thrown :=
JsError "TypeError" "Cannot read properties of undefined (reading 'dependencies')".

(** The closure [visit]. The recursion of the source is on the call depth;
  [fuel] bounds it, and [None] means the bound was reached.
  [visit_fuel_enough] shows that [length (DAGDefinition.nodes dag)] is never reached. *)
Fixpoint visit (nm : gmap string DAGNode.t) (fuel : nat) (nodeId : string) (st : SortState)
  : option (Completion SortState) :=
if decide (nodeId ∈ temp st) then Some (Throw cycle_error)
else if decide (nodeId ∈ visited st) then Some (Return st)
else
  match nm !! nodeId with
  | None => Some (Throw undefined_node_error)
  | Some node =>
    match fuel with
    | O => None
    | S fuel' =>
      let st1 := {| visited := visited st; temp := {[nodeId]} ∪ temp st; result := result st |} in
      let fix deps_loop (deps : list string) (s : SortState) : option (Completion SortState) :=
        match deps with
        | [] => Some (Return s)
        | dep :: deps' =>
          match visit nm fuel' dep s with
          | None => None
          | Some (Throw e) => Some (Throw e)
          | Some (Return s') => deps_loop deps' s'
          end
        end in
      match deps_loop (DAGNode.dependencies node) st1 with
      | None => None
      | Some (Throw e) => Some (Throw e)
      | Some (Return st2) =>
        Some (Return {| visited := {[nodeId]} ∪ visited st2;
                        temp := temp st2 ∖ {[nodeId]};
                        result := node :: result st2 |})
      end
    end
  end.

(** The loop [for (const dep of node.dependencies) visit(dep)], as a function
  of its own (the same as the local loop inside [visit]). *)
Fixpoint visit_deps (nm : gmap string DAGNode.t) (fuel : nat) (deps : list string) (s : SortState)
  : option (Completion SortState) :=
match deps with
| [] => Some (Return s)
| dep :: deps' =>
  match visit nm fuel dep s with
  | None => None
  | Some (Throw e) => Some (Throw e)
  | Some (Return s') => visit_deps nm fuel deps' s'
  end
end.

(** The loop [for (const node of dag.nodes) if (!visited.has(node.id)) visit(node.id)]. *)
Fixpoint visit_all (nm : gmap string DAGNode.t) (fuel : nat) (ns : list DAGNode.t) (s : SortState)
  : option (Completion SortState) :=
match ns with
| [] => Some (Return s)
| node :: ns' =>
  if decide (DAGNode.id node ∈ visited s) then visit_all nm fuel ns' s
  else
    match visit nm fuel (DAGNode.id node) s with
    | None => None
    | Some (Throw e) => Some (Throw e)
    | Some (Return s') => visit_all nm fuel ns' s'
    end
end.

Definition initial_state : SortState :=
{| visited := ∅; temp := ∅; result := [] |}.

Definition stack_overflow : Thrown :=
JsError "RangeError" "Maximum call stack size exceeded".

Definition topologicalSort_fuel (fuel : nat) (dag : DAGDefinition.t)
  : option (Completion (list DAGNode.t)) :=
match visit_all (nodeMap dag) fuel (DAGDefinition.nodes dag) initial_state with
| None => None
| Some (Throw e) => Some (Throw e)
| Some (Return s) => Some (Return (result s))
end.

Definition topologicalSort (dag : DAGDefinition.t) : Completion (list DAGNode.t) :=
match topologicalSort_fuel (length (DAGDefinition.nodes dag)) dag with
| Some r => r
| None => Throw stack_overflow
end.

(** *** [hasCycles] and [validateDAG] *)

Definition hasCycles (dag : DAGDefinition.t) : bool :=
match topologicalSort dag with
| Return _ => false
| Throw _ => true
end.

Definition missing_dependency_error (node : DAGNode.t) (dep : string) : Thrown :=
PromptHubMCPError VALIDATION_ERROR
  ("Node " ++ DAGNode.id node ++ " depends on non-existent node " ++ dep) VUndefined.

Definition check_dependencies (nodeIds : gset string) (node : DAGNode.t) (u : unit)
  : Completion unit :=
for_of (DAGNode.dependencies node)
  (λ dep _, if decide (dep ∈ nodeIds) then Return tt
            else Throw (missing_dependency_error node dep)) u.

Definition validateDAG (dag : DAGDefinition.t) : Completion unit :=
let nodeIds : gset string := list_to_set (DAGNode.id <$> DAGDefinition.nodes dag) in
if decide (size nodeIds ≠ length (DAGDefinition.nodes dag)) then
  Throw (PromptHubMCPError VALIDATION_ERROR "DAG contains duplicate node IDs" VUndefined)
else
  bind (for_of (DAGDefinition.nodes dag) (check_dependencies nodeIds) tt) (λ _,
    if hasCycles dag then Throw cycle_error else Return tt).

(** *** [prepareNodeInputs] *)

(** One turn of the loop over [node.dependencies]: the output of a dependency
  is merged when its result is recorded, successful, and [typeof] says
  object and it is not [null]. *)
Definition merge_dependency (previousResults : gmap string PromptExecutionResult.t)
  (inputs : gmap string Value) (dep : string) : gmap string Value :=
match previousResults !! dep with
| Some r =>
  if PromptExecutionResult.success r then
    let depOutput := PromptExecutionResult.output r in
    match depOutput with
    | VNull => inputs
    | _ => if decide (typeof depOutput = TObject) then Object_assign inputs depOutput
           else inputs
    end
  else inputs
| None => inputs
end.

Definition prepareNodeInputs (node : DAGNode.t) (rootInputs : gmap string Value)
  (previousResults : gmap string PromptExecutionResult.t) : gmap string Value :=
let inputs := DAGNode.inputs node in
let inputs := foldl (merge_dependency previousResults) inputs (DAGNode.dependencies node) in
Object_assign inputs (VObj rootInputs).

(** *** [executeDag] *)

Section executeDag.
Context `{rt : Runtime}.

(** [this.executePrompt], the collaborator that runs one node. It is kept
  abstract: any function of the prompt id, the inputs, the context, the
  version and the world that returns a result or throws. *)
Variable executePrompt :
string → gmap string Value → ExecutionContext.t PromptExecutionResult.t →
option string → World → Completion PromptExecutionResult.t * World.

(** A record of one call of [executePrompt], kept beside the state of the
  run to state which nodes were executed and with what. *)
Record Invocation := {
inv_node : string;
inv_inputs : gmap string Value;
inv_context : ExecutionContext.t PromptExecutionResult.t;
}.

(** The locals [results] and [executionOrder], and the calls made so far. *)
Record RunState := {
results : gmap string PromptExecutionResult.t;
executionOrder : list string;
invoked : list Invocation;
}.

(** [context?.caller || 'dag-executor']: an absent or empty caller is
  replaced. *)
Definition caller_or_default (context : option PartialContext.t) : string :=
match context ≫= PartialContext.caller with
| Some c => if decide (c = "") then "dag-executor" else c
| None => "dag-executor"
end.

(** The body of the loop over the sorted nodes. [Some r] is a [return r]
  from inside the loop; [None] lets the loop go on. *)
Definition run_node (rootInputs : gmap string Value) (context : option PartialContext.t)
  (startTime : Z) (node : DAGNode.t) (st : RunState) (w : World)
  : option DAGExecutionResult.t * RunState * World :=
let '(nodeStartTime, w) := Date_now w in
let nodeInputs := prepareNodeInputs node rootInputs (results st) in
let '(requestId, w) := uuidv4 w in
let nodeContext :=
  {| ExecutionContext.caller := caller_or_default context;
     ExecutionContext.modelProvider := context ≫= PartialContext.modelProvider;
     ExecutionContext.timestamp := nodeStartTime;
     ExecutionContext.previousOutputs := Some (results st);
     ExecutionContext.requestId := requestId;
     ExecutionContext.chainId := None;
     ExecutionContext.blockHeight := None |} in
let call := {| inv_node := DAGNode.id node; inv_inputs := nodeInputs;
               inv_context := nodeContext |} in
let '(outcome, w) :=
  executePrompt (DAGNode.promptId node) nodeInputs nodeContext (DAGNode.version node) w in
match outcome with
| Return nodeResult =>
  let st' := {| results := <[DAGNode.id node := nodeResult]> (results st);
                executionOrder := executionOrder st ++ [DAGNode.id node];
                invoked := invoked st ++ [call] |} in
  if PromptExecutionResult.success nodeResult then (None, st', w)
  else
    let '(endTime, w) := Date_now w in
    (Some {| DAGExecutionResult.success := false;
             DAGExecutionResult.results := results st';
             DAGExecutionResult.executionOrder := executionOrder st';
             DAGExecutionResult.totalExecutionTime := endTime - startTime;
             DAGExecutionResult.error :=
               Some (DAGNode.id node, NodeError (PromptExecutionResult.error nodeResult)) |},
     st', w)
| Throw error =>
  let st' := {| results := results st; executionOrder := executionOrder st;
                invoked := invoked st ++ [call] |} in
  let '(endTime, w) := Date_now w in
  (Some {| DAGExecutionResult.success := false;
           DAGExecutionResult.results := results st';
           DAGExecutionResult.executionOrder := executionOrder st';
           DAGExecutionResult.totalExecutionTime := endTime - startTime;
           DAGExecutionResult.error := Some (DAGNode.id node, CaughtError error) |},
   st', w)
end.

(** [for (const node of sortedNodes) { ... }]. *)
Fixpoint run_nodes (rootInputs : gmap string Value) (context : option PartialContext.t)
  (startTime : Z) (sortedNodes : list DAGNode.t) (st : RunState) (w : World)
  : option DAGExecutionResult.t * RunState * World :=
match sortedNodes with
| [] => (None, st, w)
| node :: rest =>
  match run_node rootInputs context startTime node st w with
  | (Some r, st', w') => (Some r, st', w')
  | (None, st', w') => run_nodes rootInputs context startTime rest st' w'
  end
end.

Definition empty_run : RunState :=
{| results := ∅; executionOrder := []; invoked := [] |}.

(** [executeDag], returning beside its result the calls of [executePrompt]
  it made. *)
Definition executeDag_traced (dag : DAGDefinition.t) (rootInputs : gmap string Value)
  (context : option PartialContext.t) (w : World)
  : DAGExecutionResult.t * list Invocation * World :=
let '(startTime, w) := Date_now w in
let st := empty_run in
match bind (validateDAG dag) (λ _, topologicalSort dag) with
| Return sortedNodes =>
  match run_nodes rootInputs context startTime sortedNodes st w with
  | (Some r, st', w') => (r, invoked st', w')
  | (None, st', w') =>
    let '(endTime, w'') := Date_now w' in
    ({| DAGExecutionResult.success := true;
        DAGExecutionResult.results := results st';
        DAGExecutionResult.executionOrder := executionOrder st';
        DAGExecutionResult.totalExecutionTime := endTime - startTime;
        DAGExecutionResult.error := None |}, invoked st', w'')
  end
| Throw error =>
  let '(endTime, w') := Date_now w in
  ({| DAGExecutionResult.success := false;
      DAGExecutionResult.results := results st;
      DAGExecutionResult.executionOrder := executionOrder st;
      DAGExecutionResult.totalExecutionTime := endTime - startTime;
      DAGExecutionResult.error := Some ("validation", CaughtError error) |},
   invoked st, w')
end.

Definition executeDag (dag : DAGDefinition.t) (rootInputs : gmap string Value)
  (context : option PartialContext.t) (w : World) : DAGExecutionResult.t * World :=
let '(r, _, w') := executeDag_traced dag rootInputs context w in (r, w').

End executeDag.

End PromptRouter.

(** ** The prompt module ([src/core/prompt-module.ts]) *)

Module PromptModule.

(** The fields of a [PromptModule] instance. *)
Record t := {
definition : PromptDefinition.t;
metadata : PromptMetadata.t;
executionCount : Z;
lastExecutionTime : option Z;
}.

(** [new PromptModule(definition, metadata)], for a definition that passes
  [PromptDefinitionSchema]. *)
Definition new (definition : PromptDefinition.t) (metadata : PromptMetadata.t) : t :=
{| definition := definition; metadata := metadata;
   executionCount := 0%Z; lastExecutionTime := None |}.

(** The constructor: it validates the definition it is given and throws
  when the schema refuses it. *)
Definition constructor `{lib : Libraries} (definition : Value) (metadata : PromptMetadata.t)
  : Completion t :=
match PromptDefinitionSchema_safeParse definition with
| ParseSuccess data => Return (new data metadata)
| ParseFailure issues =>
  Throw (PromptHubMCPError VALIDATION_ERROR "Invalid prompt definition" (issues_value issues))
end.

(** An optional number used as a condition: absent and [0] are falsy. *)
Definition truthy (o : option Z) : option Z :=
match o with
| Some n => if decide (n = 0%Z) then None else Some n
| None => None
end.

Definition getMetadata (m : t) : PromptMetadata.t :=
let md := metadata m in
{| PromptMetadata.id := PromptMetadata.id md;
   PromptMetadata.name := PromptMetadata.name md;
   PromptMetadata.description := PromptMetadata.description md;
   PromptMetadata.version := PromptMetadata.version md;
   PromptMetadata.author := PromptMetadata.author md;
   PromptMetadata.license := PromptMetadata.license md;
   PromptMetadata.tags := PromptMetadata.tags md;
   PromptMetadata.createdAt := PromptMetadata.createdAt md;
   PromptMetadata.updatedAt :=
     default (PromptMetadata.updatedAt md) (truthy (lastExecutionTime m));
   PromptMetadata.executionCount := executionCount m;
   PromptMetadata.averageRating := PromptMetadata.averageRating md;
   PromptMetadata.accessPolicy := PromptMetadata.accessPolicy md;
   PromptMetadata.royaltyConfig := PromptMetadata.royaltyConfig md |}.

(** The bound, when it is set and [test] finds it violated. *)
Definition violated (bound : option Z) (test : Z → bool) : option Z :=
match bound with
| Some n => if test n then Some n else None
| None => None
end.

Definition missing_message (key : string) : string :=
"Required parameter '" ++ key ++ "' is missing".

Definition unexpected_message (key : string) : string :=
"Unexpected parameter '" ++ key ++ "' will be ignored".

Section methods.
Context `{ext : Externals}.

Definition validate_string (key s : string) (param : InputParameter.t)
  : Completion (option string) :=
let len := Z.of_nat (utf16_length s) in
let check_enum :=
  match InputParameter.enum param with
  | Some allowed =>
    if decide (s ∈ allowed) then Return None
    else Return (Some ("Parameter '" ++ key ++ "' must be one of: "
                       ++ String.concat ", " allowed))
  | None => Return None
  end in
match violated (truthy (InputParameter.minLength param)) (λ n, len <? n)%Z with
| Some n =>
  Return (Some ("Parameter '" ++ key ++ "' must be at least " ++ Number_toString n ++ " characters"))
| None =>
  match violated (truthy (InputParameter.maxLength param)) (λ n, n <? len)%Z with
  | Some n =>
    Return (Some ("Parameter '" ++ key ++ "' must be at most " ++ Number_toString n ++ " characters"))
  | None =>
    match InputParameter.pattern param with
    | Some p =>
      if decide (p = "") then check_enum
      else if negb (RegExp_valid p) then
        Throw (JsError "SyntaxError" (RegExp_error p ""))
      else if negb (RegExp_test p s) then
        Return (Some ("Parameter '" ++ key ++ "' does not match required pattern"))
      else check_enum
    | None => check_enum
    end
  end
end.

Definition validate_number (key : string) (v : Z) (param : InputParameter.t) : option string :=
match violated (InputParameter.minimum param) (λ n, v <? n)%Z with
| Some n => Some ("Parameter '" ++ key ++ "' must be at least " ++ Number_toString n)
| None =>
  match violated (InputParameter.maximum param) (λ n, n <? v)%Z with
  | Some n => Some ("Parameter '" ++ key ++ "' must be at most " ++ Number_toString n)
  | None => None
  end
end.

Definition validate_array (key : string) (xs : list Value) (param : InputParameter.t)
  : option string :=
let len := Z.of_nat (length xs) in
match violated (truthy (InputParameter.minItems param)) (λ n, len <? n)%Z with
| Some n => Some ("Parameter '" ++ key ++ "' must have at least " ++ Number_toString n ++ " items")
| None =>
  match violated (truthy (InputParameter.maxItems param)) (λ n, n <? len)%Z with
  | Some n => Some ("Parameter '" ++ key ++ "' must have at most " ++ Number_toString n ++ " items")
  | None => None
  end
end.

(** [validateParameterValue]: [None] is the [null] of the source. The
  comparisons of a number with its bounds are all false for [NaN]. *)
Definition validateParameterValue (key : string) (value : Value) (param : InputParameter.t)
  : Completion (option string) :=
match InputParameter.type param with
| PString =>
  match value with
  | VStr s => validate_string key s param
  | _ => Return (Some ("Parameter '" ++ key ++ "' must be a string"))
  end
| PNumber =>
  match value with
  | VNum v => Return (validate_number key v param)
  | VNaN => Return None
  | _ => Return (Some ("Parameter '" ++ key ++ "' must be a number"))
  end
| PBoolean =>
  match value with
  | VBool _ => Return None
  | _ => Return (Some ("Parameter '" ++ key ++ "' must be a boolean"))
  end
| PArray =>
  match value with
  | VArr xs => Return (validate_array key xs param)
  | _ => Return (Some ("Parameter '" ++ key ++ "' must be an array"))
  end
| PObject =>
  match value with
  | VObj _ => Return None
  | _ => Return (Some ("Parameter '" ++ key ++ "' must be an object"))
  end
end.

(** The body of the first loop of [validateInput], for one declared
  parameter; [errors] is the array being filled. *)
Definition check_parameter (input : gmap string Value)
  (entry : string * InputParameter.t) (errors : list string) : Completion (list string) :=
let '(key, param) := entry in
if InputParameter.required param && negb (key_in key input) then
  Return (errors ++ [missing_message key])%list
else if key_in key input then
  let value := Object_get input key in
  bind (validateParameterValue key value param) (λ validationError,
    match validationError with
    | Some e => Return (errors ++ [e])%list
    | None => Return errors
    end)
else Return errors.

(** The second loop of [validateInput]. *)
Definition unexpected_warnings (declared : gmap string InputParameter.t)
  (input : gmap string Value) : list string :=
unexpected_message <$>
  List.filter (λ key, negb (key_in key declared)) (Object_keys input).

Definition validateInput (m : t) (input : gmap string Value)
  : Completion ValidationResult.t :=
let declared := PromptDefinition.inputs (definition m) in
bind (for_of (Object_entries declared) (check_parameter input) []) (λ errors,
  Return {| ValidationResult.valid := bool_decide (length errors = 0%nat);
            ValidationResult.errors := errors;
            ValidationResult.warnings := unexpected_warnings declared input |}).

Definition prepareExecutionInputs (m : t) (input : gmap string Value) : gmap string Value :=
foldl (λ executionInputs '(key, param),
         if key_in key input then Object_set executionInputs key (Object_get input key)
         else
           match InputParameter.default param with
           | VUndefined => executionInputs
           | d => Object_set executionInputs key d
           end)
      ∅ (Object_entries (PromptDefinition.inputs (definition m))).

(** [resolveDependencies] resolves nothing yet. *)
Definition resolveDependencies (m : t) (inputs : gmap string Value)
  (context : ExecutionContext.t Value) : gmap string Value :=
∅.

(** One replacement of [renderTemplate]. *)
Definition replace_placeholder (entry : string * Value) (rendered : string)
  : Completion string :=
let '(key, value) := entry in
let placeholder := "{{" ++ key ++ "}}" in
bind (match value with
      | VStr s => Return s
      | _ => bind (JSON_stringify value) (λ text, Return (default "undefined" text))
      end) (λ stringValue,
  if RegExp_valid placeholder then
    Return (RegExp_replace_all placeholder rendered stringValue)
  else Throw (JsError "SyntaxError" (RegExp_error placeholder "g"))).

Definition renderTemplate (m : t) (inputs dependencies : gmap string Value)
  : Completion string :=
bind (for_of (Object_entries inputs) replace_placeholder
        (PromptDefinition.template (definition m))) (λ rendered,
  for_of (Object_entries dependencies) replace_placeholder rendered).

Definition generateExecutionSignature (m : t) (executionId : string)
  (input : gmap string Value) (output : Value) (context : ExecutionContext.t Value)
  : Completion string :=
bind (JSON_stringify (VObj input)) (λ inputText,
bind (JSON_stringify output) (λ outputText,
  let signatureData :=
    VObj (<["executionId" := VStr executionId]>
         (<["promptId" := VStr (PromptDefinition.id (definition m))]>
         (<["version" := VStr (PromptDefinition.version (definition m))]>
         (<["inputHash" := VStr (SHA256 (default "" inputText))]>
         (<["outputHash" := VStr (SHA256 (default "" outputText))]>
         (<["caller" := VStr (ExecutionContext.caller context)]>
         (<["timestamp" := VNum (ExecutionContext.timestamp context)]> ∅))))))) in
  bind (JSON_stringify signatureData) (λ text, Return (SHA256 (default "" text))))).

Context `{rt : Runtime}.

(** A method that reads the clock, mutates the fields of the module and may
  throw. The fields and the world survive a [throw]. *)
Definition Run (A : Type) : Type := t → World → Completion A * t * World.

Definition run_ret {A} (a : A) : Run A := λ m w, (Return a, m, w).
Definition run_throw {A} (e : Thrown) : Run A := λ m w, (Throw e, m, w).
Definition run_lift {A} (c : Completion A) : Run A := λ m w, (c, m, w).
Definition run_bind {A B} (c : Run A) (k : A → Run B) : Run B :=
λ m w, match c m w with
       | (Return a, m', w') => k a m' w'
       | (Throw e, m', w') => (Throw e, m', w')
       end.
Definition run_try {A} (body : Run A) (handler : Thrown → Run A) : Run A :=
λ m w, match body m w with
       | (Return a, m', w') => (Return a, m', w')
       | (Throw e, m', w') => handler e m' w'
       end.
Definition this : Run t := λ m w, (Return m, m, w).
Definition update (f : t → t) : Run unit := λ m w, (Return tt, f m, w).
Definition now : Run Z := λ m w, let '(time, w') := Date_now w in (Return time, m, w').
Definition fresh_uuid : Run string :=
λ m w, let '(u, w') := uuidv4 w in (Return u, m, w').

Notation "'let!' x := c 'in' k" := (run_bind c (λ x, k))
(at level 10, x name, c at level 100, k at level 200).
Notation "'do!' c 'in' k" := (run_bind c (λ _, k))
(at level 10, c at level 100, k at level 200).

Definition private_error : Thrown :=
PromptHubMCPError ACCESS_DENIED
  "This prompt is private and can only be accessed by the author" VUndefined.
Definition whitelist_error : Thrown :=
PromptHubMCPError ACCESS_DENIED
  "Caller is not in the whitelist for this prompt" VUndefined.
Definition expired_error : Thrown :=
PromptHubMCPError ACCESS_DENIED "Access to this prompt has expired" VUndefined.

(** The check after the [switch] of [checkAccess]. The clock is read only
  when an expiration date is set. *)
Definition check_expiration (policy : AccessPolicy.t) : Run unit :=
match truthy (AccessPolicy.expirationDate policy) with
| Some expirationDate =>
  let! time := now in
  if (expirationDate <? time)%Z then run_throw expired_error else run_ret tt
| None => run_ret tt
end.

Definition checkAccess (caller : string) : Run unit :=
let! m := this in
let policy := PromptMetadata.accessPolicy (metadata m) in
match AccessPolicy.type policy with
| public => run_ret tt
| private =>
  if decide (caller ≠ PromptMetadata.author (metadata m)) then run_throw private_error
  else run_ret tt
| token_gated => check_expiration policy
| nft_gated => check_expiration policy
| custom =>
  match AccessPolicy.whitelist policy with
  | Some whitelist =>
    if decide (caller ∈ whitelist) then check_expiration policy
    else run_throw whitelist_error
  | None => check_expiration policy
  end
end.

(** The private [executePrompt]: the mock response. *)
Definition executePrompt (renderedPrompt : string) (context : ExecutionContext.t Value)
  (executionId : string) : Run Value :=
let! m := this in
let! time := now in
run_ret (VObj (<["text" := VStr ("Mock response for prompt: "
                                  ++ PromptDefinition.name (definition m))]>
              (<["renderedPrompt" := VStr renderedPrompt]>
              (<["executionId" := VStr executionId]>
              (<["timestamp" := VNum time]> ∅))))).

Definition failure_response (m : t) (executionId : string) (startTime executionTime : Z)
  (error : ErrorInfo) : ModuleResponse.t :=
{| ModuleResponse.success := false;
   ModuleResponse.output := VNull;
   ModuleResponse.metadata :=
     {| ModuleResponse.Metadata.executionId := executionId;
        ModuleResponse.Metadata.promptId := PromptDefinition.id (definition m);
        ModuleResponse.Metadata.version := PromptDefinition.version (definition m);
        ModuleResponse.Metadata.executionTime := executionTime;
        ModuleResponse.Metadata.timestamp := startTime;
        ModuleResponse.Metadata.error := Some error |};
   ModuleResponse.executionTime := executionTime;
   ModuleResponse.signature := None |}.

(** The [try] block of [execute]. *)
Definition execute_try (input : gmap string Value) (context : Value)
  (startTime : Z) (executionId : string) : Run ModuleResponse.t :=
match ExecutionContextSchema_safeParse context with
| ParseFailure issues =>
  run_throw (PromptHubMCPError VALIDATION_ERROR "Invalid execution context"
               (issues_value issues))
| ParseSuccess ctx =>
  let! m := this in
  let! inputValidation := run_lift (validateInput m input) in
  if negb (ValidationResult.valid inputValidation) then
    run_throw (PromptHubMCPError INVALID_INPUT "Input validation failed"
                 (VArr (VStr <$> ValidationResult.errors inputValidation)))
  else
    do! checkAccess (ExecutionContext.caller ctx) in
    let executionInputs := prepareExecutionInputs m input in
    let resolvedDependencies := resolveDependencies m executionInputs ctx in
    let! renderedPrompt := run_lift (renderTemplate m executionInputs resolvedDependencies) in
    let! output := executePrompt renderedPrompt ctx executionId in
    do! update (λ m, {| definition := definition m; metadata := metadata m;
                        executionCount := (executionCount m + 1)%Z;
                        lastExecutionTime := lastExecutionTime m |}) in
    let! time := now in
    do! update (λ m, {| definition := definition m; metadata := metadata m;
                        executionCount := executionCount m;
                        lastExecutionTime := Some time |}) in
    let! endTime := now in
    let executionTime := (endTime - startTime)%Z in
    let! signature := run_lift (generateExecutionSignature m executionId input output ctx) in
    run_ret
      {| ModuleResponse.success := true;
         ModuleResponse.output := output;
         ModuleResponse.metadata :=
           {| ModuleResponse.Metadata.executionId := executionId;
              ModuleResponse.Metadata.promptId := PromptDefinition.id (definition m);
              ModuleResponse.Metadata.version := PromptDefinition.version (definition m);
              ModuleResponse.Metadata.executionTime := executionTime;
              ModuleResponse.Metadata.timestamp := startTime;
              ModuleResponse.Metadata.error := None |};
         ModuleResponse.executionTime := executionTime;
         ModuleResponse.signature := Some signature |}
end.

(** The [catch] block of [execute]. *)
Definition execute_catch (startTime : Z) (executionId : string) (error : Thrown)
  : Run ModuleResponse.t :=
let! endTime := now in
let executionTime := (endTime - startTime)%Z in
let! m := this in
match error with
| PromptHubMCPError code message details =>
  run_ret (failure_response m executionId startTime executionTime
             {| code := code; message := message; details := details |})
| JsError _ message =>
  run_ret (failure_response m executionId startTime executionTime
             {| code := EXECUTION_FAILED; message := message;
                details := error_value error |})
end.

Definition execute (input : gmap string Value) (context : Value) : Run ModuleResponse.t :=
let! startTime := now in
let! executionId := fresh_uuid in
run_try (execute_try input context startTime executionId)
        (execute_catch startTime executionId).

(** [getDefinition] returns a shallow copy of the definition, and
  [getRoyaltyInfo] and [getAccessControl] the two configuration objects of
  the metadata. *)
Definition getDefinition (m : t) : PromptDefinition.t := definition m.

Definition getRoyaltyInfo (m : t) : RoyaltyConfiguration :=
PromptMetadata.royaltyConfig (metadata m).

Definition getAccessControl (m : t) : AccessPolicy.t :=
PromptMetadata.accessPolicy (metadata m).

Definition not_author_error : Thrown :=
PromptHubMCPError ACCESS_DENIED "Only the prompt author can update metadata" VUndefined.

(** [{ ...metadata, ...newMetadata, updatedAt }]: a property of
  [newMetadata] replaces the one of [metadata], and [updatedAt] comes
  last. *)
Definition spread_metadata (md : PromptMetadata.t) (newMetadata : PartialMetadata.t)
  (updatedAt : Z) : PromptMetadata.t :=
{| PromptMetadata.id := default (PromptMetadata.id md) (PartialMetadata.id newMetadata);
   PromptMetadata.name := default (PromptMetadata.name md) (PartialMetadata.name newMetadata);
   PromptMetadata.description :=
     default (PromptMetadata.description md) (PartialMetadata.description newMetadata);
   PromptMetadata.version :=
     default (PromptMetadata.version md) (PartialMetadata.version newMetadata);
   PromptMetadata.author :=
     default (PromptMetadata.author md) (PartialMetadata.author newMetadata);
   PromptMetadata.license :=
     default (PromptMetadata.license md) (PartialMetadata.license newMetadata);
   PromptMetadata.tags := default (PromptMetadata.tags md) (PartialMetadata.tags newMetadata);
   PromptMetadata.createdAt :=
     default (PromptMetadata.createdAt md) (PartialMetadata.createdAt newMetadata);
   PromptMetadata.updatedAt := updatedAt;
   PromptMetadata.executionCount :=
     default (PromptMetadata.executionCount md) (PartialMetadata.executionCount newMetadata);
   PromptMetadata.averageRating :=
     match PartialMetadata.averageRating newMetadata with
     | Some rating => Some rating
     | None => PromptMetadata.averageRating md
     end;
   PromptMetadata.accessPolicy :=
     default (PromptMetadata.accessPolicy md) (PartialMetadata.accessPolicy newMetadata);
   PromptMetadata.royaltyConfig :=
     default (PromptMetadata.royaltyConfig md) (PartialMetadata.royaltyConfig newMetadata) |}.

Definition updateMetadata (newMetadata : PartialMetadata.t) (caller : string) : Run unit :=
let! m := this in
if decide (caller ≠ PromptMetadata.author (metadata m)) then run_throw not_author_error
else
  let! time := now in
  update (λ m, {| definition := definition m;
                  metadata := spread_metadata (metadata m) newMetadata time;
                  executionCount := executionCount m;
                  lastExecutionTime := lastExecutionTime m |}).


End methods.

End PromptModule.

(** ** The router over the vault ([src/core/prompt-router.ts]) *)

(** What [vaultClient.getPrompt] resolves to: the definition fetched from
    IPFS, any JSON value, beside the metadata the client builds. *)
Module PromptData.
Record t := {
  definition : Value;
  metadata : PromptMetadata.t;
}.
End PromptData.

(** The vault client ([src/core/vault-client.ts]) talks to the chain and to
    IPFS. The router uses three of its methods, kept abstract: each reads
    and changes the world, and resolves or rejects. [listPrompts] is the
    call without filters. *)
Class VaultClient `{rt : Runtime} := {
  getPrompt : string → option string → World → Completion (option PromptData.t) * World;
  listPrompts : World → Completion (list PromptMetadata.t) * World;
  recordExecution :
    string → string → string → string → bool → Z → World → Completion string * World;
}.

Module Router.

(** The fields of a [PromptRouter] instance beside the vault client. A
    module in [moduleCache] is an object [execute] mutates: the entry of
    the map is the state of that object. *)
Record t := {
  moduleCache : gmap string PromptModule.t;
  searchIndex : gmap string (list PromptMetadata.t);
}.

Definition new : t := {| moduleCache := ∅; searchIndex := ∅ |}.

(** [version || 'latest']: an absent or empty version is [latest]. *)
Definition version_or_latest (version : option string) : string :=
match version with
| Some v => if decide (v = "") then "latest" else v
| None => "latest"
end.

Definition cacheKey (promptId : string) (version : option string) : string :=
promptId ++ "@" ++ version_or_latest version.

Definition not_found_error (promptId : string) (version : option string) : Thrown :=
PromptHubMCPError PROMPT_NOT_FOUND
  ("Prompt not found: " ++ promptId ++
   match version with
   | Some v => if decide (v = "") then "" else "@" ++ v
   | None => ""
   end)
  VUndefined.

(** The loop of [buildSearchIndex] over the tags of one prompt, and over
    all prompts. *)
Definition index_tag (prompt : PromptMetadata.t)
  (tagIndex : gmap string (list PromptMetadata.t)) (tag : string)
  : gmap string (list PromptMetadata.t) :=
<[tag := (default [] (tagIndex !! tag) ++ [prompt])%list]> tagIndex.

Definition index_prompt (tagIndex : gmap string (list PromptMetadata.t))
  (prompt : PromptMetadata.t) : gmap string (list PromptMetadata.t) :=
foldl (index_tag prompt) tagIndex (PromptMetadata.tags prompt).

Definition tag_index (allPrompts : list PromptMetadata.t)
  : gmap string (list PromptMetadata.t) :=
foldl index_prompt ∅ allPrompts.

(** *** Objects as values *)

(** The string of an error code. *)
Definition ErrorCodes_text (c : ErrorCodes) : string :=
match c with
| PROMPT_NOT_FOUND => "PROMPT_NOT_FOUND"
| INVALID_INPUT => "INVALID_INPUT"
| ACCESS_DENIED => "ACCESS_DENIED"
| EXECUTION_FAILED => "EXECUTION_FAILED"
| BLOCKCHAIN_ERROR => "BLOCKCHAIN_ERROR"
| VALIDATION_ERROR => "VALIDATION_ERROR"
| NETWORK_ERROR => "NETWORK_ERROR"
| INSUFFICIENT_BALANCE => "INSUFFICIENT_BALANCE"
| RATE_LIMIT_EXCEEDED => "RATE_LIMIT_EXCEEDED"
| SIGNATURE_VERIFICATION_FAILED => "SIGNATURE_VERIFICATION_FAILED"
end.

(** An optional property, set when its value is there. A property that is
    present with the value [undefined] reads like an absent one and is left
    out. *)
Definition with_optional (key : string) (value : option Value) (o : gmap string Value)
  : gmap string Value :=
match value with
| Some v => <[key := v]> o
| None => o
end.

Definition error_info_value (e : ErrorInfo) : Value :=
VObj (<["code" := VStr (ErrorCodes_text (code e))]>
     (<["message" := VStr (message e)]>
     (<["details" := details e]> ∅))).

(** The [metadata] object of a [ModuleResponse]. *)
Definition response_metadata_value (md : ModuleResponse.Metadata.t) : Value :=
VObj (<["executionId" := VStr (ModuleResponse.Metadata.executionId md)]>
     (<["promptId" := VStr (ModuleResponse.Metadata.promptId md)]>
     (<["version" := VStr (ModuleResponse.Metadata.version md)]>
     (<["executionTime" := VNum (ModuleResponse.Metadata.executionTime md)]>
     (<["timestamp" := VNum (ModuleResponse.Metadata.timestamp md)]>
     (with_optional "error" (error_info_value <$> ModuleResponse.Metadata.error md) ∅)))))).

Definition token_usage_value (u : TokenUsage) : Value :=
VObj (<["promptTokens" := VNum (promptTokens u)]>
     (<["completionTokens" := VNum (completionTokens u)]>
     (<["totalTokens" := VNum (totalTokens u)]> ∅))).

(** A [PromptExecutionResult], as it is stored in [previousOutputs]. *)
Definition result_value (r : PromptExecutionResult.t) : Value :=
let md := PromptExecutionResult.metadata r in
VObj (<["success" := VBool (PromptExecutionResult.success r)]>
     (<["output" := PromptExecutionResult.output r]>
     (<["metadata" :=
          VObj (<["promptId" := VStr (PromptExecutionResult.promptId md)]>
               (<["version" := VStr (PromptExecutionResult.version md)]>
               (<["executionId" := VStr (PromptExecutionResult.executionId md)]>
               (<["timestamp" := VNum (PromptExecutionResult.timestamp md)]>
               (<["executionTime" := VNum (PromptExecutionResult.executionTime md)]>
               (with_optional "tokenUsage"
                  (token_usage_value <$> PromptExecutionResult.tokenUsage md)
               (with_optional "modelProvider"
                  (VStr <$> PromptExecutionResult.modelProvider md) ∅)))))))]>
     (with_optional "signature" (VStr <$> PromptExecutionResult.signature r)
     (with_optional "error" (error_info_value <$> PromptExecutionResult.error r) ∅))))).

(** The object [{ ...context, requestId: executionId }] that
    [executePrompt] hands to the module. *)
Definition module_context (context : ExecutionContext.t PromptExecutionResult.t)
  (executionId : string) : Value :=
VObj (<["caller" := VStr (ExecutionContext.caller context)]>
     (with_optional "modelProvider" (VStr <$> ExecutionContext.modelProvider context)
     (<["timestamp" := VNum (ExecutionContext.timestamp context)]>
     (with_optional "previousOutputs"
        ((λ results : gmap string PromptExecutionResult.t, VObj (result_value <$> results))
           <$> ExecutionContext.previousOutputs context)
     (<["requestId" := VStr executionId]>
     (with_optional "chainId" (VStr <$> ExecutionContext.chainId context)
     (with_optional "blockHeight" (VNum <$> ExecutionContext.blockHeight context) ∅))))))).

(** The [error] of the result built in the [catch] of [executePrompt]: the
    code of a [PromptHubMCPError] and [EXECUTION_FAILED] for any other
    error, with the error itself as details. *)
Definition caught_error_info (e : Thrown) : ErrorInfo :=
{| code := match e with
           | PromptHubMCPError c _ _ => c
           | JsError _ _ => EXECUTION_FAILED
           end;
   message := match e with
              | PromptHubMCPError _ msg _ => msg
              | JsError _ msg => msg
              end;
   details := error_value e |}.

Section methods.
Context `{ext : Externals} `{lib : Libraries} `{rt : Runtime} `{vault : !VaultClient}.

(** [hashObject]: [Buffer.from] refuses the [undefined] that
  [JSON.stringify] returns for [undefined]. *)
Definition hashObject (obj : Value) : Completion string :=
bind (JSON_stringify obj) (λ text,
  match text with
  | Some text => Return (Buffer_base64 text)
  | None =>
    Throw (JsError "TypeError"
             "The first argument must be of type string or an instance of Buffer, ArrayBuffer, or Array or an Array-like Object. Received undefined")
  end).

(** A method of the router: it reads and changes the fields and the world,
  and may throw. *)
Definition Op (A : Type) : Type := t → World → Completion A * t * World.

Definition op_ret {A} (a : A) : Op A := λ r w, (Return a, r, w).
Definition op_throw {A} (e : Thrown) : Op A := λ r w, (Throw e, r, w).
Definition op_lift {A} (c : Completion A) : Op A := λ r w, (c, r, w).
Definition op_bind {A B} (c : Op A) (k : A → Op B) : Op B :=
λ r w, match c r w with
       | (Return a, r', w') => k a r' w'
       | (Throw e, r', w') => (Throw e, r', w')
       end.
Definition op_try {A} (body : Op A) (handler : Thrown → Op A) : Op A :=
λ r w, match body r w with
       | (Return a, r', w') => (Return a, r', w')
       | (Throw e, r', w') => handler e r' w'
       end.
Definition fields : Op t := λ r w, (Return r, r, w).
Definition modify (f : t → t) : Op unit := λ r w, (Return tt, f r, w).
Definition op_now : Op Z := λ r w, let '(time, w') := Date_now w in (Return time, r, w').
Definition op_uuid : Op string := λ r w, let '(u, w') := uuidv4 w in (Return u, r, w').
(** A call of a method of the vault client. *)
Definition await {A} (call : World → Completion A * World) : Op A :=
λ r w, let '(c, w') := call w in (c, r, w').
(** A call of a method of the module cached under [key]: what the method
  does to the module is seen through the cache. *)
Definition on_module {A} (key : string) (m : PromptModule.t)
  (method : PromptModule.t → World → Completion A * PromptModule.t * World) : Op A :=
λ r w, let '(c, m', w') := method m w in
       (c, {| moduleCache := <[key := m']> (moduleCache r); searchIndex := searchIndex r |}, w').

Notation "'let!' x := c 'in' k" := (op_bind c (λ x, k))
(at level 10, x name, c at level 100, k at level 200).
Notation "'do!' c 'in' k" := (op_bind c (λ _, k))
(at level 10, c at level 100, k at level 200).

Definition getPromptModule (promptId : string) (version : option string)
  : Op PromptModule.t :=
let key := cacheKey promptId version in
let! r := fields in
match moduleCache r !! key with
| Some m => op_ret m
| None =>
  let! promptData := await (getPrompt promptId version) in
  match promptData with
  | None => op_throw (not_found_error promptId version)
  | Some data =>
    let! m := op_lift (PromptModule.constructor (PromptData.definition data)
                         (PromptData.metadata data)) in
    do! modify (λ r, {| moduleCache := <[key := m]> (moduleCache r);
                        searchIndex := searchIndex r |}) in
    op_ret m
  end
end.

(** The [try] block inside [executePrompt] that records a successful
  execution on the chain; whatever it throws is logged and dropped. *)
Definition record_on_chain (promptId executionId : string) (inputs : gmap string Value)
  (output : Value) (success : bool) (executionTime : Z) : Op unit :=
op_try
  (let! inputHash := op_lift (hashObject (VObj inputs)) in
   let! outputHash := op_lift (hashObject output) in
   do! await (recordExecution promptId executionId inputHash outputHash success
                executionTime) in
   op_ret tt)
  (λ recordError, op_ret tt).

Definition executePrompt_try (promptId : string) (inputs : gmap string Value)
  (context : ExecutionContext.t PromptExecutionResult.t) (version : option string)
  (startTime : Z) (executionId : string) : Op PromptExecutionResult.t :=
let! m := getPromptModule promptId version in
let! result := on_module (cacheKey promptId version) m
                 (PromptModule.execute inputs (module_context context executionId)) in
let! endTime := op_now in
let executionTime := (endTime - startTime)%Z in
do! (if ModuleResponse.success result && bool_decide (ExecutionContext.caller context ≠ "")
     then record_on_chain promptId executionId inputs (ModuleResponse.output result)
            (ModuleResponse.success result) executionTime
     else op_ret tt) in
op_ret
  {| PromptExecutionResult.success := ModuleResponse.success result;
     PromptExecutionResult.output := ModuleResponse.output result;
     PromptExecutionResult.metadata :=
       {| PromptExecutionResult.promptId := promptId;
          PromptExecutionResult.version := version_or_latest version;
          PromptExecutionResult.executionId := executionId;
          PromptExecutionResult.timestamp := startTime;
          PromptExecutionResult.executionTime := executionTime;
          PromptExecutionResult.tokenUsage := None;
          PromptExecutionResult.modelProvider := ExecutionContext.modelProvider context |};
     PromptExecutionResult.signature := ModuleResponse.signature result;
     PromptExecutionResult.error :=
       if ModuleResponse.success result then None
       else Some {| code := EXECUTION_FAILED; message := "Prompt execution failed";
                    details := response_metadata_value (ModuleResponse.metadata result) |} |}.

Definition executePrompt_catch (promptId : string) (version : option string)
  (startTime : Z) (executionId : string) (error : Thrown) : Op PromptExecutionResult.t :=
let! endTime := op_now in
let executionTime := (endTime - startTime)%Z in
op_ret
  {| PromptExecutionResult.success := false;
     PromptExecutionResult.output := VNull;
     PromptExecutionResult.metadata :=
       {| PromptExecutionResult.promptId := promptId;
          PromptExecutionResult.version := version_or_latest version;
          PromptExecutionResult.executionId := executionId;
          PromptExecutionResult.timestamp := startTime;
          PromptExecutionResult.executionTime := executionTime;
          PromptExecutionResult.tokenUsage := None;
          PromptExecutionResult.modelProvider := None |};
     PromptExecutionResult.signature := None;
     PromptExecutionResult.error := Some (caught_error_info error) |}.

Definition executePrompt (promptId : string) (inputs : gmap string Value)
  (context : ExecutionContext.t PromptExecutionResult.t) (version : option string)
  : Op PromptExecutionResult.t :=
let! startTime := op_now in
let! executionId := op_uuid in
op_try (executePrompt_try promptId inputs context version startTime executionId)
       (executePrompt_catch promptId version startTime executionId).

(** [buildSearchIndex] logs and drops whatever listing the prompts throws,
  and [initialize] wraps what [buildSearchIndex] throws. *)
Definition buildSearchIndex : Op unit :=
op_try
  (let! allPrompts := await listPrompts in
   modify (λ r, {| moduleCache := moduleCache r; searchIndex := tag_index allPrompts |}))
  (λ error, op_ret tt).

Definition initialize : Op unit :=
op_try buildSearchIndex
  (λ error, op_throw (PromptHubMCPError EXECUTION_FAILED "Failed to initialize prompt router"
                        (error_value error))).

(** [executeDag] runs its nodes through [executePrompt] of the same router:
  the world of the loop is the fields of the router beside the outside
  world. *)
Definition router_runtime : Runtime :=
{| World := t * World;
   Date_now := λ s, let '(time, w') := Date_now s.2 in (time, (s.1, w'));
   uuidv4 := λ s, let '(u, w') := uuidv4 s.2 in (u, (s.1, w')) |}.

Definition run_prompt (promptId : string) (inputs : gmap string Value)
  (context : ExecutionContext.t PromptExecutionResult.t) (version : option string)
  (s : t * World) : Completion PromptExecutionResult.t * (t * World) :=
let '(c, r', w') := executePrompt promptId inputs context version s.1 s.2 in (c, (r', w')).

Definition executeDag (dag : DAGDefinition.t) (rootInputs : gmap string Value)
  (context : option PartialContext.t) (r : t) (w : World)
  : DAGExecutionResult.t * t * World :=
let '(result, s) :=
  PromptRouter.executeDag (rt := router_runtime) run_prompt dag rootInputs context (r, w) in
(result, s.1, s.2).

End methods.

End Router.


(** * A deterministic in-memory runtime, and sample data *)

Module Sample.

(** The world is a counter: the clock reads [1000 + w] milliseconds and every
  read advances the world by one. *)
Definition runtime : Runtime :=
{| World := nat;
   Date_now := λ w, ((1000 + Z.of_nat w)%Z, S w);
   uuidv4 := λ w, ("uuid-" ++ pretty w, S w) |}.

Definition externals : Externals :=
{| Object_entries := λ A obj, map_to_list obj;
   Object_entries_permutation := λ A obj, Permutation_refl (map_to_list obj);
   RegExp_valid := λ _, true;
   RegExp_error := λ pattern flags,
     "Invalid regular expression: /" ++ pattern ++ "/" ++ flags;
   RegExp_test := λ _ _, true;
   RegExp_replace_all := λ _ subject _, subject;
   Number_exponential := λ n, pretty n;
   JSON_text := λ _, "{}";
   SHA256 := λ text, "sha256:" ++ text |}.

Definition result_metadata (promptId : string) (context : ExecutionContext.t PromptExecutionResult.t)
  : PromptExecutionResult.Metadata :=
{| PromptExecutionResult.promptId := promptId;
   PromptExecutionResult.version := "latest";
   PromptExecutionResult.executionId := ExecutionContext.requestId context;
   PromptExecutionResult.timestamp := ExecutionContext.timestamp context;
   PromptExecutionResult.executionTime := 0;
   PromptExecutionResult.tokenUsage := None;
   PromptExecutionResult.modelProvider := ExecutionContext.modelProvider context |}.

(** An executor that fails exactly the prompts listed in [failing], and
  echoes the inputs it was given as its output otherwise. *)
Definition executor (failing : list string) (promptId : string) (inputs : gmap string Value)
  (context : ExecutionContext.t PromptExecutionResult.t) (version : option string) (w : nat)
  : Completion PromptExecutionResult.t * nat :=
if decide (promptId ∈ failing) then
  (Return {| PromptExecutionResult.success := false;
             PromptExecutionResult.output := VNull;
             PromptExecutionResult.metadata := result_metadata promptId context;
             PromptExecutionResult.signature := None;
             PromptExecutionResult.error :=
               Some {| code := EXECUTION_FAILED; message := "Prompt execution failed";
                       details := VUndefined |} |}, w)
else
  (Return {| PromptExecutionResult.success := true;
             PromptExecutionResult.output := VObj inputs;
             PromptExecutionResult.metadata := result_metadata promptId context;
             PromptExecutionResult.signature := Some "signature";
             PromptExecutionResult.error := None |}, w).

Definition node (id : string) (dependencies : list string) : DAGNode.t :=
{| DAGNode.id := id; DAGNode.promptId := id; DAGNode.version := None;
   DAGNode.inputs := ∅; DAGNode.dependencies := dependencies |}.

Definition dag (nodes : list DAGNode.t) : DAGDefinition.t :=
{| DAGDefinition.id := "dag"; DAGDefinition.name := "sample";
   DAGDefinition.description := ""; DAGDefinition.nodes := nodes;
   DAGDefinition.edges := [] |}.

(** An executor that succeeds on every prompt, with the output listed for
  the prompt in [outputs], and [null] for a prompt that has none. *)
Definition producing (outputs : gmap string Value) (promptId : string)
  (inputs : gmap string Value) (context : ExecutionContext.t PromptExecutionResult.t)
  (version : option string) (w : nat) : Completion PromptExecutionResult.t * nat :=
(Return {| PromptExecutionResult.success := true;
           PromptExecutionResult.output := default VNull (outputs !! promptId);
           PromptExecutionResult.metadata := result_metadata promptId context;
           PromptExecutionResult.signature := Some "signature";
           PromptExecutionResult.error := None |}, w).

(** The node [consumer], with the literal input [{x: 1}], depends on the
  node [producer]. *)
Definition consumer : DAGNode.t :=
{| DAGNode.id := "consumer"; DAGNode.promptId := "consumer"; DAGNode.version := None;
   DAGNode.inputs := {["x" := VNum 1]}; DAGNode.dependencies := ["producer"] |}.

Definition precedence : DAGDefinition.t :=
dag [node "producer" []; consumer].

(** [summarize] depends on [extract]. *)
Definition two_step : DAGDefinition.t :=
dag [node "extract" []; node "summarize" ["extract"]].

(** The linear DAG A → B → C: B depends on A, and C on B. *)
Definition linear : DAGDefinition.t :=
dag [node "A" []; node "B" ["A"]; node "C" ["B"]].

(** A depends on B, and B on A. *)
Definition cyclic : DAGDefinition.t :=
dag [node "A" ["B"]; node "B" ["A"]].

(** The prompt of the module's unit tests: a required [text] and an optional
  [format] with a default and an enumeration. *)
Definition parameter (type : ParamType) (required : bool) (default : Value)
  (enum : option (list string)) : InputParameter.t :=
{| InputParameter.type := type; InputParameter.required := required;
   InputParameter.default := default; InputParameter.description := None;
   InputParameter.minLength := None; InputParameter.maxLength := None;
   InputParameter.pattern := None; InputParameter.enum := enum;
   InputParameter.minimum := None; InputParameter.maximum := None;
   InputParameter.minItems := None; InputParameter.maxItems := None |}.

Definition test_definition : PromptDefinition.t :=
{| PromptDefinition.id := "test-prompt";
   PromptDefinition.name := "Test Prompt";
   PromptDefinition.description := "A test prompt for unit testing";
   PromptDefinition.version := "1.0.0";
   PromptDefinition.author := "test-author";
   PromptDefinition.license := "MIT";
   PromptDefinition.inputs :=
     <["text" := parameter PString true VUndefined None]>
     {["format" := parameter PString false (VStr "plain")
                     (Some ["plain"; "json"; "markdown"])]};
   PromptDefinition.template := "Process this text in {{format}} format: {{text}}";
   PromptDefinition.dependencies := None;
   PromptDefinition.tags := Some ["test"; "utility"];
   PromptDefinition.models := None |}.

Definition policy (type : AccessType) (whitelist : option (list string))
  (expirationDate : option Z) : AccessPolicy.t :=
{| AccessPolicy.type := type; AccessPolicy.tokenAddress := None;
   AccessPolicy.minimumBalance := None; AccessPolicy.whitelist := whitelist;
   AccessPolicy.maxUsagePerDay := None; AccessPolicy.expirationDate := expirationDate |}.

Definition test_metadata (accessPolicy : AccessPolicy.t) : PromptMetadata.t :=
{| PromptMetadata.id := "test-prompt";
   PromptMetadata.name := "Test Prompt";
   PromptMetadata.description := "A test prompt for unit testing";
   PromptMetadata.version := "1.0.0";
   PromptMetadata.author := "test-author";
   PromptMetadata.license := "MIT";
   PromptMetadata.tags := ["test"; "utility"];
   PromptMetadata.createdAt := 0;
   PromptMetadata.updatedAt := 0;
   PromptMetadata.executionCount := 0;
   PromptMetadata.averageRating := None;
   PromptMetadata.accessPolicy := accessPolicy;
   PromptMetadata.royaltyConfig :=
     {| creatorShare := 6000; daoShare := 1500; validatorShare := 1500; burnShare := 1000 |} |}.

Definition test_module (accessPolicy : AccessPolicy.t) : PromptModule.t :=
PromptModule.new test_definition (test_metadata accessPolicy).

(** A public prompt that declares the parameters [inputs]. *)
Definition declaring (inputs : gmap string InputParameter.t) : PromptModule.t :=
PromptModule.new
  {| PromptDefinition.id := PromptDefinition.id test_definition;
     PromptDefinition.name := PromptDefinition.name test_definition;
     PromptDefinition.description := PromptDefinition.description test_definition;
     PromptDefinition.version := PromptDefinition.version test_definition;
     PromptDefinition.author := PromptDefinition.author test_definition;
     PromptDefinition.license := PromptDefinition.license test_definition;
     PromptDefinition.inputs := inputs;
     PromptDefinition.template := PromptDefinition.template test_definition;
     PromptDefinition.dependencies := None;
     PromptDefinition.tags := None;
     PromptDefinition.models := None |}
  (test_metadata (policy public None None)).

(** The context object [{caller, timestamp, requestId}]. *)
Definition context (caller : string) (timestamp : Z) (requestId : string) : Value :=
VObj (<["caller" := VStr caller]>
     (<["timestamp" := VNum timestamp]>
     {["requestId" := VStr requestId]})).

(** A schema that asks for an object with a string [id], and reads it as
  the prompt of the unit tests. *)
Definition libraries : Libraries :=
{| PromptDefinitionSchema_safeParse := λ definition,
     match definition with
     | VObj o =>
       match o !! "id" with
       | Some (VStr _) => ParseSuccess test_definition
       | _ => ParseFailure [{| issue_path := "id"; issue_expected := "string" |}]
       end
     | _ => ParseFailure [{| issue_path := ""; issue_expected := "object" |}]
     end;
   Buffer_base64 := λ text, "base64:" ++ text |}.

(** A vault that has every prompt but [missing]; the prompt
  [private-prompt] is private to [test-author], the others are public. *)
Definition vault : @VaultClient runtime :=
@Build_VaultClient runtime
  (λ promptId version (w : nat),
     if decide (promptId = "missing") then (Return None, S w)
     else
       (Return (Some {| PromptData.definition := VObj {["id" := VStr promptId]};
                        PromptData.metadata :=
                          test_metadata
                            (policy (if decide (promptId = "private-prompt")
                                     then private else public) None None) |}), S w))
  (λ w : nat, (Return [test_metadata (policy public None None)], S w))
  (λ _ _ _ _ _ _ (w : nat), (Return "mock_tx", S w)).

(** The typed context [{caller, timestamp, requestId}]. *)
Definition typed_context (caller : string) (timestamp : Z) (requestId : string)
  : ExecutionContext.t PromptExecutionResult.t :=
{| ExecutionContext.caller := caller;
   ExecutionContext.modelProvider := None;
   ExecutionContext.timestamp := timestamp;
   ExecutionContext.previousOutputs := None;
   ExecutionContext.requestId := requestId;
   ExecutionContext.chainId := None;
   ExecutionContext.blockHeight := None |}.

(** An empty partial metadata, and one that only names another author. *)
Definition no_change : PartialMetadata.t :=
{| PartialMetadata.id := None; PartialMetadata.name := None;
   PartialMetadata.description := None; PartialMetadata.version := None;
   PartialMetadata.author := None; PartialMetadata.license := None;
   PartialMetadata.tags := None; PartialMetadata.createdAt := None;
   PartialMetadata.updatedAt := None; PartialMetadata.executionCount := None;
   PartialMetadata.averageRating := None; PartialMetadata.accessPolicy := None;
   PartialMetadata.royaltyConfig := None |}.

Definition new_author (author : string) : PartialMetadata.t :=
{| PartialMetadata.id := None; PartialMetadata.name := None;
   PartialMetadata.description := None; PartialMetadata.version := None;
   PartialMetadata.author := Some author; PartialMetadata.license := None;
   PartialMetadata.tags := None; PartialMetadata.createdAt := None;
   PartialMetadata.updatedAt := None; PartialMetadata.executionCount := None;
   PartialMetadata.averageRating := None; PartialMetadata.accessPolicy := None;
   PartialMetadata.royaltyConfig := None |}.

End Sample.

(** * Vocabulary of the statements *)

Definition node_ids (l : list DAGNode.t) : list string := DAGNode.id <$> l.

(** [y] is named in the [dependencies] of a node of the DAG whose id is [x]. *)
Definition depends_on (dag : DAGDefinition.t) (x y : string) : Prop :=
  ∃ n, n ∈ DAGDefinition.nodes dag ∧ DAGNode.id n = x ∧ y ∈ DAGNode.dependencies n.

(** A dependency cycle: a node that reaches itself through one or more
    dependencies. *)
Definition has_cycle (dag : DAGDefinition.t) : Prop :=
  ∃ x, tc (depends_on dag) x x.

Definition has_duplicate_ids (dag : DAGDefinition.t) : Prop :=
  ¬ NoDup (node_ids (DAGDefinition.nodes dag)).

(** Some node names a dependency that is the id of no node. *)
Definition has_missing_dependency (dag : DAGDefinition.t) : Prop :=
  ∃ n d, n ∈ DAGDefinition.nodes dag ∧ d ∈ DAGNode.dependencies n ∧
         d ∉ node_ids (DAGDefinition.nodes dag).

(** In the list [l], every node is followed, strictly later, by each of its
    dependencies. *)
Fixpoint dependencies_follow (l : list DAGNode.t) : Prop :=
  match l with
  | [] => True
  | n :: tl => (∀ d, d ∈ DAGNode.dependencies n → d ∈ node_ids tl) ∧ dependencies_follow tl
  end.

(** [x] occurs in [l] strictly before an occurrence of [y]. *)
Definition occurs_before (x y : string) (l : list string) : Prop :=
  ∃ l1 l2 : list string, l = (l1 ++ x :: l2)%list ∧ y ∈ l2.

(** The node inputs as the specification words them: a dependency
    contributes its output when its recorded result succeeded and the output
    is a non-null object; the layers are merged in order and a later layer
    wins. *)
Definition is_null (v : Value) : bool :=
  match v with VNull => true | _ => false end.

Definition contributes (previousResults : gmap string PromptExecutionResult.t) (dep : string)
    : option (gmap string Value) :=
  match previousResults !! dep with
  | Some r =>
    let out := PromptExecutionResult.output r in
    if PromptExecutionResult.success r && bool_decide (typeof out = TObject) && negb (is_null out)
    then Some (own_props out) else None
  | None => None
  end.

Definition merge_later_wins (layers : list (gmap string Value)) : gmap string Value :=
  foldl (λ merged layer, layer ∪ merged) ∅ layers.

(** The access check grants, or denies with [ACCESS_DENIED]. *)
Definition access_granted `{rt : Runtime} (caller : string) (m : PromptModule.t) (w : World) : Prop :=
  (PromptModule.checkAccess caller m w).1.1 = Return tt.

Definition access_denied `{rt : Runtime} (caller : string) (m : PromptModule.t) (w : World) : Prop :=
  ∃ message,
    (PromptModule.checkAccess caller m w).1.1 =
    Throw (PromptHubMCPError ACCESS_DENIED message VUndefined).

(** The policy has an expiration date (set and not [0]) and the clock, read
    in the world [w], is strictly past it. *)
Definition expired_at `{rt : Runtime} (policy : AccessPolicy.t) (w : World) : Prop :=
  ∃ expirationDate,
    PromptModule.truthy (AccessPolicy.expirationDate policy) = Some expirationDate ∧
    (expirationDate < (Date_now w).1)%Z.

(** The schema of the execution context accepts the value. *)
Definition schema_accepts (context : Value) : Prop :=
  ∃ ctx, ExecutionContextSchema_safeParse context = ParseSuccess ctx.

(** The [error] object [execute] reports for what its [try] block threw. *)
Definition error_info (e : Thrown) : ErrorInfo :=
  match e with
  | PromptHubMCPError code message details =>
    {| code := code; message := message; details := details |}
  | JsError _ message =>
    {| code := EXECUTION_FAILED; message := message; details := error_value e |}
  end.

(** The response of a failed call for what the [try] block threw:
    [success = false], a [null] output, no signature, and in the metadata
    the error [{code, message, details}] built from what was thrown. *)
Definition failed_with (response : ModuleResponse.t) (e : Thrown) : Prop :=
  ModuleResponse.success response = false ∧
  ModuleResponse.output response = VNull ∧
  ModuleResponse.signature response = None ∧
  ModuleResponse.Metadata.error (ModuleResponse.metadata response) = Some (error_info e).

(** The errors the check of one declared parameter adds: the body of the
    first loop of [validateInput], run with no error collected yet. *)
Definition parameter_errors `{ext : Externals} (input : gmap string Value)
    (key : string) (param : InputParameter.t) : Completion (list string) :=
  PromptModule.check_parameter input (key, param) [].

(** What [validateParameterValue] asks of a value: the runtime type the
    parameter declares and, for a string, a length within the bounds, a
    match of the pattern and membership in the enumeration; for a number,
    the two bounds; for an array, a number of items within the bounds. A
    length or item bound of [0] and an empty pattern ask nothing. *)
Definition conforms `{ext : Externals} (value : Value) (param : InputParameter.t) : Prop :=
  match InputParameter.type param, value with
  | PString, VStr s =>
    let len := Z.of_nat (utf16_length s) in
    (∀ n, InputParameter.minLength param = Some n → n ≠ 0 → n ≤ len)%Z ∧
    (∀ n, InputParameter.maxLength param = Some n → n ≠ 0 → len ≤ n)%Z ∧
    (∀ p, InputParameter.pattern param = Some p → p ≠ "" →
          RegExp_valid p = true ∧ RegExp_test p s = true) ∧
    (∀ allowed, InputParameter.enum param = Some allowed → s ∈ allowed)
  | PNumber, VNum v =>
    (∀ n, InputParameter.minimum param = Some n → n ≤ v)%Z ∧
    (∀ n, InputParameter.maximum param = Some n → v ≤ n)%Z
  | PNumber, VNaN => True
  | PBoolean, VBool _ => True
  | PArray, VArr xs =>
    let len := Z.of_nat (length xs) in
    (∀ n, InputParameter.minItems param = Some n → n ≠ 0 → n ≤ len)%Z ∧
    (∀ n, InputParameter.maxItems param = Some n → n ≠ 0 → len ≤ n)%Z
  | PObject, VObj _ => True
  | _, _ => False
  end.

(** The parameter with its length and item bounds replaced. *)
Definition with_bounds (param : InputParameter.t) (minLength maxLength minItems maxItems : option Z)
    : InputParameter.t :=
  {| InputParameter.type := InputParameter.type param;
     InputParameter.required := InputParameter.required param;
     InputParameter.default := InputParameter.default param;
     InputParameter.description := InputParameter.description param;
     InputParameter.minLength := minLength;
     InputParameter.maxLength := maxLength;
     InputParameter.pattern := InputParameter.pattern param;
     InputParameter.enum := InputParameter.enum param;
     InputParameter.minimum := InputParameter.minimum param;
     InputParameter.maximum := InputParameter.maximum param;
     InputParameter.minItems := minItems;
     InputParameter.maxItems := maxItems |}.

(** A bound that is not [0]. *)
Definition nonzero (bound : option Z) : option Z :=
  match bound with
  | Some 0%Z => None
  | _ => bound
  end.

(** The entry of the execution inputs for one key. For a declared
    parameter that is in the input, as an own or as an inherited property,
    it is the value read from the input; else the default of the parameter
    when it has one. There is none for a key that is not declared, and none
    under the name [__proto__]. *)
Definition prepared_input (declared : gmap string InputParameter.t)
    (input : gmap string Value) (key : string) : option Value :=
  match declared !! key with
  | Some param =>
    if decide (key = "__proto__") then None
    else if key_in key input then Some (Object_get input key)
    else
      match InputParameter.default param with
      | VUndefined => None
      | d => Some d
      end
  | None => None
  end.

(** The world in which the [try] block of [execute] starts: after the
    first clock read and the uuid. *)
Definition after_start `{rt : Runtime} (w : World) : World :=
  (uuidv4 (Date_now w).2).2.

(** The number of times [tag] occurs in a list of tags. *)
Definition occurrences (tag : string) (tags : list string) : nat :=
  length (List.filter (λ t, bool_decide (t = tag)) tags).

(** * Vocabulary of the proofs *)

Section proof_vocabulary.
Import PromptRouter.

(** What a returning [visit] leaves behind: [temp] is as before, nothing
    leaves [visited], the visited node is in [visited], and no node that was
    in progress has been completed. *)
Definition visit_post (nodeId : option string) (st st' : SortState) : Prop :=
  temp st' = temp st ∧
  visited st ⊆ visited st' ∧
  (∀ x, nodeId = Some x → x ∈ visited st') ∧
  (∀ x, x ∈ temp st → x ∈ visited st' → x ∈ visited st).

(** One step of the construction of [nodeMap]. *)
Definition insert_node (m : gmap string DAGNode.t) (n : DAGNode.t) : gmap string DAGNode.t :=
  <[DAGNode.id n := n]> m.

(** The prompts a tag index lists under a tag, none when the tag has no
    entry. *)
Definition listed (tagIndex : gmap string (list PromptMetadata.t)) (tag : string)
    : list PromptMetadata.t :=
  default [] (tagIndex !! tag).

(** A [PromptHubMCPError] whose code is [VALIDATION_ERROR]. *)
Definition is_validation_error (e : Thrown) : Prop :=
  ∃ msg, e = PromptHubMCPError VALIDATION_ERROR msg VUndefined.

Variable nm : gmap string DAGNode.t.

(** The invariant of the traversal: [visited] holds the ids of [result],
    no id occurs twice in [result], every node of [result] is the one the
    map stores, and each is followed by its dependencies. *)
Definition sort_inv (st : SortState) : Prop :=
  (∀ x, x ∈ visited st ↔ x ∈ node_ids (result st)) ∧
  NoDup (node_ids (result st)) ∧
  (∀ n, n ∈ result st → nm !! DAGNode.id n = Some n) ∧
  dependencies_follow (result st).

(** The dependency relation as the map sees it. *)
Definition nm_edge (x y : string) : Prop :=
  ∃ n, nm !! x = Some n ∧ y ∈ DAGNode.dependencies n.

(** Why a traversal throws: it came back to a node in progress, which closes
    a cycle or leads to a node that was already in progress when the
    traversal started, or it reached an id the map does not know. *)
Definition throw_cause (tmp : gset string) (start : string) : Prop :=
  (∃ c, tc nm_edge c c) ∨
  (∃ x, x ∈ tmp ∧ rtc nm_edge start x) ∨
  (∃ y, rtc nm_edge start y ∧ nm !! y = None).

Variable rootInputs : gmap string Value.

(** How one call relates to the node it runs and to the results recorded
    before it. *)
Definition call_of (node : DAGNode.t) (prev : gmap string PromptExecutionResult.t)
    (call : Invocation) : Prop :=
  inv_node call = DAGNode.id node ∧
  inv_inputs call = prepareNodeInputs node rootInputs prev ∧
  ExecutionContext.previousOutputs (inv_context call) = Some prev.

(** The result returned from inside the loop: a failure that carries the
    results and the order recorded so far. *)
Definition failure_report (st' : RunState) (nodeId : string) (err : DagErrorValue)
    (r : DAGExecutionResult.t) : Prop :=
  DAGExecutionResult.success r = false ∧
  DAGExecutionResult.results r = results st' ∧
  DAGExecutionResult.executionOrder r = executionOrder st' ∧
  DAGExecutionResult.error r = Some (nodeId, err).

(** The three ways one turn of the loop ends. *)
Inductive node_outcome (node : DAGNode.t) (st st' : RunState)
    : option DAGExecutionResult.t → Prop :=
  | node_succeeded nodeResult :
      PromptExecutionResult.success nodeResult = true →
      results st' = <[DAGNode.id node := nodeResult]> (results st) →
      executionOrder st' = (executionOrder st ++ [DAGNode.id node])%list →
      node_outcome node st st' None
  | node_failed nodeResult r :
      PromptExecutionResult.success nodeResult = false →
      results st' = <[DAGNode.id node := nodeResult]> (results st) →
      executionOrder st' = (executionOrder st ++ [DAGNode.id node])%list →
      failure_report st' (DAGNode.id node)
        (NodeError (PromptExecutionResult.error nodeResult)) r →
      node_outcome node st st' (Some r)
  | node_threw e r :
      results st' = results st →
      executionOrder st' = executionOrder st →
      failure_report st' (DAGNode.id node) (CaughtError e) r →
      node_outcome node st st' (Some r).

(** The calls made while running the nodes [ran] in turn, starting with
    results recorded for the ids in [dom0]: every call sees results for
    ids of [dom0] and of the nodes run before it, nothing else. *)
Inductive calls_of (dom0 : gset string) : list DAGNode.t → list Invocation → Prop :=
  | calls_nil : calls_of dom0 [] []
  | calls_cons node prev call ran calls :
      call_of node prev call →
      dom prev ⊆ dom0 →
      calls_of (dom0 ∪ {[DAGNode.id node]}) ran calls →
      calls_of dom0 (node :: ran) (call :: calls).

(** The loop runs the sorted nodes in order, one call each, and stops at
    the first node that fails or throws. *)
Inductive loop_outcome (sorted : list DAGNode.t) (st st' : RunState)
    : option DAGExecutionResult.t → Prop :=
  | loop_completed calls :
      executionOrder st' = (executionOrder st ++ node_ids sorted)%list →
      dom (results st') = dom (results st) ∪ list_to_set (node_ids sorted) →
      invoked st' = (invoked st ++ calls)%list →
      calls_of (dom (results st)) sorted calls →
      loop_outcome sorted st st' None
  | loop_stopped pre node post mid calls early :
      sorted = (pre ++ node :: post)%list →
      executionOrder mid = (executionOrder st ++ node_ids pre)%list →
      dom (results mid) = dom (results st) ∪ list_to_set (node_ids pre) →
      invoked st' = (invoked st ++ calls)%list →
      calls_of (dom (results st)) (pre ++ [node]) calls →
      node_outcome node mid st' (Some early) →
      loop_outcome sorted st st' (Some early).

End proof_vocabulary.

(** * Facts about the [Completion] monad *)

Lemma bind_Return_inv {A B} (c : Completion A) (k : A → Completion B) b :
  bind c k = Return b → ∃ a, c = Return a ∧ k a = Return b.
Proof. destruct c; simpl; [eauto | discriminate]. Qed.

(** * Facts about [topologicalSort] *)

Section topologicalSort_facts.
Import PromptRouter.
Variable nm : gmap string DAGNode.t.

(** The unfolding of [visit] at a positive depth, with the loop over the
    dependencies named. *)
Lemma visit_S fuel nodeId st :
  visit nm (S fuel) nodeId st =
  if decide (nodeId ∈ temp st) then Some (Throw cycle_error)
  else if decide (nodeId ∈ visited st) then Some (Return st)
  else
    match nm !! nodeId with
    | None => Some (Throw undefined_node_error)
    | Some node =>
      match visit_deps nm fuel (DAGNode.dependencies node)
              {| visited := visited st; temp := {[nodeId]} ∪ temp st; result := result st |} with
      | None => None
      | Some (Throw e) => Some (Throw e)
      | Some (Return st2) =>
        Some (Return {| visited := {[nodeId]} ∪ visited st2;
                        temp := temp st2 ∖ {[nodeId]};
                        result := node :: result st2 |})
      end
    end.
Proof.
  simpl. repeat case_decide; try done.
  destruct (nm !! nodeId) as [node|]; [|done].
  generalize {| visited := visited st; temp := {[nodeId]} ∪ temp st; result := result st |}.
  intros s.
  match goal with
  | |- match ?a with _ => _ end = match ?b with _ => _ end => assert (a = b) as ->; [|done]
  end.
  revert s. induction (DAGNode.dependencies node) as [|dep deps IH]; intros s; simpl; [done|].
  destruct (visit nm fuel dep s) as [[s'|e]|]; auto.
Qed.

Lemma visit_post_refl nodeId st :
  nodeId ∈ visited st → visit_post (Some nodeId) st st.
Proof.
  intros Hin. split; [done|]. split; [done|]. split; [|done].
  by intros x [= <-].
Qed.

Lemma visit_deps_post_of fuel :
  (∀ nodeId st st', visit nm fuel nodeId st = Some (Return st') →
     visit_post (Some nodeId) st st') →
  ∀ deps st st', visit_deps nm fuel deps st = Some (Return st') →
    visit_post None st st' ∧ ∀ d, d ∈ deps → d ∈ visited st'.
Proof.
  intros Hv deps. induction deps as [|dep deps IH]; intros st st' Hd; simpl in Hd.
  - simplify_eq. split; [|by intros d ?%elem_of_nil].
    split; [done|]. split; [done|]. split; done.
  - destruct (visit nm fuel dep st) as [[s1|e]|] eqn:E; try done.
    destruct (Hv _ _ _ E) as (Ht & Hsub & Hin & Hfresh).
    destruct (IH _ _ Hd) as ((Ht' & Hsub' & _ & Hfresh') & Hall).
    split.
    + split; [congruence|]. split; [by etrans|]. split; [done|].
      intros x Hx Hx'. apply Hfresh; [done|]. apply Hfresh'; [|done]. by rewrite Ht.
    + intros d [->|Hd']%elem_of_cons; [|by apply Hall].
      apply Hsub', Hin. done.
Qed.

Lemma visit_post_holds fuel nodeId st st' :
  visit nm fuel nodeId st = Some (Return st') → visit_post (Some nodeId) st st'.
Proof.
  revert nodeId st st'. induction fuel as [|fuel IH]; intros nodeId st st'.
  - simpl. repeat case_decide; try done.
    + intros; simplify_eq. by apply visit_post_refl.
    + destruct (nm !! nodeId); done.
  - rewrite visit_S. repeat case_decide; try done.
    + intros; simplify_eq. by apply visit_post_refl.
    + destruct (nm !! nodeId) as [node|]; [|done].
      destruct (visit_deps _ _ _ _) as [[st2|e]|] eqn:E; try done.
      intros; simplify_eq.
      destruct (visit_deps_post_of fuel IH _ _ _ E) as ((Ht & Hsub & _ & Hfresh) & _).
      simpl in *. split; [|split; [|split]]; simpl.
      * rewrite Ht. set_solver.
      * set_solver.
      * intros ? [= ->]. set_solver.
      * intros x Hx [->%elem_of_singleton | Hx']%elem_of_union; [done|].
        apply Hfresh; [set_solver | done].
Qed.

Lemma visit_deps_post fuel deps st st' :
  visit_deps nm fuel deps st = Some (Return st') →
  visit_post None st st' ∧ ∀ d, d ∈ deps → d ∈ visited st'.
Proof. apply visit_deps_post_of. intros ???. apply visit_post_holds. Qed.

(** [length (nodes dag)] bounds the depth of the recursion: the nodes in
    progress are distinct keys of the map. *)
Lemma visit_fuel_enough (fuel : nat) nodeId st :
  (size (dom nm ∖ temp st) ≤ fuel)%nat → is_Some (visit nm fuel nodeId st).
Proof.
  revert nodeId st. induction fuel as [|fuel IH]; intros nodeId st Hsz.
  - simpl. repeat case_decide; try done.
    destruct (nm !! nodeId) as [node|] eqn:E; [|done].
    assert (nodeId ∈ dom nm ∖ temp st) as Hin.
    { apply elem_of_difference. split; [by apply elem_of_dom|done]. }
    assert (dom nm ∖ temp st ≡ ∅) as Hempty.
    { apply size_empty_inv. lia. }
    set_solver.
  - rewrite visit_S. repeat case_decide; try done.
    destruct (nm !! nodeId) as [node|] eqn:E; [|done].
    set (st1 := {| visited := visited st; temp := {[nodeId]} ∪ temp st; result := result st |}).
    assert (size (dom nm ∖ temp st1) ≤ fuel)%nat as Hsz1.
    { assert (nodeId ∈ dom nm ∖ temp st) as Hin.
      { apply elem_of_difference. split; [by apply elem_of_dom|done]. }
      assert (dom nm ∖ temp st = {[nodeId]} ∪ (dom nm ∖ temp st1)) as Heq.
      { simpl. apply set_eq. intros x. destruct (decide (x = nodeId)); set_solver. }
      rewrite Heq in Hsz. rewrite size_union in Hsz; [|simpl; set_solver].
      rewrite size_singleton in Hsz. lia. }
    assert (is_Some (visit_deps nm fuel (DAGNode.dependencies node) st1)) as [r Hr].
    { clearbody st1. clear E. revert st1 Hsz1.
      induction (DAGNode.dependencies node) as [|dep deps IHd]; intros s Hs; simpl; [done|].
      destruct (IH dep s Hs) as [[s'|e] Hv]; rewrite Hv; [|done].
      apply IHd. destruct (visit_post_holds _ _ _ _ Hv) as (-> & _). done. }
    rewrite Hr. destruct r; done.
Qed.

(** Every key of the map is the id of the node stored under it, as in
    [nodeMap dag]. *)
Hypothesis nm_keys : ∀ k n, nm !! k = Some n → DAGNode.id n = k.

Lemma visit_deps_inv_of fuel :
  (∀ nodeId st st', visit nm fuel nodeId st = Some (Return st') → sort_inv nm st → sort_inv nm st') →
  ∀ deps st st', visit_deps nm fuel deps st = Some (Return st') → sort_inv nm st → sort_inv nm st'.
Proof.
  intros Hv deps. induction deps as [|dep deps IH]; intros st st' Hd Hinv; simpl in Hd.
  - by simplify_eq.
  - destruct (visit nm fuel dep st) as [[s1|e]|] eqn:E; try done.
    eapply IH; [done|]. by eapply Hv.
Qed.

Lemma visit_inv fuel nodeId st st' :
  visit nm fuel nodeId st = Some (Return st') → sort_inv nm st → sort_inv nm st'.
Proof.
  revert nodeId st st'. induction fuel as [|fuel IH]; intros nodeId st st'.
  - simpl. repeat case_decide; try done.
    + by intros; simplify_eq.
    + destruct (nm !! nodeId); done.
  - rewrite visit_S. repeat case_decide; try done.
    + by intros; simplify_eq.
    + destruct (nm !! nodeId) as [node|] eqn:Enode; [|done].
      destruct (visit_deps _ _ _ _) as [[st2|e]|] eqn:E; try done.
      intros [= <-] Hinv.
      pose proof (nm_keys _ _ Enode) as Hid.
      destruct (visit_deps_post _ _ _ _ E) as ((Ht & Hsub & _ & Hfresh) & Hdeps).
      assert (sort_inv nm st2) as (Hvis & Hnd & Hnm & Hfol).
      { eapply visit_deps_inv_of; [exact IH | exact E |]. exact Hinv. }
      assert (nodeId ∉ visited st2) as Hnew.
      { intros Hin. apply Hfresh in Hin; [done | simpl; set_solver]. }
      split; [|split; [|split]]; simpl.
      * intros x. rewrite elem_of_union, elem_of_singleton, elem_of_cons, Hid, Hvis. done.
      * rewrite Hid. apply NoDup_cons. split; [|done]. by rewrite <-Hvis.
      * intros n [->|Hn]%elem_of_cons; [by rewrite Hid | by apply Hnm].
      * split; [|done]. intros d Hd. apply Hvis, Hdeps, Hd.
Qed.

Lemma visit_all_spec fuel ns st st' :
  visit_all nm fuel ns st = Some (Return st') → sort_inv nm st →
  sort_inv nm st' ∧ temp st' = temp st ∧ visited st ⊆ visited st' ∧
  ∀ n, n ∈ ns → DAGNode.id n ∈ visited st'.
Proof.
  revert st. induction ns as [|node ns IH]; intros st Hrun Hinv; simpl in Hrun.
  - simplify_eq. split; [done|]. split; [done|]. split; [done|]. by intros n ?%elem_of_nil.
  - case_decide as Hseen.
    + destruct (IH _ Hrun Hinv) as (Hinv' & Ht & Hsub & Hall).
      split; [done|]. split; [done|]. split; [done|].
      intros n [->|Hn]%elem_of_cons; [by apply Hsub | by apply Hall].
    + destruct (visit nm fuel (DAGNode.id node) st) as [[s1|e]|] eqn:E; try done.
      destruct (visit_post_holds _ _ _ _ E) as (Ht1 & Hsub1 & Hin1 & _).
      destruct (IH _ Hrun (visit_inv _ _ _ _ E Hinv)) as (Hinv' & Ht & Hsub & Hall).
      split; [done|]. split; [congruence|]. split; [by etrans|].
      intros n [->|Hn]%elem_of_cons; [|by apply Hall].
      apply Hsub, Hin1. done.
Qed.

Lemma visit_all_fuel_enough (fuel : nat) ns st :
  (size (dom nm ∖ temp st) ≤ fuel)%nat → is_Some (visit_all nm fuel ns st).
Proof.
  revert st. induction ns as [|node ns IH]; intros st Hsz; simpl; [done|].
  case_decide; [by apply IH|].
  destruct (visit_fuel_enough fuel (DAGNode.id node) st Hsz) as [[s1|e] E]; rewrite E; [|done].
  apply IH. destruct (visit_post_holds _ _ _ _ E) as (-> & _). done.
Qed.

Lemma followed_closed l x y :
  dependencies_follow l → (∀ n, n ∈ l → nm !! DAGNode.id n = Some n) →
  x ∈ node_ids l → nm_edge nm x y → y ∈ node_ids l.
Proof.
  induction l as [|n tl IH]; intros Hfol Hnm Hx Hedge; simpl in *.
  - by apply elem_of_nil in Hx.
  - destruct Hfol as [Hdeps Hfol]. apply elem_of_cons in Hx as [->|Hx].
    + destruct Hedge as (n' & Hn' & Hy).
      rewrite (Hnm n) in Hn'; [|by left]. simplify_eq.
      right. by apply Hdeps.
    + right. apply IH; [done | | done | done].
      intros n' Hn'. apply Hnm. by right.
Qed.

Lemma followed_closed_tc l x y :
  dependencies_follow l → (∀ n, n ∈ l → nm !! DAGNode.id n = Some n) →
  x ∈ node_ids l → tc (nm_edge nm) x y → y ∈ node_ids l.
Proof.
  intros Hfol Hnm Hx Htc. induction Htc as [x y Hxy | x y z Hxy _ IH].
  - by eapply followed_closed.
  - apply IH. by eapply followed_closed.
Qed.

Lemma followed_acyclic l x :
  dependencies_follow l → (∀ n, n ∈ l → nm !! DAGNode.id n = Some n) →
  x ∈ node_ids l → ¬ tc (nm_edge nm) x x.
Proof.
  induction l as [|n tl IH]; intros Hfol Hnm Hx Hcyc; simpl in *.
  - by apply elem_of_nil in Hx.
  - destruct Hfol as [Hdeps Hfol].
    assert (∀ n', n' ∈ tl → nm !! DAGNode.id n' = Some n') as Hnm'.
    { intros n' Hn'. apply Hnm. by right. }
    assert (x ∈ node_ids tl) as Hx'; [|by eapply IH].
    apply elem_of_cons in Hx as [->|Hx]; [|done].
    assert (∀ y, nm_edge nm (DAGNode.id n) y → y ∈ node_ids tl) as Hstep.
    { intros y (n' & Hn' & Hy). rewrite (Hnm n) in Hn'; [|by left]. simplify_eq.
      by apply Hdeps. }
    inversion Hcyc as [? ? Hxy | ? y ? Hxy Hyx]; simplify_eq.
    + by apply Hstep.
    + eapply followed_closed_tc; [done | done | | exact Hyx]. by apply Hstep.
Qed.

End topologicalSort_facts.

(** * Facts about [nodeMap], [topologicalSort] and [validateDAG] *)

Section validateDAG_facts.
Import PromptRouter.

Lemma foldl_insert_node_lookup ns m0 k n :
  foldl insert_node m0 ns !! k = Some n →
  (n ∈ ns ∧ DAGNode.id n = k) ∨ m0 !! k = Some n.
Proof.
  revert m0. induction ns as [|a ns IH]; intros m0 Hk; simpl in Hk; [by right|].
  apply IH in Hk as [[Hin Hid]|Hk].
  - left. split; [by right | done].
  - unfold insert_node in Hk. apply lookup_insert_Some in Hk as [[<- <-]|[_ Hk]].
    + left. split; [by left | done].
    + by right.
Qed.

Lemma foldl_insert_node_other ns m0 k :
  k ∉ node_ids ns → foldl insert_node m0 ns !! k = m0 !! k.
Proof.
  revert m0. induction ns as [|a ns IH]; intros m0 Hk; simpl; [done|].
  unfold node_ids in Hk. simpl in Hk. apply not_elem_of_cons in Hk as [Hne Hk].
  rewrite IH by done. unfold insert_node. by rewrite lookup_insert_ne.
Qed.

Lemma foldl_insert_node_dom ns m0 :
  dom (foldl insert_node m0 ns) = list_to_set (node_ids ns) ∪ dom m0.
Proof.
  revert m0. induction ns as [|a ns IH]; intros m0; simpl; [set_solver|].
  rewrite IH. unfold insert_node. rewrite dom_insert_L. set_solver.
Qed.

Lemma nodeMap_keys dag k n :
  nodeMap dag !! k = Some n → DAGNode.id n = k.
Proof.
  intros Hk. apply foldl_insert_node_lookup in Hk as [[_ ?]|Hk]; [done|].
  by rewrite lookup_empty in Hk.
Qed.

Lemma nodeMap_elem_of dag k n :
  nodeMap dag !! k = Some n → n ∈ DAGDefinition.nodes dag.
Proof.
  intros Hk. apply foldl_insert_node_lookup in Hk as [[? _]|Hk]; [done|].
  by rewrite lookup_empty in Hk.
Qed.

Lemma nodeMap_dom dag :
  dom (nodeMap dag) = list_to_set (node_ids (DAGDefinition.nodes dag)).
Proof. unfold nodeMap. rewrite (foldl_insert_node_dom _ ∅). set_solver. Qed.

(** With distinct ids, the map stores every node under its id. *)
Lemma nodeMap_lookup_node dag n :
  NoDup (node_ids (DAGDefinition.nodes dag)) → n ∈ DAGDefinition.nodes dag →
  nodeMap dag !! DAGNode.id n = Some n.
Proof.
  unfold nodeMap. generalize (∅ : gmap string DAGNode.t).
  induction (DAGDefinition.nodes dag) as [|a ns IH]; intros m0 Hnd Hin; simpl.
  - by apply elem_of_nil in Hin.
  - unfold node_ids in Hnd. simpl in Hnd. apply NoDup_cons in Hnd as [Ha Hnd].
    apply elem_of_cons in Hin as [->|Hin].
    + change (foldl insert_node (insert_node m0 a) ns !! DAGNode.id a = Some a).
      rewrite foldl_insert_node_other by done.
      unfold insert_node. by rewrite lookup_insert_eq.
    + by apply IH.
Qed.

(** [nodeIds.size !== dag.nodes.length] is the test for a repeated id. *)
Lemma size_list_to_set_le (l : list string) :
  (size (list_to_set l : gset string) ≤ length l)%nat.
Proof.
  induction l as [|x l IH].
  - rewrite list_to_set_nil, size_empty. done.
  - rewrite list_to_set_cons. simpl. destruct (decide (x ∈ l)) as [Hin|Hnin].
    + assert ({[x]} ∪ list_to_set l = (list_to_set l : gset string)) as -> by set_solver.
      lia.
    + rewrite size_union by set_solver. rewrite size_singleton. lia.
Qed.

Lemma size_list_to_set_NoDup (l : list string) :
  size (list_to_set l : gset string) = length l ↔ NoDup l.
Proof.
  split; [|apply size_list_to_set].
  induction l as [|x l IH]; intros Hsz; [constructor|].
  rewrite list_to_set_cons in Hsz. simpl in Hsz.
  destruct (decide (x ∈ l)) as [Hin|Hnin].
  - assert ({[x]} ∪ list_to_set l = (list_to_set l : gset string)) as Heq by set_solver.
    rewrite Heq in Hsz. pose proof (size_list_to_set_le l). lia.
  - rewrite size_union in Hsz by set_solver. rewrite size_singleton in Hsz.
    apply NoDup_cons. split; [done|]. apply IH. lia.
Qed.

Lemma topologicalSort_fuel_is_Some dag :
  is_Some (topologicalSort_fuel (length (DAGDefinition.nodes dag)) dag).
Proof.
  unfold topologicalSort_fuel.
  destruct (visit_all_fuel_enough (nodeMap dag) (length (DAGDefinition.nodes dag))
              (DAGDefinition.nodes dag) initial_state) as [r Hr].
  - simpl. rewrite difference_empty_L, nodeMap_dom.
    etrans; [apply size_list_to_set_le|]. unfold node_ids. by rewrite length_fmap.
  - rewrite Hr. destruct r; done.
Qed.

(** The bound [length (nodes dag)] on the depth of [visit] is never
    reached: [topologicalSort] returns or throws by itself. *)
Lemma topologicalSort_fuel_enough dag :
  is_Some (topologicalSort_fuel (length (DAGDefinition.nodes dag)) dag).
Proof. apply topologicalSort_fuel_is_Some. Qed.

Lemma sort_inv_initial nm : sort_inv nm initial_state.
Proof.
  split; [|split; [|split]]; simpl.
  - intros x. unfold node_ids. simpl. set_solver.
  - constructor.
  - by intros n ?%elem_of_nil.
  - done.
Qed.

(** What a returned order looks like. *)
Lemma topologicalSort_Return dag sorted :
  topologicalSort dag = Return sorted →
  dependencies_follow sorted ∧
  NoDup (node_ids sorted) ∧
  (∀ n, n ∈ sorted → nodeMap dag !! DAGNode.id n = Some n) ∧
  (∀ n, n ∈ DAGDefinition.nodes dag → DAGNode.id n ∈ node_ids sorted).
Proof.
  unfold topologicalSort, topologicalSort_fuel.
  destruct (visit_all _ _ _ _) as [[st|e]|] eqn:E; try done.
  intros [= <-].
  destruct (visit_all_spec (nodeMap dag) (nodeMap_keys dag) _ _ _ _ E (sort_inv_initial _))
    as ((Hvis & Hnd & Hnm & Hfol) & _ & _ & Hall).
  split; [done|]. split; [done|]. split; [done|].
  intros n Hn. apply Hvis, Hall, Hn.
Qed.

Lemma depends_on_nm_edge dag x y :
  NoDup (node_ids (DAGDefinition.nodes dag)) →
  depends_on dag x y → nm_edge (nodeMap dag) x y.
Proof.
  intros Hnd (n & Hn & <- & Hy). exists n. split; [|done].
  by apply nodeMap_lookup_node.
Qed.

Lemma depends_on_nm_edge_tc dag x y :
  NoDup (node_ids (DAGDefinition.nodes dag)) →
  tc (depends_on dag) x y → tc (nm_edge (nodeMap dag)) x y.
Proof.
  intros Hnd Htc. induction Htc as [a b Hab | a b c Hab _ IH].
  - apply tc_once. by apply depends_on_nm_edge.
  - eapply tc_l; [|exact IH]. by apply depends_on_nm_edge.
Qed.

(** The traversal finds every cycle. *)
Lemma topologicalSort_detects_cycle dag :
  NoDup (node_ids (DAGDefinition.nodes dag)) → has_cycle dag →
  ∃ e, topologicalSort dag = Throw e.
Proof.
  intros Hnd [x Hcyc].
  destruct (topologicalSort dag) as [sorted|e] eqn:E; [|by eexists].
  exfalso.
  destruct (topologicalSort_Return _ _ E) as (Hfol & _ & Hnm & Hall).
  apply (followed_acyclic (nodeMap dag) sorted x Hfol Hnm).
  - assert (∃ y, depends_on dag x y) as [y (n & Hn & <- & _)].
    { inversion Hcyc; simplify_eq; eauto. }
    by apply Hall.
  - by apply depends_on_nm_edge_tc.
Qed.

Lemma check_dependencies_outcome nodeIds node :
  (check_dependencies nodeIds node tt = Return tt ∧
     ∀ d, d ∈ DAGNode.dependencies node → d ∈ nodeIds) ∨
  (∃ d, check_dependencies nodeIds node tt = Throw (missing_dependency_error node d) ∧
        d ∈ DAGNode.dependencies node ∧ d ∉ nodeIds).
Proof.
  unfold check_dependencies.
  induction (DAGNode.dependencies node) as [|d ds IH]; simpl.
  - left. split; [done|]. by intros d ?%elem_of_nil.
  - case_decide as Hd; simpl.
    + destruct IH as [[-> Hall]|(d' & -> & Hin & Hnin)].
      * left. split; [done|]. intros d' [->|?]%elem_of_cons; auto.
      * right. exists d'. split; [done|]. split; [by right | done].
    + right. exists d. split; [done|]. split; [by left | done].
Qed.

Lemma check_all_dependencies_outcome nodeIds ns :
  (for_of ns (check_dependencies nodeIds) tt = Return tt ∧
     ∀ n d, n ∈ ns → d ∈ DAGNode.dependencies n → d ∈ nodeIds) ∨
  (∃ e, for_of ns (check_dependencies nodeIds) tt = Throw e ∧ is_validation_error e).
Proof.
  induction ns as [|n ns IH]; simpl.
  - left. split; [done|]. by intros n d ?%elem_of_nil.
  - destruct (check_dependencies_outcome nodeIds n) as [[-> Hn]|(d & -> & _)]; simpl.
    + destruct IH as [[-> Hall]|(e & -> & He)].
      * left. split; [done|]. intros n' d [->|?]%elem_of_cons; eauto.
      * right. eauto.
    + right. eexists. split; [done|]. by eexists.
Qed.

(** [validateDAG] returns, or throws a [VALIDATION_ERROR]. *)
Lemma validateDAG_outcome dag :
  validateDAG dag = Return tt ∨ ∃ e, validateDAG dag = Throw e ∧ is_validation_error e.
Proof.
  unfold validateDAG. case_decide.
  - right. eexists. split; [done|]. by eexists.
  - destruct (check_all_dependencies_outcome
                (list_to_set (DAGNode.id <$> DAGDefinition.nodes dag)) (DAGDefinition.nodes dag))
      as [[-> _]|(e & -> & He)]; simpl.
    + destruct (hasCycles dag); [|by left].
      right. eexists. split; [done|]. by eexists.
    + right. eauto.
Qed.

(** A DAG that [validateDAG] lets through has distinct ids, no missing
    dependency and no cycle, and [topologicalSort] returns an order for it. *)
Lemma validateDAG_Return dag :
  validateDAG dag = Return tt →
  NoDup (node_ids (DAGDefinition.nodes dag)) ∧
  ¬ has_missing_dependency dag ∧
  ¬ has_cycle dag ∧
  ∃ sorted, topologicalSort dag = Return sorted.
Proof.
  unfold validateDAG. case_decide as Hsz; [done|].
  assert (NoDup (node_ids (DAGDefinition.nodes dag))) as Hnd.
  { apply size_list_to_set_NoDup. unfold node_ids. rewrite length_fmap.
    destruct (decide (size (list_to_set (DAGNode.id <$> DAGDefinition.nodes dag) : gset string)
                      = length (DAGDefinition.nodes dag))); [done|]. by destruct Hsz. }
  clear Hsz.
  destruct (check_all_dependencies_outcome
              (list_to_set (DAGNode.id <$> DAGDefinition.nodes dag)) (DAGDefinition.nodes dag))
    as [[-> Hdeps]|(e & -> & He)]; simpl; [|done].
  destruct (hasCycles dag) eqn:Hcyc; [done|]. intros _.
  split; [done|]. split; [|split].
  - intros (n & d & Hn & Hd & Hmiss). apply Hmiss.
    specialize (Hdeps n d Hn Hd). by apply elem_of_list_to_set in Hdeps.
  - intros Hc. destruct (topologicalSort_detects_cycle dag Hnd Hc) as [e He].
    unfold hasCycles in Hcyc. by rewrite He in Hcyc.
  - unfold hasCycles in Hcyc. destruct (topologicalSort dag); [by eexists | done].
Qed.

Lemma validateDAG_rejects dag :
  has_cycle dag ∨ has_duplicate_ids dag ∨ has_missing_dependency dag →
  ∃ e, validateDAG dag = Throw e ∧ is_validation_error e.
Proof.
  intros Hbad. destruct (validateDAG_outcome dag) as [Hok|?]; [|done].
  destruct (validateDAG_Return dag Hok) as (Hnd & Hmiss & Hcyc & _).
  destruct Hbad as [?|[?|?]]; done.
Qed.

End validateDAG_facts.

(** * Facts about the execution loop of [executeDag] *)

Section run_facts.
Import PromptRouter.
Context `{rt : Runtime}.
Variable executePrompt :
  string → gmap string Value → ExecutionContext.t PromptExecutionResult.t →
  option string → World → Completion PromptExecutionResult.t * World.
Variable rootInputs : gmap string Value.
Variable context : option PartialContext.t.
Variable startTime : Z.

Lemma run_node_spec node st w early st' w' :
  run_node executePrompt rootInputs context startTime node st w = (early, st', w') →
  (∃ call, invoked st' = (invoked st ++ [call])%list ∧ call_of rootInputs node (results st) call) ∧
  node_outcome node st st' early.
Proof.
  unfold run_node.
  destruct (Date_now w) as [nodeStartTime w1].
  destruct (uuidv4 w1) as [requestId w2].
  destruct (executePrompt _ _ _ _ w2) as [[nodeResult|e] w3].
  - destruct (PromptExecutionResult.success nodeResult) eqn:Hok.
    + intros [= <- <- <-]. split.
      * eexists. split; [done|]. by repeat split.
      * by apply (node_succeeded node st _ nodeResult).
    + destruct (Date_now w3) as [endTime w4]. intros [= <- <- <-]. split.
      * eexists. split; [done|]. by repeat split.
      * by apply (node_failed node st _ nodeResult).
  - destruct (Date_now w3) as [endTime w4]. intros [= <- <- <-]. split.
    + eexists. split; [done|]. by repeat split.
    + by apply (node_threw node st _ e).
Qed.


Lemma run_nodes_spec sorted st w early st' w' :
  run_nodes executePrompt rootInputs context startTime sorted st w = (early, st', w') →
  loop_outcome rootInputs sorted st st' early.
Proof.
  revert st w. induction sorted as [|node rest IH]; intros st w Hrun; simpl in Hrun.
  - simplify_eq. apply (loop_completed _ _ _ _ []); simpl.
    + by rewrite app_nil_r.
    + set_solver.
    + by rewrite app_nil_r.
    + constructor.
  - destruct (run_node _ _ _ _ node st w) as [[one st1] w1] eqn:Enode.
    destruct (run_node_spec _ _ _ _ _ _ Enode) as [(call & Hcalls & Hcall) Hout].
    destruct one as [r|].
    + simplify_eq.
      apply (loop_stopped _ _ _ _ [] node rest st [call]); simpl; try done.
      * by rewrite app_nil_r.
      * set_solver.
      * econstructor; [done | done | constructor].
    + specialize (IH _ _ Hrun).
      inversion Hout as [nr Hok Hres Hord | |]; simplify_eq.
      assert (dom (results st1) = dom (results st) ∪ {[DAGNode.id node]}) as Hdom1.
      { rewrite Hres, dom_insert_L. set_solver. }
      inversion IH as [calls Hord' Hdom' Hinv' Hcs
                      | pre n' post mid calls e' Hsplit Hord' Hdom' Hinv' Hcs Hn']; simplify_eq.
      * apply (loop_completed _ _ _ _ (call :: calls)).
        -- rewrite Hord', Hord. simpl. by rewrite <-app_assoc.
        -- rewrite Hdom', Hdom1. simpl. set_solver.
        -- rewrite Hinv', Hcalls. by rewrite <-app_assoc.
        -- econstructor; [done | done |]. by rewrite <-Hdom1.
      * apply (loop_stopped _ _ _ _ (node :: pre) n' post mid (call :: calls)).
        -- done.
        -- rewrite Hord', Hord. simpl. by rewrite <-app_assoc.
        -- rewrite Hdom', Hdom1. simpl. set_solver.
        -- rewrite Hinv', Hcalls. by rewrite <-app_assoc.
        -- simpl. econstructor; [done | done |]. by rewrite <-Hdom1.
        -- done.
Qed.

End run_facts.

(** * The input map of a node *)

Section prepareNodeInputs_facts.
Import PromptRouter.

Lemma merge_dependency_contributes previousResults inputs dep :
  merge_dependency previousResults inputs dep =
  match contributes previousResults dep with
  | Some layer => layer ∪ inputs
  | None => inputs
  end.
Proof.
  unfold merge_dependency, contributes.
  destruct (previousResults !! dep) as [r|]; [|done].
  destruct (PromptExecutionResult.success r); [|done].
  destruct (PromptExecutionResult.output r); done.
Qed.

Lemma foldl_merge_dependency previousResults deps inputs :
  foldl (merge_dependency previousResults) inputs deps =
  foldl (λ merged layer, layer ∪ merged) inputs (omap (contributes previousResults) deps).
Proof.
  revert inputs. induction deps as [|dep deps IH]; intros inputs; [done|].
  simpl. rewrite IH, merge_dependency_contributes.
  destruct (contributes previousResults dep); done.
Qed.

Lemma prepareNodeInputs_layers node rootInputs previousResults :
  prepareNodeInputs node rootInputs previousResults =
  merge_later_wins
    ([DAGNode.inputs node]
     ++ omap (contributes previousResults) (DAGNode.dependencies node)
     ++ [rootInputs])%list.
Proof.
  unfold prepareNodeInputs, merge_later_wins, Object_assign.
  rewrite foldl_merge_dependency. simpl.
  rewrite foldl_app. simpl. by rewrite (right_id_L ∅ (∪)).
Qed.

(** The last layer that defines a key gives its value. *)
Lemma merge_later_wins_snoc layers layer key :
  merge_later_wins (layers ++ [layer])%list !! key =
  match layer !! key with
  | Some v => Some v
  | None => merge_later_wins layers !! key
  end.
Proof.
  unfold merge_later_wins. rewrite foldl_app. simpl.
  rewrite lookup_union. destruct (layer !! key); [|by rewrite (left_id_L None _)].
  by destruct (foldl _ _ _ !! key).
Qed.


End prepareNodeInputs_facts.

(** * Theorems about [executeDag] *)

Section executeDag_facts.
Import PromptRouter.
Context `{rt : Runtime}.
Variable executePrompt :
  string → gmap string Value → ExecutionContext.t PromptExecutionResult.t →
  option string → World → Completion PromptExecutionResult.t * World.

(** A run of a DAG that [validateDAG] lets through is the loop over the
    order [topologicalSort] returns. *)
Lemma executeDag_traced_accepted dag rootInputs context w r calls w' :
  validateDAG dag = Return tt →
  executeDag_traced executePrompt dag rootInputs context w = (r, calls, w') →
  ∃ sorted st',
    topologicalSort dag = Return sorted ∧
    calls = invoked st' ∧
    ((loop_outcome rootInputs sorted empty_run st' (Some r)) ∨
     (loop_outcome rootInputs sorted empty_run st' None ∧
      DAGExecutionResult.success r = true ∧
      DAGExecutionResult.results r = results st' ∧
      DAGExecutionResult.executionOrder r = executionOrder st' ∧
      DAGExecutionResult.error r = None)).
Proof.
  intros Hvalid. destruct (validateDAG_Return dag Hvalid) as (_ & _ & _ & sorted & Hsort).
  unfold executeDag_traced. destruct (Date_now w) as [startTime w1].
  rewrite Hvalid. simpl. rewrite Hsort.
  destruct (run_nodes _ _ _ _ sorted empty_run w1) as [[early st'] w2] eqn:Hrun.
  apply run_nodes_spec in Hrun.
  destruct early as [e|].
  - intros [= <- <- <-]. exists sorted, st'. split; [done|]. split; [done|]. by left.
  - destruct (Date_now w2) as [endTime w3]. intros [= <- <- <-].
    exists sorted, st'. split; [done|]. split; [done|]. right. by repeat split.
Qed.

Lemma executeDag_traced_rejected dag rootInputs context w e :
  validateDAG dag = Throw e →
  ∃ r w',
    executeDag_traced executePrompt dag rootInputs context w = (r, [], w') ∧
    DAGExecutionResult.success r = false ∧
    DAGExecutionResult.results r = ∅ ∧
    DAGExecutionResult.executionOrder r = [] ∧
    DAGExecutionResult.error r = Some ("validation", CaughtError e).
Proof.
  intros Hinvalid. unfold executeDag_traced.
  destruct (Date_now w) as [startTime w1]. rewrite Hinvalid. simpl.
  destruct (Date_now w1) as [endTime w2]. eexists _, _. by repeat split.
Qed.

(** C3. A DAG with a dependency cycle, with a repeated node id, or with a
    dependency that names no node fails validation before any node runs:
    [executeDag] calls [executePrompt] not once and returns
    [success = false] with empty [results] and [executionOrder], the node id
    ["validation"], and a [PromptHubMCPError] whose code is
    [VALIDATION_ERROR]. *)
Theorem executeDag_rejects_invalid_dag dag rootInputs context w :
  has_cycle dag ∨ has_duplicate_ids dag ∨ has_missing_dependency dag →
  ∃ r w' message,
    executeDag_traced executePrompt dag rootInputs context w = (r, [], w') ∧
    executeDag executePrompt dag rootInputs context w = (r, w') ∧
    DAGExecutionResult.success r = false ∧
    DAGExecutionResult.results r = ∅ ∧
    DAGExecutionResult.executionOrder r = [] ∧
    DAGExecutionResult.error r =
      Some ("validation", CaughtError (PromptHubMCPError VALIDATION_ERROR message VUndefined)).
Proof.
  intros Hbad. destruct (validateDAG_rejects dag Hbad) as (e & He & message & ->).
  destruct (executeDag_traced_rejected dag rootInputs context w _ He)
    as (r & w' & Hrun & Hs & Hr & Ho & Herr).
  exists r, w', message. unfold executeDag. rewrite Hrun. by repeat split.
Qed.

Lemma calls_of_Forall rootInputs d ran calls :
  calls_of rootInputs d ran calls →
  Forall (λ call, ∃ node prev, node ∈ ran ∧ call_of rootInputs node prev call) calls.
Proof.
  induction 1 as [|d node prev call ran calls Hcall _ _ IH]; constructor.
  - exists node, prev. split; [by left | done].
  - eapply Forall_impl; [exact IH|]. intros c (n & p & Hn & Hc).
    exists n, p. split; [by right | done].
Qed.

(** Every call of [executePrompt] runs a node of the DAG on the inputs
    [prepareNodeInputs] builds from the results recorded so far. *)
Lemma executeDag_traced_inputs dag rootInputs context w :
  Forall (λ call, ∃ node prev,
            node ∈ DAGDefinition.nodes dag ∧
            inv_node call = DAGNode.id node ∧
            ExecutionContext.previousOutputs (inv_context call) = Some prev ∧
            inv_inputs call = prepareNodeInputs node rootInputs prev)
         (executeDag_traced executePrompt dag rootInputs context w).1.2.
Proof.
  destruct (executeDag_traced executePrompt dag rootInputs context w) as [[r calls] w'] eqn:Hrun.
  simpl. destruct (validateDAG_outcome dag) as [Hvalid|(e & He & _)].
  - destruct (executeDag_traced_accepted _ _ _ _ _ _ _ Hvalid Hrun)
      as (sorted & st' & Hsort & -> & Hloop).
    destruct (topologicalSort_Return _ _ Hsort) as (_ & _ & Hnm & _).
    assert (∃ ran calls, invoked st' = calls ∧ calls_of rootInputs ∅ ran calls ∧
                         ∀ n, n ∈ ran → n ∈ sorted) as (ran & calls & -> & Hcs & Hran).
    { destruct Hloop as [Hloop|[Hloop _]];
        inversion Hloop as [calls _ _ Hinv Hcs | pre n post mid calls e Hsplit _ _ Hinv Hcs _];
        simpl in *; rewrite dom_empty_L in Hcs.
      - exists (pre ++ [n])%list, calls. split; [done|]. split; [done|].
        intros n' Hn'. rewrite Hsplit. set_solver.
      - exists sorted, calls. by repeat split. }
    eapply Forall_impl; [by eapply calls_of_Forall|].
    intros call (node & prev & Hnode & Hid & Hin & Hprev).
    exists node, prev. split; [|done].
    eapply nodeMap_elem_of, Hnm, Hran, Hnode.
  - destruct (executeDag_traced_rejected dag rootInputs context w _ He) as (r' & w'' & Hrun' & _).
    rewrite Hrun' in Hrun. simplify_eq. constructor.
Qed.

End executeDag_facts.

Lemma cyclic_has_cycle : has_cycle Sample.cyclic.
Proof.
  exists "A". apply tc_l with "B"; [|apply tc_once].
  - exists (Sample.node "A" ["B"]). split; [by left|]. split; [done | by left].
  - exists (Sample.node "B" ["A"]). split; [by right; left|]. split; [done | by left].
Qed.

Lemma executeDag_rejects_invalid_dag_witness :
  (has_cycle Sample.cyclic ∨ has_duplicate_ids Sample.cyclic ∨
   has_missing_dependency Sample.cyclic) ∧
  ∃ r w' message,
    PromptRouter.executeDag_traced (rt := Sample.runtime) (Sample.executor [])
      Sample.cyclic ∅ None 0%nat = (r, [], w') ∧
    PromptRouter.executeDag (rt := Sample.runtime) (Sample.executor [])
      Sample.cyclic ∅ None 0%nat = (r, w') ∧
    DAGExecutionResult.success r = false ∧
    DAGExecutionResult.results r = ∅ ∧
    DAGExecutionResult.executionOrder r = [] ∧
    DAGExecutionResult.error r =
      Some ("validation", CaughtError (PromptHubMCPError VALIDATION_ERROR message VUndefined)).
Proof.
  split.
  - left. exact cyclic_has_cycle.
  - apply (executeDag_rejects_invalid_dag (rt := Sample.runtime)).
    left. exact cyclic_has_cycle.
Defined.

(** C1, at an input where the code departs from it. In the DAG [two_step]
    the node [summarize] names [extract] in its dependencies. The DAG passes
    validation and every node succeeds, and the execution order is
    [summarize] first, [extract] second: the dependency runs after the node
    that depends on it. ([topologicalSort] puts each finished node at the
    front of its result with [unshift], which reverses the order in which
    the traversal finishes the nodes.) *)
Theorem executeDag_runs_dependent_before_dependency :
  depends_on Sample.two_step "summarize" "extract" ∧
  PromptRouter.validateDAG Sample.two_step = Return tt ∧
  DAGExecutionResult.success
    (PromptRouter.executeDag (rt := Sample.runtime) (Sample.executor [])
       Sample.two_step ∅ None 0%nat).1 = true ∧
  DAGExecutionResult.executionOrder
    (PromptRouter.executeDag (rt := Sample.runtime) (Sample.executor [])
       Sample.two_step ∅ None 0%nat).1 = ["summarize"; "extract"].
Proof.
  split; [|by vm_compute].
  exists (Sample.node "summarize" ["extract"]).
  split; [by right; left|]. split; [done | by left].
Qed.

(** C2, at the input the claim names. In the linear DAG A → B → C (B depends
    on A, C on B) where the prompt of B fails and the others succeed, the run
    stops at B with [success = false] and [error.nodeId = "B"], but the
    nodes executed are C and then B: [executionOrder] is [C; B], [results]
    has entries for C and B, and A never runs. *)
Theorem executeDag_linear_failure_runs_C_then_B :
  PromptRouter.validateDAG Sample.linear = Return tt ∧
  DAGExecutionResult.success
    (PromptRouter.executeDag (rt := Sample.runtime) (Sample.executor ["B"])
       Sample.linear ∅ None 0%nat).1 = false ∧
  DAGExecutionResult.executionOrder
    (PromptRouter.executeDag (rt := Sample.runtime) (Sample.executor ["B"])
       Sample.linear ∅ None 0%nat).1 = ["C"; "B"] ∧
  dom (DAGExecutionResult.results
    (PromptRouter.executeDag (rt := Sample.runtime) (Sample.executor ["B"])
       Sample.linear ∅ None 0%nat).1) = {["C"; "B"]} ∧
  fst <$> DAGExecutionResult.error
    (PromptRouter.executeDag (rt := Sample.runtime) (Sample.executor ["B"])
       Sample.linear ∅ None 0%nat).1 = Some "B" ∧
  PromptRouter.inv_node <$>
    (PromptRouter.executeDag_traced (rt := Sample.runtime) (Sample.executor ["B"])
       Sample.linear ∅ None 0%nat).1.2 = ["C"; "B"].
Proof. by vm_compute. Qed.

(** C4, at the input the claim names. The node [consumer] has the literal
    input [{x: 1}] and lists the dependency [producer], whose prompt
    produces the object [{x: 2, y: 3}]; the root inputs are [{x: 4}]. The
    DAG passes validation and the run succeeds, but [consumer] runs first,
    before any result of [producer] is recorded: the input map passed to its
    execution is [{x: 4}], without the [y] of the dependency. The merge of
    [prepareNodeInputs] itself is the one the claim describes: applied to
    the results recorded at the end of the run it gives [{x: 4, y: 3}]. *)
Theorem executeDag_node_inputs_lack_dependency_output :
  depends_on Sample.precedence "consumer" "producer" ∧
  PromptRouter.validateDAG Sample.precedence = Return tt ∧
  DAGExecutionResult.success
    (PromptRouter.executeDag (rt := Sample.runtime)
       (Sample.producing {["producer" := VObj (<["x" := VNum 2]> {["y" := VNum 3]})]})
       Sample.precedence {["x" := VNum 4]} None 0%nat).1 = true ∧
  (λ call, (PromptRouter.inv_node call, PromptRouter.inv_inputs call)) <$>
    (PromptRouter.executeDag_traced (rt := Sample.runtime)
       (Sample.producing {["producer" := VObj (<["x" := VNum 2]> {["y" := VNum 3]})]})
       Sample.precedence {["x" := VNum 4]} None 0%nat).1.2
  = [("consumer", {["x" := VNum 4]}); ("producer", {["x" := VNum 4]})] ∧
  PromptExecutionResult.output <$>
    DAGExecutionResult.results
      (PromptRouter.executeDag (rt := Sample.runtime)
         (Sample.producing {["producer" := VObj (<["x" := VNum 2]> {["y" := VNum 3]})]})
         Sample.precedence {["x" := VNum 4]} None 0%nat).1 !! "producer"
  = Some (VObj (<["x" := VNum 2]> {["y" := VNum 3]})) ∧
  PromptRouter.prepareNodeInputs Sample.consumer {["x" := VNum 4]}
    (DAGExecutionResult.results
       (PromptRouter.executeDag (rt := Sample.runtime)
          (Sample.producing {["producer" := VObj (<["x" := VNum 2]> {["y" := VNum 3]})]})
          Sample.precedence {["x" := VNum 4]} None 0%nat).1)
  = <["x" := VNum 4]> {["y" := VNum 3]}.
Proof.
  split; [|by vm_compute].
  exists Sample.consumer. split; [by right; left|]. split; [done | by left].
Qed.

(** * The access check *)

Section checkAccess_facts.
Import PromptModule.
Context `{rt : Runtime}.

Lemma check_expiration_unfold policy m w :
  check_expiration policy m w =
  match truthy (AccessPolicy.expirationDate policy) with
  | Some expirationDate =>
    if (expirationDate <? (Date_now w).1)%Z
    then (Throw expired_error, m, (Date_now w).2)
    else (Return tt, m, (Date_now w).2)
  | None => (Return tt, m, w)
  end.
Proof.
  unfold check_expiration.
  destruct (truthy (AccessPolicy.expirationDate policy)) as [e|]; [|done].
  unfold run_bind, now. destruct (Date_now w) as [time w']. simpl.
  by destruct (e <? time)%Z.
Qed.

Lemma check_expiration_granted policy m w :
  (check_expiration policy m w).1.1 = Return tt ↔ ¬ expired_at policy w.
Proof.
  rewrite check_expiration_unfold. unfold expired_at.
  destruct (truthy (AccessPolicy.expirationDate policy)) as [e|].
  - destruct (e <? (Date_now w).1)%Z eqn:E; simpl.
    + apply Z.ltb_lt in E. split; [done|]. intros Hn. destruct Hn. eauto.
    + apply Z.ltb_ge in E. split; [|done]. intros _ (e' & [= <-] & ?). lia.
  - split; [|done]. by intros _ (e' & ? & _).
Qed.

Lemma check_expiration_outcome policy m w :
  (check_expiration policy m w).1.1 = Return tt ∨
  (check_expiration policy m w).1.1 = Throw expired_error.
Proof.
  rewrite check_expiration_unfold.
  destruct (truthy _); [destruct (_ <? _)%Z|]; auto.
Qed.

(** A [public] policy grants access whatever its expiration date, and the
    clock is not even read. *)
Lemma checkAccess_public caller m w :
  AccessPolicy.type (PromptMetadata.accessPolicy (metadata m)) = public →
  checkAccess caller m w = (Return tt, m, w).
Proof. intros Hty. unfold checkAccess, run_bind, this. by rewrite Hty. Qed.

(** The policies whose case ends in [break] reach the expiration check. *)
Lemma checkAccess_gated caller m w :
  AccessPolicy.type (PromptMetadata.accessPolicy (metadata m)) = token_gated ∨
  AccessPolicy.type (PromptMetadata.accessPolicy (metadata m)) = nft_gated →
  checkAccess caller m w = check_expiration (PromptMetadata.accessPolicy (metadata m)) m w.
Proof. intros [Hty|Hty]; unfold checkAccess, run_bind, this; by rewrite Hty. Qed.

Lemma checkAccess_custom_unfold caller m w :
  AccessPolicy.type (PromptMetadata.accessPolicy (metadata m)) = custom →
  checkAccess caller m w =
  match AccessPolicy.whitelist (PromptMetadata.accessPolicy (metadata m)) with
  | Some whitelist =>
    if decide (caller ∈ whitelist)
    then check_expiration (PromptMetadata.accessPolicy (metadata m)) m w
    else (Throw whitelist_error, m, w)
  | None => check_expiration (PromptMetadata.accessPolicy (metadata m)) m w
  end.
Proof.
  intros Hty. unfold checkAccess, run_bind, this. simpl. rewrite Hty.
  destruct (AccessPolicy.whitelist _) as [wl|]; [|done]. by case_decide.
Qed.

(** C6, as amended. Under a [custom] policy the access check grants access
    if and only if the caller is a member of the whitelist or the policy
    has no whitelist, and the policy has not expired; otherwise it denies
    with [ACCESS_DENIED]. When the whitelist is absent every caller passes
    the whitelist test. *)
Theorem checkAccess_custom caller m w :
  AccessPolicy.type (PromptMetadata.accessPolicy (metadata m)) = custom →
  (access_granted caller m w ↔
     (∀ whitelist,
        AccessPolicy.whitelist (PromptMetadata.accessPolicy (metadata m)) = Some whitelist →
        caller ∈ whitelist) ∧
     ¬ expired_at (PromptMetadata.accessPolicy (metadata m)) w) ∧
  (access_granted caller m w ∨ access_denied caller m w).
Proof.
  intros Hty. unfold access_granted, access_denied.
  rewrite checkAccess_custom_unfold by done.
  set (policy := PromptMetadata.accessPolicy (metadata m)).
  destruct (AccessPolicy.whitelist policy) as [wl|].
  - case_decide as Hin.
    + split.
      * rewrite check_expiration_granted. split.
        -- intros Hne. split; [by intros ? [= <-] | done].
        -- by intros [_ ?].
      * destruct (check_expiration_outcome policy m w) as [->| ->]; [by left|].
        right. by eexists.
    + split.
      * simpl. split; [done|]. intros [Hwl _]. destruct Hin. by apply Hwl.
      * right. by eexists.
  - split.
    + rewrite check_expiration_granted. split.
      * intros Hne. split; [done | done].
      * by intros [_ ?].
    + destruct (check_expiration_outcome policy m w) as [->| ->]; [by left|].
      right. by eexists.
Qed.

End checkAccess_facts.

(** C6 as stated fails: under a [custom] policy with no whitelist (and no
    expiration date) a caller that is on no list is granted access. *)
Lemma checkAccess_custom_without_whitelist_grants :
  AccessPolicy.whitelist (Sample.policy custom None None) = None ∧
  PromptModule.checkAccess (rt := Sample.runtime) "mallory"
    (Sample.test_module (Sample.policy custom None None)) 0%nat
  = (Return tt, Sample.test_module (Sample.policy custom None None), 0%nat).
Proof. by vm_compute. Qed.

Lemma checkAccess_custom_witness :
  (access_granted (rt := Sample.runtime) "alice"
     (Sample.test_module (Sample.policy custom (Some ["alice"; "bob"]) (Some 2000%Z))) 0%nat ↔
     (∀ whitelist, Some ["alice"; "bob"] = Some whitelist → "alice" ∈ whitelist) ∧
     ¬ expired_at (rt := Sample.runtime) (Sample.policy custom (Some ["alice"; "bob"]) (Some 2000%Z)) 0%nat) ∧
  (access_granted (rt := Sample.runtime) "alice"
     (Sample.test_module (Sample.policy custom (Some ["alice"; "bob"]) (Some 2000%Z))) 0%nat ∨
   access_denied (rt := Sample.runtime) "alice"
     (Sample.test_module (Sample.policy custom (Some ["alice"; "bob"]) (Some 2000%Z))) 0%nat).
Proof.
  apply (checkAccess_custom (rt := Sample.runtime) "alice"
           (Sample.test_module (Sample.policy custom (Some ["alice"; "bob"]) (Some 2000%Z)))
           0%nat).
  reflexivity.
Defined.

(** C5, at an input where the code departs from it. A [public] policy whose
    expiration date (500) lies before the current time (1000) still grants
    access: the case [public] of [checkAccess] returns before the expiration
    check, which only the cases that end in [break] reach. The same policy
    with type [token_gated] is denied, and [execute] under the expired public
    policy succeeds. *)
Theorem checkAccess_public_expired_is_granted :
  (500 < (Date_now (Runtime := Sample.runtime) 0%nat).1)%Z ∧
  PromptModule.checkAccess (rt := Sample.runtime) "anyone"
    (Sample.test_module (Sample.policy public None (Some 500%Z))) 0%nat
  = (Return tt, Sample.test_module (Sample.policy public None (Some 500%Z)), 0%nat) ∧
  (PromptModule.checkAccess (rt := Sample.runtime) "anyone"
    (Sample.test_module (Sample.policy token_gated None (Some 500%Z))) 0%nat).1.1
  = Throw (PromptHubMCPError ACCESS_DENIED "Access to this prompt has expired" VUndefined) ∧
  (∃ response m' w',
     PromptModule.execute (ext := Sample.externals) (rt := Sample.runtime)
       {["text" := VStr "Hello world"]} (Sample.context "anyone" 1000 "request-1")
       (Sample.test_module (Sample.policy public None (Some 500%Z))) 0%nat
     = (Return response, m', w') ∧
     ModuleResponse.success response = true).
Proof.
  split; [by vm_compute|]. split; [by vm_compute|]. split; [by vm_compute|].
  eexists _, _, _. split; [by vm_compute | done].
Qed.

(** * The pipeline [execute] *)

Section execute_facts.
Import PromptModule.
Context `{ext : Externals} `{rt : Runtime}.

Lemma checkAccess_state caller m w : (checkAccess caller m w).1.2 = m.
Proof.
  unfold checkAccess, run_bind, this. simpl.
  destruct (AccessPolicy.type _); simpl; try done;
    try (rewrite check_expiration_unfold; by repeat case_match).
  - by case_decide.
  - destruct (AccessPolicy.whitelist _); [case_decide|]; simpl; try done;
      rewrite check_expiration_unfold; by repeat case_match.
Qed.

Lemma execute_catch_unfold startTime executionId e m w :
  execute_catch startTime executionId e m w =
  (Return (failure_response m executionId startTime ((Date_now w).1 - startTime) (error_info e)),
   m, (Date_now w).2).
Proof.
  unfold execute_catch, run_bind, now, this, run_ret.
  destruct (Date_now w) as [endTime w']. by destruct e.
Qed.

Lemma execute_unfold input context m w :
  execute input context m w =
  match execute_try input context (Date_now w).1 (uuidv4 (Date_now w).2).1 m
          (uuidv4 (Date_now w).2).2 with
  | (Return response, m', w') => (Return response, m', w')
  | (Throw e, m', w') =>
    (Return (failure_response m' (uuidv4 (Date_now w).2).1 (Date_now w).1
               ((Date_now w').1 - (Date_now w).1) (error_info e)),
     m', (Date_now w').2)
  end.
Proof.
  unfold execute, run_bind, now, fresh_uuid, run_try.
  destruct (Date_now w) as [startTime w1]. simpl.
  destruct (uuidv4 w1) as [executionId w2]. simpl.
  destruct (execute_try _ _ _ _ m w2) as [[[response|e] m'] w']; [done|].
  apply execute_catch_unfold.
Qed.

(** A context the schema refuses stops the [try] block at its first
    statement. *)
Lemma execute_try_malformed input context startTime executionId m w issues :
  ExecutionContextSchema_safeParse context = ParseFailure issues →
  execute_try input context startTime executionId m w =
  (Throw (PromptHubMCPError VALIDATION_ERROR "Invalid execution context" (issues_value issues)),
   m, w).
Proof. intros Hparse. unfold execute_try. by rewrite Hparse. Qed.

Lemma has_bigint_VObj_false (o : gmap string Value) :
  (∀ k v, o !! k = Some v → has_bigint v = false) → has_bigint (VObj o) = false.
Proof.
  simpl. revert o.
  apply (map_fold_weak_ind
           (λ r (o : gmap string Value),
              (∀ k v, o !! k = Some v → has_bigint v = false) → r = false)).
  - done.
  - intros k v o r Hk IH Hall.
    rewrite (Hall k v) by apply lookup_insert_eq. simpl.
    apply IH. intros k' v' Hk'. apply (Hall k').
    rewrite lookup_insert_ne; [done|]. intros ->. by rewrite Hk in Hk'.
Qed.

Lemma JSON_stringify_bigint v :
  has_bigint v = true → JSON_stringify v = Throw bigint_error.
Proof. intros Hv. unfold JSON_stringify. rewrite Hv. by destruct v. Qed.

Lemma JSON_stringify_no_bigint v :
  has_bigint v = false → ∃ text, JSON_stringify v = Return text.
Proof. intros Hv. unfold JSON_stringify. rewrite Hv. destruct v; eauto. Qed.

(** The signature can only fail on a [BigInt] in the caller's input. *)
Lemma generateExecutionSignature_outcome m executionId input output context :
  has_bigint output = false →
  if has_bigint (VObj input)
  then generateExecutionSignature m executionId input output context = Throw bigint_error
  else ∃ signature,
         generateExecutionSignature m executionId input output context = Return signature.
Proof.
  intros Hout. unfold generateExecutionSignature.
  destruct (has_bigint (VObj input)) eqn:Hin.
  - by rewrite (JSON_stringify_bigint _ Hin).
  - destruct (JSON_stringify_no_bigint _ Hin) as [inputText ->].
    destruct (JSON_stringify_no_bigint _ Hout) as [outputText ->].
    cbn [bind].
    match goal with
    | |- context [JSON_stringify ?v] =>
      destruct (JSON_stringify_no_bigint v) as [text ->]; [|by eexists]
    end.
    apply has_bigint_VObj_false.
    intros k v Hk. repeat (apply lookup_insert_Some in Hk as [[_ <-]|[_ Hk]]; [done|]).
    by rewrite lookup_empty in Hk.
Qed.

Lemma executePrompt_unfold renderedPrompt context executionId m w :
  ∃ output,
    executePrompt renderedPrompt context executionId m w = (Return output, m, (Date_now w).2) ∧
    has_bigint output = false.
Proof.
  unfold executePrompt, run_bind, this, now, run_ret.
  destruct (Date_now w) as [time w']. simpl. eexists. split; [done|].
  apply has_bigint_VObj_false.
  intros k v Hk. repeat (apply lookup_insert_Some in Hk as [[_ <-]|[_ Hk]]; [done|]).
  by rewrite lookup_empty in Hk.
Qed.

#[local] Arguments has_bigint : simpl never.

(** The [try] block of [execute] keeps the definition and the metadata. It
    returns only a successful response, after counting the execution. When
    it throws, the module is as before, unless it was the signature that
    failed, on a [BigInt] in the input: then the execution is already
    counted. *)
Lemma execute_try_outcome input context startTime executionId m w c m' w' :
  execute_try input context startTime executionId m w = (c, m', w') →
  definition m' = definition m ∧ metadata m' = metadata m ∧
  match c with
  | Return response =>
    executionCount m' = (executionCount m + 1)%Z ∧
    ModuleResponse.success response = true ∧
    ModuleResponse.Metadata.error (ModuleResponse.metadata response) = None ∧
    is_Some (ModuleResponse.signature response) ∧
    ModuleResponse.Metadata.timestamp (ModuleResponse.metadata response) = startTime ∧
    ModuleResponse.Metadata.executionTime (ModuleResponse.metadata response)
      = ModuleResponse.executionTime response ∧
    has_bigint (VObj input) = false
  | Throw e =>
    m' = m ∨
    (executionCount m' = (executionCount m + 1)%Z ∧ e = bigint_error ∧
     has_bigint (VObj input) = true)
  end.
Proof.
  unfold execute_try.
  destruct (ExecutionContextSchema_safeParse context) as [ctx|issues].
  2:{ intros [= <- <- <-]. split; [done|]. split; [done|]. by left. }
  unfold run_bind, this, run_lift, run_throw, run_ret, update, now.
  destruct (validateInput m input) as [inputValidation|e].
  2:{ intros [= <- <- <-]. split; [done|]. split; [done|]. by left. }
  destruct (ValidationResult.valid inputValidation); simpl.
  2:{ intros [= <- <- <-]. split; [done|]. split; [done|]. by left. }
  pose proof (checkAccess_state (ExecutionContext.caller ctx) m w) as Hstate.
  destruct (checkAccess (ExecutionContext.caller ctx) m w) as [[[u|e] m1] w1];
    simpl in Hstate; subst m1.
  2:{ intros [= <- <- <-]. split; [done|]. split; [done|]. by left. }
  destruct (renderTemplate m _ _) as [renderedPrompt|e].
  2:{ intros [= <- <- <-]. split; [done|]. split; [done|]. by left. }
  destruct (executePrompt_unfold renderedPrompt ctx executionId m w1) as (output & -> & Hout).
  destruct (Date_now (Date_now w1).2) as [time w3].
  destruct (Date_now w3) as [endTime w4].
  pose proof (generateExecutionSignature_outcome m executionId input output ctx Hout) as Hsig.
  destruct (has_bigint (VObj input)).
  - rewrite Hsig. intros [= <- <- <-]. split; [done|]. split; [done|]. right. done.
  - destruct Hsig as [signature ->]. intros [= <- <- <-].
    split; [done|]. split; [done|]. simpl. by repeat split.
Qed.

Lemma schema_accepts_iff context :
  schema_accepts context ↔
  ∃ o, context = VObj o ∧
       zod_string (prop o "caller") = true ∧
       zod_optional zod_string (prop o "modelProvider") = true ∧
       zod_number (prop o "timestamp") = true ∧
       zod_optional zod_record (prop o "previousOutputs") = true ∧
       zod_string (prop o "requestId") = true ∧
       zod_optional zod_string (prop o "chainId") = true ∧
       zod_optional zod_number (prop o "blockHeight") = true.
Proof.
  unfold schema_accepts, ExecutionContextSchema_safeParse. split.
  - intros [ctx Hctx]. destruct context; try done. exists o. split; [done|].
    unfold zod_field in Hctx.
    destruct (zod_string (prop o "caller")); [|done].
    destruct (zod_optional zod_string (prop o "modelProvider")); [|done].
    destruct (zod_number (prop o "timestamp")); [|done].
    destruct (zod_optional zod_record (prop o "previousOutputs")); [|done].
    destruct (zod_string (prop o "requestId")); [|done].
    destruct (zod_optional zod_string (prop o "chainId")); [|done].
    destruct (zod_optional zod_number (prop o "blockHeight")); [|done].
    done.
  - intros (o & -> & H1 & H2 & H3 & H4 & H5 & H6 & H7).
    unfold zod_field. rewrite H1, H2, H3, H4, H5, H6, H7. simpl. by eexists.
Qed.

(** C7, as amended. When the execution context does not satisfy
    [ExecutionContextSchema], [execute] rejects it at the first stage: the
    response is a failure with code [VALIDATION_ERROR] whatever the input
    and the access policy are, the module is unchanged, and the world has
    only seen the two clock reads and the one uuid of the packaging. The
    schema asks for an object whose [caller] and [requestId] are strings,
    whose [timestamp] is a number and whose optional fields, when present,
    have their type; it accepts an empty string. *)
Theorem execute_rejects_malformed_context input context m w :
  (¬ schema_accepts context →
   ∃ response issues,
     ExecutionContextSchema_safeParse context = ParseFailure issues ∧
     execute input context m w =
       (Return response, m, (Date_now (uuidv4 (Date_now w).2).2).2) ∧
     ModuleResponse.success response = false ∧
     ModuleResponse.output response = VNull ∧
     ModuleResponse.Metadata.error (ModuleResponse.metadata response) =
       Some {| code := VALIDATION_ERROR; message := "Invalid execution context";
               details := issues_value issues |}) ∧
  (schema_accepts context ↔
   ∃ o, context = VObj o ∧
        zod_string (prop o "caller") = true ∧
        zod_optional zod_string (prop o "modelProvider") = true ∧
        zod_number (prop o "timestamp") = true ∧
        zod_optional zod_record (prop o "previousOutputs") = true ∧
        zod_string (prop o "requestId") = true ∧
        zod_optional zod_string (prop o "chainId") = true ∧
        zod_optional zod_number (prop o "blockHeight") = true) ∧
  (∀ timestamp, schema_accepts
     (VObj (<["caller" := VStr ""]> (<["timestamp" := VNum timestamp]>
            {["requestId" := VStr ""]})))).
Proof.
  split; [|split].
  - intros Hno.
    destruct (ExecutionContextSchema_safeParse context) as [ctx|issues] eqn:Hparse.
    { destruct Hno. by exists ctx. }
    exists (failure_response m (uuidv4 (Date_now w).2).1 (Date_now w).1
              ((Date_now (uuidv4 (Date_now w).2).2).1 - (Date_now w).1)
              (error_info (PromptHubMCPError VALIDATION_ERROR "Invalid execution context"
                             (issues_value issues)))), issues.
    split; [done|]. split; [|done].
    rewrite execute_unfold. by rewrite (execute_try_malformed _ _ _ _ _ _ issues).
  - apply schema_accepts_iff.
  - intros timestamp. by eexists.
Qed.

(** A successful call counts exactly one execution. *)
Lemma execute_success_counts input context m w response m' w' :
  execute input context m w = (Return response, m', w') →
  ModuleResponse.success response = true →
  PromptMetadata.executionCount (getMetadata m')
    = (PromptMetadata.executionCount (getMetadata m) + 1)%Z.
Proof.
  rewrite execute_unfold.
  destruct (execute_try _ _ _ _ m _) as [[[r|e] m1] w1] eqn:Htry.
  - intros [= <- <- <-] _.
    by destruct (execute_try_outcome _ _ _ _ _ _ _ _ _ Htry) as (_ & _ & Hcount & _).
  - by intros [= <- <- <-].
Qed.

End execute_facts.

(** C7 as stated fails: a context whose caller and requestId are both the
    empty string passes the first stage, and the call succeeds. *)
Lemma execute_accepts_empty_caller_and_requestId :
  ∃ response m' w',
    PromptModule.execute (ext := Sample.externals) (rt := Sample.runtime)
      {["text" := VStr "Hello world"]} (Sample.context "" 1000 "")
      (Sample.test_module (Sample.policy public None None)) 0%nat
    = (Return response, m', w') ∧
    ModuleResponse.success response = true ∧
    ModuleResponse.Metadata.error (ModuleResponse.metadata response) = None.
Proof. eexists _, _, _. split; [by vm_compute | done]. Qed.

Lemma execute_rejects_malformed_context_witness :
  ¬ schema_accepts (VObj {["caller" := VNum 7]}) ∧
  ∃ response issues,
    ExecutionContextSchema_safeParse (VObj {["caller" := VNum 7]}) = ParseFailure issues ∧
    PromptModule.execute (ext := Sample.externals) (rt := Sample.runtime)
      {["text" := VStr "Hello world"]} (VObj {["caller" := VNum 7]})
      (Sample.test_module (Sample.policy public None None)) 0%nat
    = (Return response, Sample.test_module (Sample.policy public None None),
       (Date_now (Runtime := Sample.runtime)
          (uuidv4 (Runtime := Sample.runtime)
             (Date_now (Runtime := Sample.runtime) 0%nat).2).2).2) ∧
    ModuleResponse.success response = false ∧
    ModuleResponse.output response = VNull ∧
    ModuleResponse.Metadata.error (ModuleResponse.metadata response) =
      Some {| code := VALIDATION_ERROR; message := "Invalid execution context";
              details := issues_value issues |}.
Proof.
  assert (¬ schema_accepts (VObj {["caller" := VNum 7]})) as Hno.
  { intros [ctx Hctx]. vm_compute in Hctx. discriminate. }
  split; [exact Hno|].
  exact (proj1 (execute_rejects_malformed_context (ext := Sample.externals)
                  (rt := Sample.runtime) {["text" := VStr "Hello world"]}
                  (VObj {["caller" := VNum 7]})
                  (Sample.test_module (Sample.policy public None None)) 0%nat) Hno).
Defined.

(** C10, at an input where the code departs from it. The input carries,
    under a key the prompt does not declare, a [BigInt]. Validation only
    warns about the key, the prompt runs, the execution is counted, and then
    the signature fails on [JSON.stringify(input)]: the call returns
    [success = false] (code [EXECUTION_FAILED]) and the execution count seen
    through [getMetadata] has gone from 0 to 1. *)
Theorem execute_failed_call_is_counted :
  ∃ response m' w',
    PromptModule.execute (ext := Sample.externals) (rt := Sample.runtime)
      (<["extra" := VBigInt 10]> {["text" := VStr "Hello world"]})
      (Sample.context "test-caller" 1000 "test-request-id")
      (Sample.test_module (Sample.policy public None None)) 0%nat
    = (Return response, m', w') ∧
    ModuleResponse.success response = false ∧
    ModuleResponse.Metadata.error (ModuleResponse.metadata response) =
      Some {| code := EXECUTION_FAILED;
              message := "Do not know how to serialize a BigInt";
              details := error_value bigint_error |} ∧
    PromptMetadata.executionCount
      (PromptModule.getMetadata (Sample.test_module (Sample.policy public None None))) = 0%Z ∧
    PromptMetadata.executionCount (PromptModule.getMetadata m') = 1%Z.
Proof. eexists _, _, _. split; [by vm_compute | done]. Qed.

(** * Facts about plain objects *)

Section object_facts.
Context `{ext : Externals}.

Lemma Object_entries_elem_of {A} (obj : gmap string A) key value :
  (key, value) ∈ Object_entries obj ↔ obj !! key = Some value.
Proof. by rewrite (Object_entries_permutation A obj), elem_of_map_to_list. Qed.

Lemma Object_entries_NoDup {A} (obj : gmap string A) : NoDup (Object_entries obj).*1.
Proof.
  rewrite (Object_entries_permutation A obj). apply NoDup_fst_map_to_list.
Qed.

Lemma Object_entries_to_map {A} (obj : gmap string A) :
  list_to_map (Object_entries obj) = obj.
Proof.
  rewrite <- (list_to_map_to_list obj) at 2.
  apply list_to_map_proper; [apply Object_entries_NoDup | apply Object_entries_permutation].
Qed.

Lemma Object_keys_elem_of {A} (obj : gmap string A) key :
  key ∈ Object_keys obj ↔ is_Some (obj !! key).
Proof.
  unfold Object_keys. rewrite list_elem_of_fmap. split.
  - intros ([k v] & -> & Hkv%Object_entries_elem_of). by eexists.
  - intros [v Hv]. exists (key, v). split; [done|]. by apply Object_entries_elem_of.
Qed.

Lemma Object_entries_empty {A} : Object_entries (∅ : gmap string A) = [].
Proof.
  apply Permutation_nil_r. rewrite (Object_entries_permutation A ∅).
  by rewrite map_to_list_empty.
Qed.

Lemma Object_entries_singleton {A} key (value : A) :
  Object_entries ({[key := value]} : gmap string A) = [(key, value)].
Proof.
  apply Permutation_singleton_r. rewrite (Object_entries_permutation A _).
  by rewrite map_to_list_singleton.
Qed.

Lemma key_in_own {A} key (obj : gmap string A) :
  Object_prototype key = None → key_in key obj = bool_decide (is_Some (obj !! key)).
Proof.
  intros Hown. unfold key_in. rewrite Hown.
  rewrite (bool_decide_eq_false_2 (is_Some None)) by (by intros [? ?]).
  apply orb_false_r.
Qed.

Lemma key_in_inherited {A} key (obj : gmap string A) value :
  Object_prototype key = Some value → key_in key obj = true.
Proof.
  intros Hin. unfold key_in. rewrite Hin.
  rewrite (bool_decide_eq_true_2 (is_Some (Some value))) by (by eexists).
  apply orb_true_r.
Qed.

Lemma key_in_present {A} key (obj : gmap string A) value :
  obj !! key = Some value → key_in key obj = true.
Proof.
  intros Hin. unfold key_in. rewrite Hin.
  by rewrite (bool_decide_eq_true_2 (is_Some (Some value))) by (by eexists).
Qed.

Lemma key_in_false {A} key (obj : gmap string A) :
  key_in key obj = false ↔ obj !! key = None ∧ Object_prototype key = None.
Proof.
  unfold key_in. rewrite orb_false_iff, !bool_decide_eq_false.
  by rewrite <- !eq_None_not_Some.
Qed.

Lemma Object_get_own obj key value : obj !! key = Some value → Object_get obj key = value.
Proof. intros Hin. unfold Object_get. by rewrite Hin. Qed.

Lemma Object_get_inherited obj key value :
  obj !! key = None → Object_prototype key = Some value → Object_get obj key = value.
Proof. intros Hnone Hin. unfold Object_get. by rewrite Hnone, Hin. Qed.

End object_facts.

(** * Input validation *)

Section validateInput_facts.
Import PromptModule.
Context `{ext : Externals}.

Lemma check_parameter_acc input entry errors :
  check_parameter input entry errors =
  bind (check_parameter input entry []) (λ more, Return (errors ++ more)%list).
Proof.
  destruct entry as [key param]. unfold check_parameter.
  destruct (InputParameter.required param && negb (key_in key input)); [done|].
  destruct (key_in key input); simpl; [|by rewrite app_nil_r].
  destruct (validateParameterValue key _ param) as [[e|]|e]; simpl;
    [done | by rewrite app_nil_r | done].
Qed.

(** The first loop collects, parameter by parameter, the errors of each. *)
Lemma check_parameters_Return input entries errors result :
  for_of entries (check_parameter input) errors = Return result →
  ∃ contributions,
    Forall2 (λ entry more, parameter_errors input entry.1 entry.2 = Return more)
            entries contributions ∧
    result = (errors ++ concat contributions)%list.
Proof.
  revert errors. induction entries as [|[key param] entries IH]; intros errors; cbn [for_of].
  - intros [= <-]. exists []. split; [constructor | by rewrite app_nil_r].
  - rewrite check_parameter_acc.
    destruct (check_parameter input (key, param) []) as [more|e] eqn:E; [|done].
    simpl. intros Hrest. destruct (IH _ Hrest) as (contributions & Hall & ->).
    exists (more :: contributions). split; [by constructor|].
    simpl. by rewrite <-app_assoc.
Qed.

(** The check of one parameter, by cases on where the input has the
    key. A parameter the input has as its own property is validated on the
    value of that property. A parameter the input lacks is validated all
    the same when [Object.prototype] has a member of that name, on that
    member; otherwise it is reported as missing when it is required, and
    passed over when it is not. *)
Lemma parameter_errors_own input key param value :
  input !! key = Some value →
  parameter_errors input key param =
  bind (validateParameterValue key value param) (λ validationError,
    Return (match validationError with Some e => [e] | None => [] end)).
Proof.
  intros Hin. unfold parameter_errors, check_parameter.
  rewrite (key_in_present _ _ _ Hin), (Object_get_own _ _ _ Hin), andb_false_r.
  by destruct (validateParameterValue key value param) as [[e|]|e].
Qed.

Lemma parameter_errors_inherited input key param member :
  input !! key = None → Object_prototype key = Some member →
  parameter_errors input key param =
  bind (validateParameterValue key member param) (λ validationError,
    Return (match validationError with Some e => [e] | None => [] end)).
Proof.
  intros Hnone Hin. unfold parameter_errors, check_parameter.
  rewrite (key_in_inherited _ _ _ Hin), (Object_get_inherited _ _ _ Hnone Hin), andb_false_r.
  by destruct (validateParameterValue key member param) as [[e|]|e].
Qed.

Lemma parameter_errors_absent input key param :
  input !! key = None → Object_prototype key = None →
  parameter_errors input key param =
  Return (if InputParameter.required param
          then ["Required parameter '" ++ key ++ "' is missing"] else []).
Proof.
  intros Hnone Hown. unfold parameter_errors, check_parameter.
  rewrite (proj2 (key_in_false key input)) by done.
  by destruct (InputParameter.required param).
Qed.

Lemma unexpected_warnings_elem_of (declared : gmap string InputParameter.t) input warning :
  warning ∈ unexpected_warnings declared input ↔
  ∃ key, is_Some (input !! key) ∧ declared !! key = None ∧ Object_prototype key = None ∧
         warning = "Unexpected parameter '" ++ key ++ "' will be ignored".
Proof.
  unfold unexpected_warnings. rewrite list_elem_of_fmap. split.
  - intros (key & -> & Hkey). exists key.
    apply list_elem_of_In, filter_In in Hkey as [Hkey Hundeclared].
    apply list_elem_of_In, Object_keys_elem_of in Hkey.
    apply negb_true_iff, key_in_false in Hundeclared as [Hnone Hown]. done.
  - intros (key & Hkey & Hnone & Hown & ->). exists key. split; [done|].
    apply list_elem_of_In, filter_In. split.
    + by apply list_elem_of_In, Object_keys_elem_of.
    + by apply negb_true_iff, key_in_false.
Qed.

(** What [validateInput] does for the keys that [Object.prototype] does
    not define. The result is valid exactly when there is no error; a
    required parameter the input lacks is reported with the message
    "Required parameter '<name>' is missing", the only error of that
    parameter; and the warnings are the messages "Unexpected parameter
    '<name>' will be ignored" of the keys of the input that are not
    declared. *)
Lemma validateInput_own_properties m input r :
  validateInput m input = Return r →
  (ValidationResult.valid r = true ↔ ValidationResult.errors r = []) ∧
  (∃ contributions,
     Forall2 (λ entry more, parameter_errors input entry.1 entry.2 = Return more)
       (Object_entries (PromptDefinition.inputs (definition m))) contributions ∧
     ValidationResult.errors r = concat contributions) ∧
  (∀ key param,
     PromptDefinition.inputs (definition m) !! key = Some param →
     InputParameter.required param = true →
     input !! key = None → Object_prototype key = None →
     parameter_errors input key param
       = Return ["Required parameter '" ++ key ++ "' is missing"] ∧
     "Required parameter '" ++ key ++ "' is missing" ∈ ValidationResult.errors r) ∧
  (∀ warning,
     warning ∈ ValidationResult.warnings r ↔
     ∃ key, is_Some (input !! key) ∧
            PromptDefinition.inputs (definition m) !! key = None ∧
            Object_prototype key = None ∧
            warning = "Unexpected parameter '" ++ key ++ "' will be ignored").
Proof.
  intros Hr. unfold validateInput in Hr.
  apply bind_Return_inv in Hr as (errors & Hloop & [= <-]). simpl.
  apply check_parameters_Return in Hloop as (contributions & Hall & ->). simpl.
  split; [|split; [|split]].
  - rewrite bool_decide_eq_true. split.
    + by intros ?%nil_length_inv.
    + by intros ->.
  - by exists contributions.
  - intros key param Hkey Hreq Habs Hown.
    pose proof (parameter_errors_absent input key param Habs Hown) as Hmissing.
    rewrite Hreq in Hmissing. split; [done|].
    apply Object_entries_elem_of, list_elem_of_lookup in Hkey as [i Hi].
    destruct (Forall2_lookup_l _ _ _ _ _ Hall Hi) as (more & Hmore & Hrun).
    simpl in Hrun. rewrite Hmissing in Hrun. injection Hrun as <-.
    apply list_elem_of_In, in_concat.
    exists ["Required parameter '" ++ key ++ "' is missing"].
    split; [|by left]. by eapply list_elem_of_In, list_elem_of_lookup_2.
  - intros warning. apply unexpected_warnings_elem_of.
Qed.

End validateInput_facts.

(** C8, at inputs where the code departs from it. [validateInput] asks
    whether a key is present with the operator [in], which also finds the
    members every object inherits from [Object.prototype]. For a required
    string parameter named [toString] and the empty input, the parameter is
    absent, but the only error is "Parameter 'toString' must be a string",
    from the check of the inherited method, and not "Required parameter
    'toString' is missing". For a definition that declares no parameter and
    the input [{toString: "x"}], the key is present and not declared, but
    there is no warning. With the names [text] and [extra], which
    [Object.prototype] does not define, the same two calls give the error
    and the warning of the claim. An optional parameter named
    [constructor] that the caller leaves out even makes the empty input
    invalid. This holds whatever the order in which the engine enumerates
    an object. *)
Theorem validateInput_counts_inherited_properties `{ext : Externals} :
  PromptModule.validateInput
    (Sample.declaring {["toString" := Sample.parameter PString true VUndefined None]}) ∅
  = Return {| ValidationResult.valid := false;
              ValidationResult.errors := ["Parameter 'toString' must be a string"];
              ValidationResult.warnings := [] |} ∧
  PromptModule.validateInput (Sample.declaring ∅) {["toString" := VStr "x"]}
  = Return {| ValidationResult.valid := true;
              ValidationResult.errors := [];
              ValidationResult.warnings := [] |} ∧
  PromptModule.validateInput
    (Sample.declaring {["text" := Sample.parameter PString true VUndefined None]}) ∅
  = Return {| ValidationResult.valid := false;
              ValidationResult.errors := ["Required parameter 'text' is missing"];
              ValidationResult.warnings := [] |} ∧
  PromptModule.validateInput (Sample.declaring ∅) {["extra" := VStr "x"]}
  = Return {| ValidationResult.valid := true;
              ValidationResult.errors := [];
              ValidationResult.warnings := ["Unexpected parameter 'extra' will be ignored"] |} ∧
  PromptModule.validateInput
    (Sample.declaring {["constructor" := Sample.parameter PObject false VUndefined None]}) ∅
  = Return {| ValidationResult.valid := false;
              ValidationResult.errors := ["Parameter 'constructor' must be an object"];
              ValidationResult.warnings := [] |}.
Proof.
  unfold PromptModule.validateInput, PromptModule.unexpected_warnings, Object_keys. simpl.
  rewrite !Object_entries_singleton, !Object_entries_empty.
  repeat split; by vm_compute.
Qed.

(** * The order [executeDag] really runs the nodes in *)

Section run_failure_facts.
Import PromptRouter.
Context `{rt : Runtime}.
Variable executePrompt :
  string → gmap string Value → ExecutionContext.t PromptExecutionResult.t →
  option string → World → Completion PromptExecutionResult.t * World.
Variable rootInputs : gmap string Value.
Variable context : option PartialContext.t.
Variable startTime : Z.



End run_failure_facts.

Section executeDag_order_facts.
Import PromptRouter.
Context `{rt : Runtime}.
Variable executePrompt :
  string → gmap string Value → ExecutionContext.t PromptExecutionResult.t →
  option string → World → Completion PromptExecutionResult.t * World.


Lemma sorted_dependency_later (nm : gmap string DAGNode.t) sorted n d :
  dependencies_follow sorted →
  (∀ n', n' ∈ sorted → nm !! DAGNode.id n' = Some n') →
  nm !! DAGNode.id n = Some n →
  DAGNode.id n ∈ node_ids sorted →
  d ∈ DAGNode.dependencies n →
  occurs_before (DAGNode.id n) d (node_ids sorted).
Proof.
  induction sorted as [|a tl IH]; intros Hfol Hnm Hn Hin Hd; simpl in *.
  - by apply elem_of_nil in Hin.
  - destruct Hfol as [Hdeps Hfol].
    destruct (decide (DAGNode.id a = DAGNode.id n)) as [Heq|Hne].
    + assert (a = n) as ->.
      { pose proof (Hnm a ltac:(by left)) as Ha. rewrite Heq, Hn in Ha. by simplify_eq. }
      exists [], (node_ids tl). split; [done|]. by apply Hdeps.
    + apply elem_of_cons in Hin as [?|Hin]; [done|].
      destruct IH as (l1 & l2 & Hsplit & Hd2); try done.
      { intros n' Hn'. apply Hnm. by right. }
      exists (DAGNode.id a :: l1), l2. split; [|done].
      unfold node_ids in *. simpl. by rewrite Hsplit.
Qed.

Lemma occurs_before_prefix (x d : string) (full p q : list string) :
  NoDup full → full = (p ++ q)%list → occurs_before x d full → d ∈ p →
  occurs_before x d p.
Proof.
  intros Hnd -> (l1 & l2 & Hsplit & Hd2) Hdp.
  assert (d ∉ (l1 ++ [x])%list) as Hd1.
  { rewrite Hsplit in Hnd. rewrite (cons_middle x l1 l2), app_assoc in Hnd.
    apply NoDup_app in Hnd as (_ & Hdisj & _). intros Hd. by apply (Hdisj d). }
  rewrite (cons_middle x l1 l2), app_assoc in Hsplit.
  apply app_eq_inv in Hsplit as [(k & Hp & Hq)|(k & Hp & Hq)].
  - exists l1, k. split; [by rewrite Hp, <-app_assoc|].
    rewrite Hp in Hdp. apply elem_of_app in Hdp as [?|?]; done.
  - destruct Hd1. rewrite Hp. apply elem_of_app. by left.
Qed.

(** What [executeDag] returns for a DAG that passes validation: its
    [executionOrder] is a prefix of the sorted ids, and the nodes called are
    a prefix of the sorted nodes. *)
Lemma executeDag_traced_prefix dag rootInputs context w r calls w' :
  validateDAG dag = Return tt →
  executeDag_traced executePrompt dag rootInputs context w = (r, calls, w') →
  ∃ sorted ran rest,
    topologicalSort dag = Return sorted ∧
    sorted = (ran ++ rest)%list ∧
    calls_of rootInputs ∅ ran calls ∧
    ∃ rest', node_ids sorted = (DAGExecutionResult.executionOrder r ++ rest')%list.
Proof.
  intros Hvalid Hrun.
  destruct (executeDag_traced_accepted _ _ _ _ _ _ _ _ Hvalid Hrun)
    as (sorted & st' & Hsort & -> & Hloop).
  exists sorted.
  destruct Hloop as [Hloop|(Hloop & _ & _ & Ho & _)].
  - inversion Hloop as [|pre node post mid calls early Hsplit Hord Hdom Hinv Hcs Hnode];
      simplify_eq. simpl in *. rewrite dom_empty_L in *.
    exists (pre ++ [node])%list, post. split; [done|].
    split; [by rewrite <-app_assoc|]. split; [by rewrite Hinv|].
    unfold node_ids. rewrite fmap_app, fmap_cons.
    inversion Hnode as [|nr r' _ _ Hord' (_ & _ & Ho & _)|e r' _ Hord' (_ & _ & Ho & _)];
      simplify_eq; rewrite Ho, Hord', Hord.
    + exists (DAGNode.id <$> post). by rewrite <-app_assoc.
    + by exists (DAGNode.id node :: (DAGNode.id <$> post)).
  - inversion Hloop as [calls Hord Hdom Hinv Hcs|]; simplify_eq.
    simpl in *. rewrite dom_empty_L in *.
    exists sorted, []. split; [done|]. split; [by rewrite app_nil_r|].
    split; [by rewrite Hinv|]. exists []. by rewrite Ho, Hord, app_nil_r.
Qed.

(** In every run, whenever a dependency of a node has been executed, the
    node itself was executed strictly before it: [executeDag] runs the nodes
    in the reverse of a topological order. *)
Theorem executeDag_runs_dependents_first dag rootInputs context w n d :
  n ∈ DAGDefinition.nodes dag →
  d ∈ DAGNode.dependencies n →
  d ∈ DAGExecutionResult.executionOrder (executeDag executePrompt dag rootInputs context w).1 →
  occurs_before (DAGNode.id n) d
    (DAGExecutionResult.executionOrder (executeDag executePrompt dag rootInputs context w).1).
Proof.
  intros Hn Hd. unfold executeDag.
  destruct (executeDag_traced executePrompt dag rootInputs context w) as [[r calls] w'] eqn:Hrun.
  simpl. intros Hdone.
  destruct (validateDAG_outcome dag) as [Hvalid|(e & He & _)].
  2:{ destruct (executeDag_traced_rejected executePrompt dag rootInputs context w _ He)
        as (r' & w'' & Hrun' & _ & _ & Ho & _).
      rewrite Hrun' in Hrun. simplify_eq. rewrite Ho in Hdone. by apply elem_of_nil in Hdone. }
  destruct (executeDag_traced_prefix _ _ _ _ _ _ _ Hvalid Hrun)
    as (sorted & _ & _ & Hsort & _ & _ & rest' & Hprefix).
  destruct (validateDAG_Return dag Hvalid) as (Hnd & _).
  destruct (topologicalSort_Return _ _ Hsort) as (Hfol & Hnd' & Hnm & Hall).
  eapply occurs_before_prefix; [exact Hnd' | exact Hprefix | | exact Hdone].
  eapply sorted_dependency_later; [done | done | | by apply Hall | done].
  by apply nodeMap_lookup_node.
Qed.



End executeDag_order_facts.

(** * The general statements at sample inputs *)


Lemma executeDag_runs_dependents_first_witness :
  occurs_before "B" "A"
    (DAGExecutionResult.executionOrder
       (PromptRouter.executeDag (rt := Sample.runtime) (Sample.executor [])
          Sample.linear ∅ None 0%nat).1).
Proof.
  apply (executeDag_runs_dependents_first (rt := Sample.runtime) (Sample.executor [])
           Sample.linear ∅ None 0%nat (Sample.node "B" ["A"]) "A").
  - right. left.
  - left.
  - vm_compute. right. right. left.
Defined.

Lemma checkAccess_public_witness :
  PromptModule.checkAccess (rt := Sample.runtime) "anyone"
    (Sample.test_module (Sample.policy public None (Some 500%Z))) 7%nat
  = (Return tt, Sample.test_module (Sample.policy public None (Some 500%Z)), 7%nat).
Proof.
  apply (checkAccess_public (rt := Sample.runtime)). reflexivity.
Defined.

Lemma execute_success_counts_witness :
  PromptMetadata.executionCount
    (PromptModule.getMetadata
       (PromptModule.execute (ext := Sample.externals) (rt := Sample.runtime)
          {["text" := VStr "Hello world"]} (Sample.context "test-caller" 1000 "test-request-id")
          (Sample.test_module (Sample.policy public None None)) 0%nat).1.2)
  = (PromptMetadata.executionCount
       (PromptModule.getMetadata (Sample.test_module (Sample.policy public None None))) + 1)%Z.
Proof.
  eapply (execute_success_counts (ext := Sample.externals) (rt := Sample.runtime)
            {["text" := VStr "Hello world"]} (Sample.context "test-caller" 1000 "test-request-id")
            (Sample.test_module (Sample.policy public None None)) 0%nat).
  - vm_compute. reflexivity.
  - reflexivity.
Defined.

(** * [validateDAG] accepts every well-formed DAG *)

Section traversal_throws.
Import PromptRouter.
Variable nm : gmap string DAGNode.t.

Lemma visit_deps_throws_of fuel :
  (∀ nodeId st e, visit nm fuel nodeId st = Some (Throw e) → throw_cause nm (temp st) nodeId) →
  ∀ deps st e, visit_deps nm fuel deps st = Some (Throw e) →
    ∃ d, d ∈ deps ∧ throw_cause nm (temp st) d.
Proof.
  intros Hv deps. induction deps as [|dep deps IH]; intros st e Hd; simpl in Hd; [done|].
  destruct (visit nm fuel dep st) as [[s1|e1]|] eqn:E; try done.
  - destruct (IH _ _ Hd) as (d & Hin & Hcause).
    exists d. split; [by right|].
    destruct (visit_post_holds _ _ _ _ _ E) as (Ht & _). by rewrite <-Ht.
  - simplify_eq. exists dep. split; [by left|]. by eapply Hv.
Qed.

Lemma visit_throws fuel nodeId st e :
  visit nm fuel nodeId st = Some (Throw e) → throw_cause nm (temp st) nodeId.
Proof.
  revert nodeId st e. induction fuel as [|fuel IH]; intros nodeId st e.
  - simpl. repeat case_decide; try done.
    + intros _. right; left. by exists nodeId.
    + destruct (nm !! nodeId) eqn:E; [done|]. intros _. right; right. by exists nodeId.
  - rewrite visit_S. repeat case_decide; try done.
    + intros _. right; left. by exists nodeId.
    + destruct (nm !! nodeId) as [node|] eqn:Enode.
      2:{ intros _. right; right. by exists nodeId. }
      destruct (visit_deps _ _ _ _) as [[st2|e']|] eqn:E; try done.
      intros [= <-].
      destruct (visit_deps_throws_of fuel IH _ _ _ E) as (d & Hd & Hcause).
      assert (nm_edge nm nodeId d) as Hedge by (by exists node).
      destruct Hcause as [Hcyc|[(x & Hx & Hpath)|(y & Hpath & Hy)]].
      * by left.
      * simpl in Hx. apply elem_of_union in Hx as [->%elem_of_singleton|Hx].
        -- left. exists nodeId. eapply tc_rtc_r; [by apply tc_once|done].
        -- right; left. exists x. split; [done|]. by eapply rtc_l.
      * right; right. exists y. split; [by eapply rtc_l | done].
Qed.

Lemma visit_all_throws fuel ns st e :
  visit_all nm fuel ns st = Some (Throw e) →
  ∃ n, n ∈ ns ∧ throw_cause nm (temp st) (DAGNode.id n).
Proof.
  revert st. induction ns as [|node ns IH]; intros st Hrun; simpl in Hrun; [done|].
  case_decide.
  - destruct (IH _ Hrun) as (n & Hn & Hcause). exists n. split; [by right | done].
  - destruct (visit nm fuel (DAGNode.id node) st) as [[s1|e1]|] eqn:E; try done.
    + destruct (IH _ Hrun) as (n & Hn & Hcause). exists n. split; [by right|].
      destruct (visit_post_holds _ _ _ _ _ E) as (Ht & _). by rewrite <-Ht.
    + exists node. split; [by left|]. by eapply visit_throws.
Qed.

End traversal_throws.

Section validateDAG_accepts.
Import PromptRouter.

Lemma nm_edge_depends_on dag x y :
  nm_edge (nodeMap dag) x y → depends_on dag x y.
Proof.
  intros (n & Hn & Hy). exists n.
  split; [by eapply nodeMap_elem_of|]. split; [by eapply nodeMap_keys | done].
Qed.

Lemma nm_edge_depends_on_tc dag x y :
  tc (nm_edge (nodeMap dag)) x y → tc (depends_on dag) x y.
Proof.
  induction 1 as [a b Hab | a b c Hab _ IH].
  - apply tc_once. by apply nm_edge_depends_on.
  - eapply tc_l; [|exact IH]. by apply nm_edge_depends_on.
Qed.

Lemma nodeMap_reaches_known dag x y :
  ¬ has_missing_dependency dag →
  is_Some (nodeMap dag !! x) → rtc (nm_edge (nodeMap dag)) x y →
  is_Some (nodeMap dag !! y).
Proof.
  intros Hmiss Hx Hpath. induction Hpath as [|a b c Hab _ IH]; [done|].
  apply IH. destruct Hab as (n & Hn & Hb).
  apply elem_of_dom. rewrite nodeMap_dom. apply elem_of_list_to_set.
  destruct (decide (b ∈ node_ids (DAGDefinition.nodes dag))) as [|Hnot]; [done|].
  destruct Hmiss. exists n, b. split; [by eapply nodeMap_elem_of | done].
Qed.

(** The traversal throws only on a cycle, when every dependency is the id of
    a node. *)
Lemma topologicalSort_throws_on_cycle_only dag e :
  ¬ has_missing_dependency dag →
  topologicalSort dag = Throw e → has_cycle dag.
Proof.
  intros Hmiss. unfold topologicalSort.
  destruct (topologicalSort_fuel_is_Some dag) as [r Hr]. rewrite Hr. intros ->.
  unfold topologicalSort_fuel in Hr.
  destruct (visit_all _ _ _ _) as [[st|e']|] eqn:E; try done. simplify_eq.
  destruct (visit_all_throws _ _ _ _ _ E) as (n & Hn & [[c Hc]|[(x & Hx & _)|(y & Hpath & Hy)]]).
  - exists c. by apply nm_edge_depends_on_tc.
  - by apply elem_of_empty in Hx.
  - assert (is_Some (nodeMap dag !! DAGNode.id n)) as Hknown.
    { apply elem_of_dom. rewrite nodeMap_dom. apply elem_of_list_to_set.
      unfold node_ids. apply list_elem_of_fmap. by exists n. }
    destruct (nodeMap_reaches_known dag _ _ Hmiss Hknown Hpath) as [? Hsome]. congruence.
Qed.

Lemma check_all_dependencies_throws nodeIds ns e :
  for_of ns (check_dependencies nodeIds) tt = Throw e →
  ∃ n d, n ∈ ns ∧ d ∈ DAGNode.dependencies n ∧ d ∉ nodeIds.
Proof.
  induction ns as [|a ns IH]; simpl; [done|].
  destruct (check_dependencies_outcome nodeIds a) as [[-> _]|(d & -> & Hd & Hnot)]; simpl.
  - intros Hrest. destruct (IH Hrest) as (n & d & Hn & Hd & Hnot).
    exists n, d. split; [by right | done].
  - intros _. exists a, d. split; [by left | done].
Qed.

(** [validateDAG] lets a DAG through exactly when its node ids are distinct,
    every dependency is the id of a node, and no node depends on itself
    through a chain of dependencies. *)
Theorem validateDAG_accepts_iff dag :
  validateDAG dag = Return tt ↔
  ¬ has_duplicate_ids dag ∧ ¬ has_missing_dependency dag ∧ ¬ has_cycle dag.
Proof.
  split.
  - intros Hok. destruct (validateDAG_Return dag Hok) as (Hnd & Hmiss & Hcyc & _).
    split; [|done]. intros Hdup. by apply Hdup.
  - intros (Hdup & Hmiss & Hcyc).
    destruct (validateDAG_outcome dag) as [?|(e & He & _)]; [done|]. exfalso.
    unfold validateDAG in He. case_decide as Hsz.
    { apply Hdup. unfold has_duplicate_ids. rewrite <-size_list_to_set_NoDup.
      unfold node_ids. by rewrite length_fmap. }
    destruct (for_of (DAGDefinition.nodes dag) _ tt) as [[]|e'] eqn:Hloop; simpl in He.
    + unfold hasCycles in He.
      destruct (topologicalSort dag) as [sorted|e'] eqn:Hsort; [done|].
      apply Hcyc. by eapply topologicalSort_throws_on_cycle_only.
    + apply check_all_dependencies_throws in Hloop as (n & d & Hn & Hd & Hnot).
      apply Hmiss. exists n, d. split; [done|]. split; [done|].
      intros Hin. apply Hnot. by apply elem_of_list_to_set.
Qed.

End validateDAG_accepts.

(** * The metadata of a module: [updateMetadata] and [getMetadata] *)

Section updateMetadata_facts.
Import PromptModule.
Context `{rt : Runtime}.

Lemma updateMetadata_unfold newMetadata caller m w :
  updateMetadata newMetadata caller m w =
  if decide (caller ≠ PromptMetadata.author (metadata m)) then (Throw not_author_error, m, w)
  else (Return tt,
        {| definition := definition m;
           metadata := spread_metadata (metadata m) newMetadata (Date_now w).1;
           executionCount := executionCount m;
           lastExecutionTime := lastExecutionTime m |},
        (Date_now w).2).
Proof.
  unfold updateMetadata, run_bind, this, run_throw, now, update.
  case_decide; [done|]. by destruct (Date_now w).
Qed.

(** Only the author updates the metadata. [updateMetadata] returns exactly
    when the caller is the author recorded in the metadata; any other
    caller gets [ACCESS_DENIED], and then neither the module nor the world
    has changed: the clock is not even read. *)
Theorem updateMetadata_only_author newMetadata caller m w :
  (caller = PromptMetadata.author (metadata m) ↔
   (updateMetadata newMetadata caller m w).1.1 = Return tt) ∧
  (caller ≠ PromptMetadata.author (metadata m) →
   updateMetadata newMetadata caller m w =
   (Throw (PromptHubMCPError ACCESS_DENIED "Only the prompt author can update metadata"
             VUndefined), m, w)).
Proof.
  rewrite updateMetadata_unfold. split.
  - case_decide as Hne; simpl; split; done.
  - intros Hne. by case_decide.
Qed.

(** What [getMetadata] shows after the author updated the metadata. The
    execution count is still the count of the module, whatever count the
    update carried. The time of the last update is the time of the last
    execution once the module has executed, and the time of this update
    only before; the [updatedAt] the update carried is never shown. Every
    other property is the one of the update when it has it, and the former
    one otherwise. *)
Theorem getMetadata_after_updateMetadata newMetadata m w :
  let m' := (updateMetadata newMetadata (PromptMetadata.author (metadata m)) m w).1.2 in
  PromptMetadata.executionCount (getMetadata m') = PromptMetadata.executionCount (getMetadata m) ∧
  PromptMetadata.updatedAt (getMetadata m') =
    match truthy (lastExecutionTime m) with
    | Some executed => executed
    | None => (Date_now w).1
    end ∧
  PromptMetadata.author (getMetadata m') =
    default (PromptMetadata.author (metadata m)) (PartialMetadata.author newMetadata) ∧
  PromptMetadata.accessPolicy (getMetadata m') =
    default (PromptMetadata.accessPolicy (metadata m)) (PartialMetadata.accessPolicy newMetadata) ∧
  PromptMetadata.royaltyConfig (getMetadata m') =
    default (PromptMetadata.royaltyConfig (metadata m)) (PartialMetadata.royaltyConfig newMetadata) ∧
  PromptMetadata.id (getMetadata m') =
    default (PromptMetadata.id (metadata m)) (PartialMetadata.id newMetadata) ∧
  PromptMetadata.name (getMetadata m') =
    default (PromptMetadata.name (metadata m)) (PartialMetadata.name newMetadata) ∧
  PromptMetadata.version (getMetadata m') =
    default (PromptMetadata.version (metadata m)) (PartialMetadata.version newMetadata) ∧
  PromptMetadata.tags (getMetadata m') =
    default (PromptMetadata.tags (metadata m)) (PartialMetadata.tags newMetadata) ∧
  PromptMetadata.createdAt (getMetadata m') =
    default (PromptMetadata.createdAt (metadata m)) (PartialMetadata.createdAt newMetadata) ∧
  PromptMetadata.description (getMetadata m') =
    default (PromptMetadata.description (metadata m))
      (PartialMetadata.description newMetadata) ∧
  PromptMetadata.license (getMetadata m') =
    default (PromptMetadata.license (metadata m)) (PartialMetadata.license newMetadata) ∧
  PromptMetadata.averageRating (getMetadata m') =
    match PartialMetadata.averageRating newMetadata with
    | Some rating => Some rating
    | None => PromptMetadata.averageRating (metadata m)
    end.
Proof.
  intros m'. subst m'. rewrite updateMetadata_unfold.
  case_decide as Hne; [by destruct Hne|]. simpl.
  by repeat split.
Qed.

(** The author can hand the prompt over, and is locked out at once: after
    an update that names another author, a further update by the former
    author is refused and one by the new author is accepted. *)
Theorem updateMetadata_hands_over newMetadata newAuthor m w again w' :
  PartialMetadata.author newMetadata = Some newAuthor →
  newAuthor ≠ PromptMetadata.author (metadata m) →
  let former := PromptMetadata.author (metadata m) in
  let m' := (updateMetadata newMetadata former m w).1.2 in
  (updateMetadata newMetadata former m w).1.1 = Return tt ∧
  updateMetadata again former m' w' = (Throw not_author_error, m', w') ∧
  (updateMetadata again newAuthor m' w').1.1 = Return tt.
Proof.
  intros Hnew Hne former m'. subst former m'. rewrite !updateMetadata_unfold.
  case_decide as H; [by destruct H|]. simpl. rewrite Hnew. simpl.
  split; [done|]. split; by case_decide.
Qed.

End updateMetadata_facts.

(** The author of the test prompt hands it over to [bob]. *)
Lemma updateMetadata_hands_over_witness :
  let m' := (PromptModule.updateMetadata (rt := Sample.runtime) (Sample.new_author "bob")
               "test-author" (Sample.test_module (Sample.policy public None None)) 0%nat).1.2 in
  (PromptModule.updateMetadata (rt := Sample.runtime) (Sample.new_author "bob")
     "test-author" (Sample.test_module (Sample.policy public None None)) 0%nat).1.1 = Return tt ∧
  PromptModule.updateMetadata (rt := Sample.runtime) Sample.no_change "test-author" m' 1%nat
    = (Throw PromptModule.not_author_error, m', 1%nat) ∧
  (PromptModule.updateMetadata (rt := Sample.runtime) Sample.no_change "bob" m' 1%nat).1.1
    = Return tt.
Proof.
  apply (updateMetadata_hands_over (rt := Sample.runtime) (Sample.new_author "bob") "bob"
           (Sample.test_module (Sample.policy public None None)) 0%nat Sample.no_change 1%nat).
  - reflexivity.
  - discriminate.
Defined.


(** * The checks of [validateParameterValue] *)

Section validateParameterValue_facts.
Import PromptModule.
Context `{ext : Externals}.

Lemma violated_None bound test :
  violated bound test = None ↔ ∀ n, bound = Some n → test n = false.
Proof.
  unfold violated. destruct bound as [n|]; [|by split].
  destruct (test n) eqn:Ht; split; try done.
  - intros H. specialize (H n eq_refl). congruence.
  - intros _ n' [= <-]. done.
Qed.

Lemma truthy_Some bound n : truthy bound = Some n ↔ bound = Some n ∧ n ≠ 0%Z.
Proof.
  unfold truthy. destruct bound as [k|]; [|by split; [|intros []]].
  case_decide; split; try done.
  - intros [[= ->] ?]. done.
  - intros [= ->]. done.
  - intros [[= ->] ?]. done.
Qed.

Lemma violated_truthy_None bound test :
  violated (truthy bound) test = None ↔ ∀ n, bound = Some n → n ≠ 0%Z → test n = false.
Proof.
  rewrite violated_None. split.
  - intros H n Hb Hn. apply H. by apply truthy_Some.
  - intros H n [Hb Hn]%truthy_Some. by apply H.
Qed.

Lemma validate_string_accepts key s param :
  validate_string key s param = Return None ↔
  (∀ n, InputParameter.minLength param = Some n → n ≠ 0 → n ≤ Z.of_nat (utf16_length s))%Z ∧
  (∀ n, InputParameter.maxLength param = Some n → n ≠ 0 → Z.of_nat (utf16_length s) ≤ n)%Z ∧
  (∀ p, InputParameter.pattern param = Some p → p ≠ "" →
        RegExp_valid p = true ∧ RegExp_test p s = true) ∧
  (∀ allowed, InputParameter.enum param = Some allowed → s ∈ allowed).
Proof.
  unfold validate_string.
  assert (Henum :
    match InputParameter.enum param with
    | Some allowed =>
      if decide (s ∈ allowed) then Return None
      else Return (Some ("Parameter '" ++ key ++ "' must be one of: "
                         ++ String.concat ", " allowed))
    | None => Return None
    end = Return None ↔ ∀ allowed, InputParameter.enum param = Some allowed → s ∈ allowed).
  { destruct (InputParameter.enum param) as [allowed|]; [|by split].
    case_decide; split; try done.
    - by intros _ ? [= <-].
    - intros H'. by destruct H; apply H'. }
  destruct (violated (truthy (InputParameter.minLength param)) _) as [n|] eqn:Hmin.
  { split; [done|]. intros (Hlo & _).
    rewrite (proj2 (violated_truthy_None _ _)) in Hmin; [done|].
    intros k Hk Hk0. apply Z.ltb_ge. by apply Hlo. }
  rewrite violated_truthy_None in Hmin.
  destruct (violated (truthy (InputParameter.maxLength param)) _) as [n|] eqn:Hmax.
  { split; [done|]. intros (_ & Hhi & _).
    rewrite (proj2 (violated_truthy_None _ _)) in Hmax; [done|].
    intros k Hk Hk0. apply Z.ltb_ge. by apply Hhi. }
  rewrite violated_truthy_None in Hmax.
  assert (Hlo : ∀ n, InputParameter.minLength param = Some n → n ≠ 0%Z →
                     (n ≤ Z.of_nat (utf16_length s))%Z).
  { intros n Hn Hn0. apply Z.ltb_ge. by apply Hmin. }
  assert (Hhi : ∀ n, InputParameter.maxLength param = Some n → n ≠ 0%Z →
                     (Z.of_nat (utf16_length s) ≤ n)%Z).
  { intros n Hn Hn0. apply Z.ltb_ge. by apply Hmax. }
  destruct (InputParameter.pattern param) as [p|].
  2:{ rewrite Henum. split; [|by intros (_ & _ & _ & ?)].
      intros Hen. split; [exact Hlo|]. split; [exact Hhi|]. by split. }
  case_decide as Hp.
  { rewrite Henum. split; [|by intros (_ & _ & _ & ?)].
    intros Hen. split; [exact Hlo|]. split; [exact Hhi|]. split; [|exact Hen].
    by intros p0 [= <-] Hp0. }
  destruct (RegExp_valid p) eqn:Hvalid; simpl.
  2:{ split; [done|]. intros (_ & _ & Hpat & _).
      destruct (Hpat p eq_refl Hp). congruence. }
  destruct (RegExp_test p s) eqn:Htest; simpl.
  2:{ split; [done|]. intros (_ & _ & Hpat & _).
      destruct (Hpat p eq_refl Hp). congruence. }
  rewrite Henum. split; [|by intros (_ & _ & _ & ?)].
  intros Hen. split; [exact Hlo|]. split; [exact Hhi|]. split; [|exact Hen].
  by intros p0 [= <-] Hp0.
Qed.

Lemma validate_number_accepts key v param :
  validate_number key v param = None ↔
  (∀ n, InputParameter.minimum param = Some n → n ≤ v)%Z ∧
  (∀ n, InputParameter.maximum param = Some n → v ≤ n)%Z.
Proof.
  unfold validate_number.
  destruct (violated (InputParameter.minimum param) _) as [n|] eqn:Hmin.
  { split; [done|]. intros (Hlo & _).
    rewrite (proj2 (violated_None _ _)) in Hmin; [done|].
    intros k Hk. apply Z.ltb_ge. by apply Hlo. }
  rewrite violated_None in Hmin.
  destruct (violated (InputParameter.maximum param) _) as [n|] eqn:Hmax.
  { split; [done|]. intros (_ & Hhi).
    rewrite (proj2 (violated_None _ _)) in Hmax; [done|].
    intros k Hk. apply Z.ltb_ge. by apply Hhi. }
  rewrite violated_None in Hmax.
  split; [|done]. intros _. split; intros n Hn; apply Z.ltb_ge; auto.
Qed.

Lemma validate_array_accepts key xs param :
  validate_array key xs param = None ↔
  (∀ n, InputParameter.minItems param = Some n → n ≠ 0 → n ≤ Z.of_nat (length xs))%Z ∧
  (∀ n, InputParameter.maxItems param = Some n → n ≠ 0 → Z.of_nat (length xs) ≤ n)%Z.
Proof.
  unfold validate_array.
  destruct (violated (truthy (InputParameter.minItems param)) _) as [n|] eqn:Hmin.
  { split; [done|]. intros (Hlo & _).
    rewrite (proj2 (violated_truthy_None _ _)) in Hmin; [done|].
    intros k Hk Hk0. apply Z.ltb_ge. by apply Hlo. }
  rewrite violated_truthy_None in Hmin.
  destruct (violated (truthy (InputParameter.maxItems param)) _) as [n|] eqn:Hmax.
  { split; [done|]. intros (_ & Hhi).
    rewrite (proj2 (violated_truthy_None _ _)) in Hmax; [done|].
    intros k Hk Hk0. apply Z.ltb_ge. by apply Hhi. }
  rewrite violated_truthy_None in Hmax.
  split; [|done]. intros _. split; intros n Hn Hn0; apply Z.ltb_ge; auto.
Qed.

(** The one way [validateParameterValue] throws. *)
Lemma validate_string_Throw key s param e :
  validate_string key s param = Throw e ↔
  (∀ n, InputParameter.minLength param = Some n → n ≠ 0 → n ≤ Z.of_nat (utf16_length s))%Z ∧
  (∀ n, InputParameter.maxLength param = Some n → n ≠ 0 → Z.of_nat (utf16_length s) ≤ n)%Z ∧
  ∃ p, InputParameter.pattern param = Some p ∧ p ≠ "" ∧ RegExp_valid p = false ∧
       e = JsError "SyntaxError" (RegExp_error p "").
Proof.
  unfold validate_string.
  assert (Henum : ∀ e',
    match InputParameter.enum param with
    | Some allowed =>
      if decide (s ∈ allowed) then Return None
      else Return (Some ("Parameter '" ++ key ++ "' must be one of: "
                         ++ String.concat ", " allowed))
    | None => Return None
    end ≠ Throw e').
  { intros e'. destruct (InputParameter.enum param) as [allowed|]; [|done]. by case_decide. }
  destruct (violated (truthy (InputParameter.minLength param)) _) as [n|] eqn:Hmin.
  { split; [done|]. intros (Hlo & _).
    rewrite (proj2 (violated_truthy_None _ _)) in Hmin; [done|].
    intros k Hk Hk0. apply Z.ltb_ge. by apply Hlo. }
  rewrite violated_truthy_None in Hmin.
  destruct (violated (truthy (InputParameter.maxLength param)) _) as [n|] eqn:Hmax.
  { split; [done|]. intros (_ & Hhi & _).
    rewrite (proj2 (violated_truthy_None _ _)) in Hmax; [done|].
    intros k Hk Hk0. apply Z.ltb_ge. by apply Hhi. }
  rewrite violated_truthy_None in Hmax.
  assert (Hlo : ∀ n, InputParameter.minLength param = Some n → n ≠ 0%Z →
                     (n ≤ Z.of_nat (utf16_length s))%Z).
  { intros n Hn Hn0. apply Z.ltb_ge. by apply Hmin. }
  assert (Hhi : ∀ n, InputParameter.maxLength param = Some n → n ≠ 0%Z →
                     (Z.of_nat (utf16_length s) ≤ n)%Z).
  { intros n Hn Hn0. apply Z.ltb_ge. by apply Hmax. }
  destruct (InputParameter.pattern param) as [p|].
  2:{ split; [by intros ?%Henum | by intros (_ & _ & ? & ? & _)]. }
  case_decide as Hp.
  { split; [by intros ?%Henum|]. intros (_ & _ & p' & [= <-] & Hne & _). done. }
  destruct (RegExp_valid p) eqn:Hvalid; cbn [negb].
  - destruct (RegExp_test p s); cbn [negb].
    + split; [by intros ?%Henum|]. intros (_ & _ & p' & [= <-] & _ & Hbad & _). congruence.
    + split; [done|]. intros (_ & _ & p' & [= <-] & _ & Hbad & _). congruence.
  - split.
    + intros [= <-]. split; [exact Hlo|]. split; [exact Hhi|]. by exists p.
    + intros (_ & _ & p' & [= <-] & _ & _ & ->). done.
Qed.

Lemma validateParameterValue_Throw key value param e :
  validateParameterValue key value param = Throw e ↔
  ∃ s p, InputParameter.type param = PString ∧ value = VStr s ∧
         (∀ n, InputParameter.minLength param = Some n → n ≠ 0 →
               n ≤ Z.of_nat (utf16_length s))%Z ∧
         (∀ n, InputParameter.maxLength param = Some n → n ≠ 0 →
               Z.of_nat (utf16_length s) ≤ n)%Z ∧
         InputParameter.pattern param = Some p ∧ p ≠ "" ∧ RegExp_valid p = false ∧
         e = JsError "SyntaxError" (RegExp_error p "").
Proof.
  unfold validateParameterValue. split.
  - destruct (InputParameter.type param), value; try done.
    intros (Hlo & Hhi & p & Hp & Hne & Hbad & ->)%validate_string_Throw.
    by exists s, p.
  - intros (s & p & -> & -> & Hlo & Hhi & Hp & Hne & Hbad & ->).
    apply validate_string_Throw. split; [exact Hlo|]. split; [exact Hhi|]. by exists p.
Qed.

Lemma validateParameterValue_JsError key value param e :
  validateParameterValue key value param = Throw e → ∃ name message, e = JsError name message.
Proof.
  intros (? & ? & _ & _ & _ & _ & _ & _ & _ & ->)%validateParameterValue_Throw.
  by eexists _, _.
Qed.

Lemma validateParameterValue_conforms key value param :
  validateParameterValue key value param = Return None ↔ conforms value param.
Proof.
  unfold validateParameterValue, conforms.
  destruct (InputParameter.type param), value; try (split; done).
  - apply validate_string_accepts.
  - rewrite <- validate_number_accepts. split; [by intros [= ->] | by intros ->].
  - rewrite <- validate_array_accepts. split; [by intros [= ->] | by intros ->].
Qed.

(** [validateParameterValue] reports no error exactly for the values that
    conform to the parameter: the declared runtime type ([null], arrays and
    functions are not objects, and only an array is an array), and the
    constraints of that type, where the length of a string counts UTF-16
    code units and [NaN] is a number that passes any bounds. It throws
    exactly for a string within its length bounds that is checked against
    a pattern that is not a regular expression, and what it throws is the
    [SyntaxError] of the engine. *)
Theorem validateParameterValue_accepts_iff key value param :
  (validateParameterValue key value param = Return None ↔ conforms value param) ∧
  (∀ e, validateParameterValue key value param = Throw e ↔
        ∃ s p, InputParameter.type param = PString ∧ value = VStr s ∧
               (∀ n, InputParameter.minLength param = Some n → n ≠ 0 →
                     n ≤ Z.of_nat (utf16_length s))%Z ∧
               (∀ n, InputParameter.maxLength param = Some n → n ≠ 0 →
                     Z.of_nat (utf16_length s) ≤ n)%Z ∧
               InputParameter.pattern param = Some p ∧ p ≠ "" ∧ RegExp_valid p = false ∧
               e = JsError "SyntaxError" (RegExp_error p "")) ∧
  (InputParameter.type param = PNumber → value = VNaN →
   validateParameterValue key value param = Return None) ∧
  utf16_length "é" = 1%nat ∧ utf16_length "😀" = 2%nat.
Proof.
  split; [|split; [|split]].
  - apply validateParameterValue_conforms.
  - intros e. apply validateParameterValue_Throw.
  - intros Hty ->. unfold validateParameterValue. by rewrite Hty.
  - split; reflexivity.
Qed.

(** A length or item bound of [0] is no bound. [validateParameterValue]
    answers as it does for the parameter without its bounds that are [0]:
    a string parameter with [maxLength: 0] accepts a string of any length,
    and an array parameter with [maxItems: 0] an array of any size. The
    bounds [minimum] and [maximum] of a number are compared even when they
    are [0]. *)
Theorem validateParameterValue_zero_bound_is_no_bound key value param :
  validateParameterValue key value param =
  validateParameterValue key value
    (with_bounds param (nonzero (InputParameter.minLength param))
       (nonzero (InputParameter.maxLength param))
       (nonzero (InputParameter.minItems param))
       (nonzero (InputParameter.maxItems param))) ∧
  (∀ s, InputParameter.type param = PString →
        InputParameter.maxLength param = Some 0%Z →
        nonzero (InputParameter.minLength param) = None →
        InputParameter.pattern param = None → InputParameter.enum param = None →
        validateParameterValue key (VStr s) param = Return None) ∧
  (∀ v, InputParameter.type param = PNumber →
        InputParameter.maximum param = Some 0%Z → (0 < v)%Z →
        InputParameter.minimum param = None →
        validateParameterValue key (VNum v) param
        = Return (Some ("Parameter '" ++ key ++ "' must be at most 0"))).
Proof.
  assert (Ht : ∀ b, truthy (nonzero b) = truthy b).
  { intros [[| |]|]; done. }
  split; [|split].
  - unfold validateParameterValue, validate_string, validate_array. simpl.
    by rewrite !Ht.
  - intros s Hty Hmax Hmin Hpat Henum.
    apply validateParameterValue_conforms. unfold conforms. rewrite Hty.
    repeat split.
    + intros n Hn Hn0. rewrite Hn in Hmin. by destruct n.
    + intros n Hn Hn0. congruence.
    + congruence.
    + congruence.
    + congruence.
  - intros v Hty Hmax Hv Hmin.
    unfold validateParameterValue, validate_number. rewrite Hty, Hmin, Hmax. simpl.
    destruct (0 <? v)%Z eqn:Hlt; [done|]. apply Z.ltb_ge in Hlt. lia.
Qed.

End validateParameterValue_facts.

(** * The inputs of an execution: [prepareExecutionInputs] *)

Section prepareExecutionInputs_facts.
Import PromptModule.
Context `{ext : Externals}.

Lemma Object_set_lookup obj key value k :
  obj !! "__proto__" = None →
  Object_set obj key value !! k =
  if decide (key = "__proto__") then obj !! k else <[key := value]> obj !! k.
Proof.
  intros Hproto. unfold Object_set. case_decide as Hset.
  - destruct Hset as [-> _]. by rewrite decide_True.
  - case_decide as Hkey; [|done]. subst key. destruct Hset. done.
Qed.

Lemma prepare_fold_lookup (input : gmap string Value)
    (entries : list (string * InputParameter.t)) (acc : gmap string Value) key :
  NoDup entries.*1 →
  acc !! "__proto__" = None →
  foldl (λ executionInputs '(key, param),
           if key_in key input then Object_set executionInputs key (Object_get input key)
           else
             match InputParameter.default param with
             | VUndefined => executionInputs
             | d => Object_set executionInputs key d
             end) acc entries !! key =
  match list_to_map (M := gmap string InputParameter.t) entries !! key with
  | Some param =>
    if decide (key = "__proto__") then None
    else if key_in key input then Some (Object_get input key)
    else
      match InputParameter.default param with
      | VUndefined => acc !! key
      | d => Some d
      end
  | None => acc !! key
  end.
Proof.
  revert acc. induction entries as [|[k param] entries IH]; intros acc Hnd Hproto; [done|].
  apply NoDup_cons in Hnd as [Hk Hnd]. cbn [foldl].
  set (acc' := if key_in k input then Object_set acc k (Object_get input k)
               else match InputParameter.default param with
                    | VUndefined => acc
                    | d => Object_set acc k d
                    end).
  assert (Hacc : ∀ k', acc' !! k' =
            if decide (k = "__proto__") then acc !! k'
            else if decide (k' = k) then
              if key_in k input then Some (Object_get input k)
              else match InputParameter.default param with
                   | VUndefined => acc !! k'
                   | d => Some d
                   end
            else acc !! k').
  { intros k'. subst acc'.
    assert (Hset : ∀ v, Object_set acc k v !! k' =
              if decide (k = "__proto__") then acc !! k'
              else if decide (k' = k) then Some v else acc !! k').
    { intros v. rewrite Object_set_lookup by done.
      destruct (decide (k = "__proto__")); [done|].
      destruct (decide (k' = k)) as [->|Hk']; [by rewrite lookup_insert_eq|].
      rewrite lookup_insert_ne; [done | congruence]. }
    destruct (key_in k input); [apply Hset|].
    destruct (InputParameter.default param); try apply Hset.
    destruct (decide (k = "__proto__")); [done|]. by destruct (decide (k' = k)). }
  assert (Hproto' : acc' !! "__proto__" = None).
  { rewrite Hacc. destruct (decide (k = "__proto__")) as [Hp|Hp]; [done|].
    destruct (decide ("__proto__" = k)) as [Hq|Hq]; [|done]. by destruct Hp. }
  rewrite (IH acc' Hnd Hproto'). cbn [list_to_map foldr]. simpl.
  destruct (decide (k = key)) as [->|Hne].
  - rewrite lookup_insert_eq.
    rewrite (not_elem_of_list_to_map_1 entries key) by done.
    rewrite Hacc. destruct (decide (key = "__proto__")) as [Hp|Hp]; [by rewrite Hp|].
    by rewrite decide_True.
  - rewrite lookup_insert_ne by done.
    assert (Hsame : acc' !! key = acc !! key).
    { rewrite Hacc. destruct (decide (k = "__proto__")); [done|]. by rewrite decide_False. }
    by rewrite Hsame.
Qed.

(** The inputs a prompt is executed with. A key is among them only when
    it is a declared parameter, other than [__proto__]. Its value is the
    one read from the caller's input when the key is in the input: the
    caller's own value, even one that is [undefined], and, for a name that
    the input lacks and [Object.prototype] defines, the inherited member,
    whatever the default is. Otherwise it is the default of the parameter,
    and a parameter with neither is left out. A key the definition does not
    declare is dropped. *)
Theorem prepareExecutionInputs_lookup m input key :
  prepareExecutionInputs m input !! key =
    prepared_input (PromptDefinition.inputs (definition m)) input key ∧
  dom (prepareExecutionInputs m input) ⊆ dom (PromptDefinition.inputs (definition m)) ∧
  (∀ value, input !! key = Some value →
            is_Some (PromptDefinition.inputs (definition m) !! key) →
            key ≠ "__proto__" →
            prepareExecutionInputs m input !! key = Some value) ∧
  (∀ member, input !! key = None → Object_prototype key = Some member →
             is_Some (PromptDefinition.inputs (definition m) !! key) →
             key ≠ "__proto__" →
             prepareExecutionInputs m input !! key = Some member) ∧
  (∀ param, input !! key = None → Object_prototype key = None →
            PromptDefinition.inputs (definition m) !! key = Some param →
            prepareExecutionInputs m input !! key =
              match InputParameter.default param with
              | VUndefined => None
              | d => Some d
              end).
Proof.
  assert (Hlookup : ∀ k, prepareExecutionInputs m input !! k =
                         prepared_input (PromptDefinition.inputs (definition m)) input k).
  { intros k. unfold prepareExecutionInputs, prepared_input.
    rewrite prepare_fold_lookup by (apply Object_entries_NoDup || apply lookup_empty).
    rewrite Object_entries_to_map, lookup_empty.
    destruct (_ !! k) as [param|]; [|done].
    case_decide; [done|].
    destruct (key_in k input); [done|]. by destruct (InputParameter.default param). }
  split; [apply Hlookup|]. split; [|split; [|split]].
  - intros k [v Hv]%elem_of_dom. rewrite Hlookup in Hv. unfold prepared_input in Hv.
    apply elem_of_dom. by destruct (_ !! k).
  - intros value Hin [param Hparam] Hne. rewrite Hlookup. unfold prepared_input.
    rewrite Hparam, decide_False by done.
    by rewrite (key_in_present _ _ _ Hin), (Object_get_own _ _ _ Hin).
  - intros member Hnone Hin [param Hparam] Hne. rewrite Hlookup. unfold prepared_input.
    rewrite Hparam, decide_False by done.
    by rewrite (key_in_inherited _ _ _ Hin), (Object_get_inherited _ _ _ Hnone Hin).
  - intros param Hnone Hown Hparam. rewrite Hlookup. unfold prepared_input.
    rewrite Hparam. case_decide as Hp; [by rewrite Hp in Hown|].
    by rewrite (proj2 (key_in_false key input)).
Qed.

End prepareExecutionInputs_facts.

(** The parameter [toString], declared with a default, for an input that
    does not supply it: the execution input is the method every object
    inherits, not the default. *)
Lemma prepareExecutionInputs_lookup_witness :
  PromptModule.prepareExecutionInputs (ext := Sample.externals)
    (Sample.declaring {["toString" := Sample.parameter PString false (VStr "plain") None]})
    ∅ !! "toString"
  = Some (VFunction "toString").
Proof.
  apply (prepareExecutionInputs_lookup (ext := Sample.externals)
           (Sample.declaring {["toString" := Sample.parameter PString false (VStr "plain") None]})
           ∅ "toString").
  - reflexivity.
  - reflexivity.
  - eexists. reflexivity.
  - discriminate.
Defined.

(** * The stages of [execute] *)

Section execute_stage_facts.
Import PromptModule.
Context `{ext : Externals} `{rt : Runtime}.

(** The mock response of [executePrompt]. *)
Lemma executePrompt_eq renderedPrompt context executionId m w :
  executePrompt renderedPrompt context executionId m w =
  (Return (VObj (<["text" := VStr ("Mock response for prompt: "
                                    ++ PromptDefinition.name (definition m))]>
                (<["renderedPrompt" := VStr renderedPrompt]>
                (<["executionId" := VStr executionId]>
                (<["timestamp" := VNum (Date_now w).1]> ∅))))), m, (Date_now w).2).
Proof.
  unfold executePrompt, run_bind, this, now, run_ret. by destruct (Date_now w).
Qed.

(** The stages of the [try] block of [execute], one after the other. *)
Lemma execute_try_stages input context startTime executionId m w :
  execute_try input context startTime executionId m w =
  match ExecutionContextSchema_safeParse context with
  | ParseFailure issues =>
    (Throw (PromptHubMCPError VALIDATION_ERROR "Invalid execution context"
              (issues_value issues)), m, w)
  | ParseSuccess ctx =>
    match validateInput m input with
    | Throw e => (Throw e, m, w)
    | Return inputValidation =>
      if negb (ValidationResult.valid inputValidation) then
        (Throw (PromptHubMCPError INVALID_INPUT "Input validation failed"
                  (VArr (VStr <$> ValidationResult.errors inputValidation))), m, w)
      else
        match checkAccess (ExecutionContext.caller ctx) m w with
        | (Throw e, _, w1) => (Throw e, m, w1)
        | (Return _, _, w1) =>
          match renderTemplate m (prepareExecutionInputs m input) ∅ with
          | Throw e => (Throw e, m, w1)
          | Return renderedPrompt =>
            let output :=
              VObj (<["text" := VStr ("Mock response for prompt: "
                                       ++ PromptDefinition.name (definition m))]>
                   (<["renderedPrompt" := VStr renderedPrompt]>
                   (<["executionId" := VStr executionId]>
                   (<["timestamp" := VNum (Date_now w1).1]> ∅)))) in
            let w2 := (Date_now w1).2 in
            let w3 := (Date_now w2).2 in
            let executionTime := ((Date_now w3).1 - startTime)%Z in
            let m' := {| definition := definition m; metadata := metadata m;
                         executionCount := (executionCount m + 1)%Z;
                         lastExecutionTime := Some (Date_now w2).1 |} in
            match generateExecutionSignature m executionId input output ctx with
            | Throw e => (Throw e, m', (Date_now w3).2)
            | Return signature =>
              (Return
                 {| ModuleResponse.success := true;
                    ModuleResponse.output := output;
                    ModuleResponse.metadata :=
                      {| ModuleResponse.Metadata.executionId := executionId;
                         ModuleResponse.Metadata.promptId := PromptDefinition.id (definition m);
                         ModuleResponse.Metadata.version :=
                           PromptDefinition.version (definition m);
                         ModuleResponse.Metadata.executionTime := executionTime;
                         ModuleResponse.Metadata.timestamp := startTime;
                         ModuleResponse.Metadata.error := None |};
                    ModuleResponse.executionTime := executionTime;
                    ModuleResponse.signature := Some signature |},
               m', (Date_now w3).2)
            end
          end
        end
    end
  end.
Proof.
  unfold execute_try.
  destruct (ExecutionContextSchema_safeParse context) as [ctx|issues]; [|done].
  unfold run_bind at 1. unfold this at 1. cbn beta iota.
  unfold run_bind at 1. unfold run_lift at 1.
  destruct (validateInput m input) as [inputValidation|e]; [|done].
  destruct (ValidationResult.valid inputValidation); cbn [negb]; [|done].
  unfold run_bind at 1.
  pose proof (checkAccess_state (ExecutionContext.caller ctx) m w) as Hstate.
  destruct (checkAccess (ExecutionContext.caller ctx) m w) as [[[u|e] m1] w1];
    simpl in Hstate; subst m1; [|done].
  unfold resolveDependencies.
  unfold run_bind at 1. unfold run_lift at 1.
  destruct (renderTemplate m (prepareExecutionInputs m input) ∅) as [renderedPrompt|e]; [|done].
  unfold run_bind at 1. rewrite executePrompt_eq.
  unfold run_bind, update, now, run_lift, run_ret.
  destruct (Date_now w1) as [t1 w2]. cbn [fst snd].
  destruct (Date_now w2) as [t2 w3]. cbn [fst snd].
  destruct (Date_now w3) as [t3 w4]. cbn [fst snd].
  by destruct (generateExecutionSignature _ _ _ _ _).
Qed.

Lemma mock_output_no_bigint (text renderedPrompt executionId : string) (time : Z) :
  has_bigint (VObj (<["text" := VStr text]>
                   (<["renderedPrompt" := VStr renderedPrompt]>
                   (<["executionId" := VStr executionId]>
                   (<["timestamp" := VNum time]> ∅))))) = false.
Proof.
  apply has_bigint_VObj_false. intros k v Hk.
  repeat (apply lookup_insert_Some in Hk as [[_ <-]|[_ Hk]]; [done|]).
  by rewrite lookup_empty in Hk.
Qed.

(** The signature fails exactly when [JSON.stringify(input)] does, and
    with the same error. *)
Lemma generateExecutionSignature_stringify m executionId input output context :
  has_bigint output = false →
  match JSON_stringify (VObj input) with
  | Throw e => generateExecutionSignature m executionId input output context = Throw e
  | Return _ =>
    ∃ signature, generateExecutionSignature m executionId input output context = Return signature
  end.
Proof.
  intros Hout. unfold generateExecutionSignature.
  destruct (JSON_stringify (VObj input)) as [inputText|e]; [|done]. cbn [bind].
  destruct (JSON_stringify_no_bigint _ Hout) as [outputText ->]. cbn [bind].
  match goal with
  | |- context [JSON_stringify ?v] =>
    destruct (JSON_stringify_no_bigint v) as [text ->]; [|by eexists]
  end.
  apply has_bigint_VObj_false.
  intros k v Hk. repeat (apply lookup_insert_Some in Hk as [[_ <-]|[_ Hk]]; [done|]).
  by rewrite lookup_empty in Hk.
Qed.

(** C9. [execute] always returns a response and never throws: whatever its
    [try] block throws is caught and turned into a failed response, with
    [success = false], a [null] output, no signature, the error
    [{code, message, details}] built from what was thrown, and as
    [executionTime] the difference between the clock read in the [catch]
    block and the clock read at the start of the call. Every stage that
    fails makes the call fail in this way: a context the schema refuses
    ([VALIDATION_ERROR]), an input [validateInput] finds invalid
    ([INVALID_INPUT]) or on which it throws, a caller the access check
    denies, a template that does not render, an input the signature cannot
    serialize. The call succeeds only when every stage has passed. *)
Theorem execute_always_returns input context m w :
  ∃ response m' w',
    execute input context m w = (Return response, m', w') ∧
    ModuleResponse.Metadata.timestamp (ModuleResponse.metadata response) = (Date_now w).1 ∧
    ModuleResponse.Metadata.executionTime (ModuleResponse.metadata response)
      = ModuleResponse.executionTime response ∧
    (∀ e m1 w1,
       execute_try input context (Date_now w).1 (uuidv4 (Date_now w).2).1 m (after_start w)
         = (Throw e, m1, w1) →
       failed_with response e ∧
       w' = (Date_now w1).2 ∧
       ModuleResponse.executionTime response = ((Date_now w1).1 - (Date_now w).1)%Z) ∧
    (∀ issues,
       ExecutionContextSchema_safeParse context = ParseFailure issues →
       failed_with response
         (PromptHubMCPError VALIDATION_ERROR "Invalid execution context" (issues_value issues))) ∧
    (∀ ctx,
       ExecutionContextSchema_safeParse context = ParseSuccess ctx →
       (∀ e, validateInput m input = Throw e → failed_with response e) ∧
       (∀ inputValidation,
          validateInput m input = Return inputValidation →
          (ValidationResult.valid inputValidation = false →
           failed_with response
             (PromptHubMCPError INVALID_INPUT "Input validation failed"
                (VArr (VStr <$> ValidationResult.errors inputValidation)))) ∧
          (ValidationResult.valid inputValidation = true →
           (∀ e, (checkAccess (ExecutionContext.caller ctx) m (after_start w)).1.1 = Throw e →
                 failed_with response e) ∧
           ((checkAccess (ExecutionContext.caller ctx) m (after_start w)).1.1 = Return tt →
            (∀ e, renderTemplate m (prepareExecutionInputs m input) ∅ = Throw e →
                  failed_with response e) ∧
            (∀ renderedPrompt,
               renderTemplate m (prepareExecutionInputs m input) ∅ = Return renderedPrompt →
               (∀ e, JSON_stringify (VObj input) = Throw e → failed_with response e) ∧
               (∀ text, JSON_stringify (VObj input) = Return text →
                        ModuleResponse.success response = true))))))  ∧
    (ModuleResponse.success response = false →
       ModuleResponse.output response = VNull ∧
       ModuleResponse.signature response = None ∧
       (∃ e m1 w1,
          execute_try input context (Date_now w).1 (uuidv4 (Date_now w).2).1 m
            (uuidv4 (Date_now w).2).2 = (Throw e, m1, w1) ∧
          ModuleResponse.Metadata.error (ModuleResponse.metadata response)
            = Some (error_info e) ∧
          w' = (Date_now w1).2 ∧
          ModuleResponse.executionTime response = ((Date_now w1).1 - (Date_now w).1)%Z)) ∧
    (ModuleResponse.success response = true →
       ModuleResponse.Metadata.error (ModuleResponse.metadata response) = None ∧
       is_Some (ModuleResponse.signature response)).
Proof.
  rewrite execute_unfold. unfold after_start.
  destruct (execute_try _ _ _ _ m _) as [[[response|e] m1] w1] eqn:Htry.
  - destruct (execute_try_outcome _ _ _ _ _ _ _ _ _ Htry)
      as (_ & _ & _ & Hok & Herr & Hsig & Hts & Htime & _).
    exists response, m1, w1. split; [done|]. split; [done|]. split; [done|].
    split; [done|].
    rewrite execute_try_stages in Htry.
    split.
    { intros issues Hparse. rewrite Hparse in Htry. discriminate Htry. }
    split.
    { intros ctx Hparse. rewrite Hparse in Htry. split.
      { intros e Hv. rewrite Hv in Htry. discriminate Htry. }
      intros inputValidation Hv. rewrite Hv in Htry. split.
      { intros Hinvalid. rewrite Hinvalid in Htry. discriminate Htry. }
      intros Hvalid. rewrite Hvalid in Htry. cbn [negb] in Htry. split.
      { intros e Ha. destruct (checkAccess _ m _) as [[[u|e'] m2] w2]; [done|].
        discriminate Htry. }
      intros Ha. destruct (checkAccess _ m _) as [[[u|e'] m2] w2]; [|done]. split.
      { intros e Hr. rewrite Hr in Htry. discriminate Htry. }
      intros renderedPrompt Hr. split; [|done].
      intros e Hj. rewrite Hr in Htry. cbn zeta in Htry.
      match type of Htry with
      | context [generateExecutionSignature m ?id input ?out ctx] =>
        pose proof (generateExecutionSignature_stringify m id input out ctx
                      (mock_output_no_bigint _ _ _ _)) as Hs
      end.
      rewrite Hj in Hs. rewrite Hs in Htry. discriminate Htry. }
    split; [by rewrite Hok | done].
  - eexists _, _, _. split; [done|]. split; [done|]. split; [done|].
    split.
    { intros e' m2 w2 [= <- <- <-]. done. }
    rewrite execute_try_stages in Htry.
    split.
    { intros issues Hparse. rewrite Hparse in Htry. by injection Htry as <- _ _. }
    split.
    { intros ctx Hparse. rewrite Hparse in Htry. split.
      { intros e' Hv. rewrite Hv in Htry. by injection Htry as <- _ _. }
      intros inputValidation Hv. rewrite Hv in Htry. split.
      { intros Hinvalid. rewrite Hinvalid in Htry. by injection Htry as <- _ _. }
      intros Hvalid. rewrite Hvalid in Htry. cbn [negb] in Htry. split.
      { intros e' Ha. destruct (checkAccess _ m _) as [[[u|e''] m2] w2]; [done|].
        simpl in Ha. injection Ha as ->. by injection Htry as <- _ _. }
      intros Ha. destruct (checkAccess _ m _) as [[[u|e''] m2] w2]; [|done]. split.
      { intros e' Hr. rewrite Hr in Htry. by injection Htry as <- _ _. }
      intros renderedPrompt Hr. rewrite Hr in Htry. cbn zeta in Htry.
      match type of Htry with
      | context [generateExecutionSignature m ?id input ?out ctx] =>
        pose proof (generateExecutionSignature_stringify m id input out ctx
                      (mock_output_no_bigint _ _ _ _)) as Hs
      end.
      split.
      { intros e' Hj. rewrite Hj in Hs. rewrite Hs in Htry. by injection Htry as <- _ _. }
      intros text Hj. rewrite Hj in Hs. destruct Hs as [signature Hs].
      rewrite Hs in Htry. discriminate Htry. }
    split; [|done]. intros _. split; [done|]. split; [done|].
    exists e, m1, w1. by repeat split.
Qed.

(** Input validation comes before the access check. When the context is
    well formed and [validateInput] finds the input invalid, [execute]
    answers [INVALID_INPUT] with the validation errors as details,
    whatever the access policy is and whoever calls: the access check is
    not reached, the module is unchanged and the clock is read only for
    the two timestamps of the response. *)
Theorem execute_invalid_input input context m w inputValidation :
  schema_accepts context →
  validateInput m input = Return inputValidation →
  ValidationResult.valid inputValidation = false →
  ∃ response,
    execute input context m w = (Return response, m, (Date_now (after_start w)).2) ∧
    ModuleResponse.success response = false ∧
    ModuleResponse.Metadata.error (ModuleResponse.metadata response) =
      Some {| code := INVALID_INPUT; message := "Input validation failed";
              details := VArr (VStr <$> ValidationResult.errors inputValidation) |}.
Proof.
  intros [ctx Hctx] Hvalidate Hinvalid.
  rewrite execute_unfold, execute_try_stages, Hctx, Hvalidate, Hinvalid. cbn [negb].
  eexists. split; [done|]. done.
Qed.

(** A caller the access check denies gets [ACCESS_DENIED] from [execute],
    once the context and the input have passed validation. The template is
    not rendered and nothing is counted: the module is unchanged. *)
Theorem execute_access_denied input context ctx m w inputValidation :
  ExecutionContextSchema_safeParse context = ParseSuccess ctx →
  validateInput m input = Return inputValidation →
  ValidationResult.valid inputValidation = true →
  access_denied (ExecutionContext.caller ctx) m (after_start w) →
  ∃ response message w',
    execute input context m w = (Return response, m, w') ∧
    ModuleResponse.success response = false ∧
    ModuleResponse.output response = VNull ∧
    ModuleResponse.Metadata.error (ModuleResponse.metadata response) =
      Some {| code := ACCESS_DENIED; message := message; details := VUndefined |}.
Proof.
  intros Hctx Hvalidate Hvalid [message Hdenied].
  rewrite execute_unfold, execute_try_stages, Hctx, Hvalidate, Hvalid. cbn [negb].
  unfold after_start in Hdenied.
  destruct (checkAccess _ m _) as [[[u|e] m1] w1]; simpl in Hdenied; [done|].
  injection Hdenied as ->. by eexists _, message, _.
Qed.

(** The outcome of [execute] by the stages of its [try] block. Either a
    stage before the signature fails, and the module is untouched; or
    these stages pass and the signature fails on the serialization of the
    input, after the execution was counted; or every stage passes. *)
Lemma execute_by_stages input context m w response m' w' :
  execute input context m w = (Return response, m', w') →
  (ModuleResponse.success response = false ∧ m' = m ∧
   ¬ ∃ ctx inputValidation renderedPrompt,
       ExecutionContextSchema_safeParse context = ParseSuccess ctx ∧
       validateInput m input = Return inputValidation ∧
       ValidationResult.valid inputValidation = true ∧
       access_granted (ExecutionContext.caller ctx) m (after_start w) ∧
       renderTemplate m (prepareExecutionInputs m input) ∅ = Return renderedPrompt) ∨
  (∃ ctx inputValidation renderedPrompt,
     ExecutionContextSchema_safeParse context = ParseSuccess ctx ∧
     validateInput m input = Return inputValidation ∧
     ValidationResult.valid inputValidation = true ∧
     access_granted (ExecutionContext.caller ctx) m (after_start w) ∧
     renderTemplate m (prepareExecutionInputs m input) ∅ = Return renderedPrompt ∧
     executionCount m' = (executionCount m + 1)%Z ∧
     ((ModuleResponse.success response = false ∧
       ∃ e, JSON_stringify (VObj input) = Throw e) ∨
      (ModuleResponse.success response = true ∧
       ∃ serialized, JSON_stringify (VObj input) = Return serialized))).
Proof.
  rewrite execute_unfold, execute_try_stages. unfold access_granted, after_start.
  destruct (ExecutionContextSchema_safeParse context) as [ctx|issues].
  2:{ intros [= <- <- <-]. left. split; [done|]. split; [done|].
      by intros (? & ? & ? & ? & _). }
  destruct (validateInput m input) as [inputValidation|e].
  2:{ intros [= <- <- <-]. left. split; [done|]. split; [done|].
      by intros (? & ? & ? & _ & ? & _). }
  destruct (ValidationResult.valid inputValidation) eqn:Hvalid; cbn [negb].
  2:{ intros [= <- <- <-]. left. split; [done|]. split; [done|].
      intros (? & ? & ? & _ & [= <-] & ? & _). congruence. }
  destruct (checkAccess _ m _) as [[[[]|e] m1] w1] eqn:Haccess.
  2:{ intros [= <- <- <-]. left. split; [done|]. split; [done|].
      intros (? & ? & ? & [= <-] & _ & _ & Hgranted & _).
      by rewrite Haccess in Hgranted. }
  destruct (renderTemplate m (prepareExecutionInputs m input) ∅) as [renderedPrompt|e].
  2:{ intros [= <- <- <-]. left. split; [done|]. split; [done|].
      by intros (? & ? & ? & _ & _ & _ & _ & ?). }
  cbn zeta.
  match goal with
  | |- context [generateExecutionSignature m ?id input ?out ctx] =>
    pose proof (generateExecutionSignature_stringify m id input out ctx
                  (mock_output_no_bigint _ _ _ _)) as Hsig
  end.
  destruct (JSON_stringify (VObj input)) as [serialized|e].
  - destruct Hsig as [signature ->]. intros [= <- <- <-]. right.
    exists ctx, inputValidation, renderedPrompt. rewrite Haccess.
    split; [done|]. split; [done|]. split; [done|]. split; [done|]. split; [done|].
    split; [done|]. right. split; [done|]. by exists serialized.
  - rewrite Hsig. intros [= <- <- <-]. right.
    exists ctx, inputValidation, renderedPrompt. rewrite Haccess.
    split; [done|]. split; [done|]. split; [done|]. split; [done|]. split; [done|].
    split; [done|]. left. split; [done|]. by exists e.
Qed.

(** When a failed call is counted. A call that returns [success = false]
    leaves the execution count as it was, with one exception: when the
    context, the input, the access check and the rendering have all passed
    and [JSON.stringify] throws on the input while the signature is
    computed, the count has already gone up by one. *)
Theorem execute_failure_counts input context m w response m' w' :
  execute input context m w = (Return response, m', w') →
  ModuleResponse.success response = false →
  (PromptMetadata.executionCount (getMetadata m')
     = PromptMetadata.executionCount (getMetadata m) ∨
   PromptMetadata.executionCount (getMetadata m')
     = (PromptMetadata.executionCount (getMetadata m) + 1)%Z) ∧
  (PromptMetadata.executionCount (getMetadata m')
     = (PromptMetadata.executionCount (getMetadata m) + 1)%Z ↔
   ∃ ctx inputValidation renderedPrompt e,
     ExecutionContextSchema_safeParse context = ParseSuccess ctx ∧
     validateInput m input = Return inputValidation ∧
     ValidationResult.valid inputValidation = true ∧
     access_granted (ExecutionContext.caller ctx) m (after_start w) ∧
     renderTemplate m (prepareExecutionInputs m input) ∅ = Return renderedPrompt ∧
     JSON_stringify (VObj input) = Throw e) ∧
  (∀ serialized, JSON_stringify (VObj input) = Return serialized →
     PromptMetadata.executionCount (getMetadata m')
       = PromptMetadata.executionCount (getMetadata m)).
Proof.
  intros Hrun Hfail. cbn [getMetadata PromptMetadata.executionCount].
  destruct (execute_by_stages _ _ _ _ _ _ _ Hrun)
    as [(_ & -> & Hnot)
       |(ctx & inputValidation & renderedPrompt & Hctx & Hv & Hvalid & Hacc & Hrender & Hcount
         & [(_ & e & Hthrow)|(Hok & _)])]; [| |congruence].
  - split; [by left|]. split; [|done]. split; [lia|].
    intros (c & v & r & e & H1 & H2 & H3 & H4 & H5 & _). destruct Hnot. by exists c, v, r.
  - split; [by right|]. split.
    + split; [|done]. intros _. by exists ctx, inputValidation, renderedPrompt, e.
    + intros serialized Hs. congruence.
Qed.

(** When [execute] succeeds. The response is a success exactly when every
    stage passes: the schema accepts the context, [validateInput] finds the
    input valid, the access check grants the caller of the context, the
    template renders with the prepared inputs, and [JSON.stringify]
    serializes the input for the signature. *)
Theorem execute_succeeds_iff input context m w response m' w' :
  execute input context m w = (Return response, m', w') →
  ModuleResponse.success response = true ↔
  ∃ ctx inputValidation renderedPrompt serialized,
    ExecutionContextSchema_safeParse context = ParseSuccess ctx ∧
    validateInput m input = Return inputValidation ∧
    ValidationResult.valid inputValidation = true ∧
    access_granted (ExecutionContext.caller ctx) m (after_start w) ∧
    renderTemplate m (prepareExecutionInputs m input) ∅ = Return renderedPrompt ∧
    JSON_stringify (VObj input) = Return serialized.
Proof.
  intros Hrun.
  destruct (execute_by_stages _ _ _ _ _ _ _ Hrun)
    as [(Hfail & _ & Hnot)
       |(ctx & inputValidation & renderedPrompt & Hctx & Hv & Hvalid & Hacc & Hrender & _
         & [(Hfail & e & Hthrow)|(Hok & serialized & Hs)])].
  - split; [congruence|].
    intros (c & v & r & s & H1 & H2 & H3 & H4 & H5 & _). destruct Hnot. by exists c, v, r.
  - split; [congruence|].
    intros (c & v & r & s & _ & _ & _ & _ & _ & Hs). congruence.
  - split; [|done]. intros _. by exists ctx, inputValidation, renderedPrompt, serialized.
Qed.

(** What a successful [execute] returns and leaves behind. The output is
    the mock response: it names the prompt, carries the template rendered
    with the prepared inputs (the defaults applied, the undeclared keys
    dropped), and echoes the execution id of the response metadata. The
    response names the prompt and the version of the definition. The
    module remembers the time of the execution, read from the clock after
    the mock ran. *)
Theorem execute_success_response input context m w response m' w' :
  execute input context m w = (Return response, m', w') →
  ModuleResponse.success response = true →
  ∃ renderedPrompt timestamp executed,
    renderTemplate m (prepareExecutionInputs m input) ∅ = Return renderedPrompt ∧
    ModuleResponse.output response =
      VObj (<["text" := VStr ("Mock response for prompt: "
                               ++ PromptDefinition.name (definition m))]>
           (<["renderedPrompt" := VStr renderedPrompt]>
           (<["executionId" :=
                VStr (ModuleResponse.Metadata.executionId (ModuleResponse.metadata response))]>
           (<["timestamp" := VNum timestamp]> ∅)))) ∧
    ModuleResponse.Metadata.executionId (ModuleResponse.metadata response)
      = (uuidv4 (Date_now w).2).1 ∧
    ModuleResponse.Metadata.promptId (ModuleResponse.metadata response)
      = PromptDefinition.id (definition m) ∧
    ModuleResponse.Metadata.version (ModuleResponse.metadata response)
      = PromptDefinition.version (definition m) ∧
    ModuleResponse.Metadata.timestamp (ModuleResponse.metadata response) = (Date_now w).1 ∧
    lastExecutionTime m' = Some executed ∧
    PromptMetadata.updatedAt (getMetadata m') =
      (if decide (executed = 0%Z) then PromptMetadata.updatedAt (metadata m) else executed).
Proof.
  rewrite execute_unfold, execute_try_stages.
  destruct (ExecutionContextSchema_safeParse context) as [ctx|issues];
    [|by intros [= <- <- <-]].
  destruct (validateInput m input) as [inputValidation|e]; [|by intros [= <- <- <-]].
  destruct (ValidationResult.valid inputValidation); cbn [negb]; [|by intros [= <- <- <-]].
  destruct (checkAccess _ m _) as [[[[]|e] m1] w1]; [|by intros [= <- <- <-]].
  destruct (renderTemplate m (prepareExecutionInputs m input) ∅) as [renderedPrompt|e];
    [|by intros [= <- <- <-]].
  cbn zeta.
  destruct (generateExecutionSignature _ _ _ _ _) as [signature|e];
    [|by intros [= <- <- <-]].
  intros [= <- <- <-] _.
  eexists renderedPrompt, _, _. repeat split. simpl. unfold truthy.
  by case_decide.
Qed.

(** [execute] never touches the configuration of the prompt. After any
    call, successful or not, the definition, the royalty configuration, the
    access policy and the whole stored metadata are what they were; the
    only fields that move are the execution count, which goes up by one or
    stays, and the time of the last execution, which changes only when the
    count goes up. *)
Theorem execute_keeps_configuration input context m w :
  let m' := (execute input context m w).1.2 in
  getDefinition m' = getDefinition m ∧
  getRoyaltyInfo m' = getRoyaltyInfo m ∧
  getAccessControl m' = getAccessControl m ∧
  metadata m' = metadata m ∧
  (executionCount m' = executionCount m ∨ executionCount m' = (executionCount m + 1)%Z) ∧
  (executionCount m' = executionCount m → m' = m).
Proof.
  intros m'. subst m'. rewrite execute_unfold.
  destruct (execute_try _ _ _ _ m _) as [[c m1] w1] eqn:Htry.
  pose proof (execute_try_outcome _ _ _ _ _ _ _ _ _ Htry) as (Hdef & Hmd & Hc).
  assert (Hm1 : (executionCount m1 = executionCount m ∨
                 executionCount m1 = (executionCount m + 1)%Z) ∧
                (executionCount m1 = executionCount m → m1 = m)).
  { destruct c as [response|e].
    - destruct Hc as (Hcount & _). split; [by right | lia].
    - destruct Hc as [->|(Hcount & _)]; [by split; [left|] | split; [by right | lia]]. }
  unfold getDefinition, getRoyaltyInfo, getAccessControl.
  destruct c; simpl; rewrite ?Hdef, ?Hmd; by repeat split; apply Hm1.
Qed.

End execute_stage_facts.

Section execute_error_facts.
Import PromptModule.
Context `{ext : Externals} `{rt : Runtime}.

(** What the stages of [execute] throw. *)
Lemma check_parameters_Throw input entries errors e :
  for_of entries (check_parameter input) errors = Throw e →
  ∃ name message, e = JsError name message.
Proof.
  revert errors. induction entries as [|[key param] entries IH]; intros errors;
    cbn [for_of]; [done|].
  destruct (check_parameter input (key, param) errors) as [more|e'] eqn:Hcheck; simpl.
  - apply IH.
  - intros [= <-]. unfold check_parameter in Hcheck.
    destruct (_ && _); [done|]. destruct (key_in key input); [|done].
    destruct (validateParameterValue key _ param) as [[?|]|e2] eqn:Hv; simpl in Hcheck;
      try done.
    injection Hcheck as <-. by eapply validateParameterValue_JsError.
Qed.

Lemma validateInput_Throw m input e :
  validateInput m input = Throw e → ∃ name message, e = JsError name message.
Proof.
  unfold validateInput.
  destruct (for_of _ (check_parameter input) []) as [errors|e'] eqn:Hloop; [done|].
  intros [= <-]. by eapply check_parameters_Throw.
Qed.

Lemma JSON_stringify_Throw v e : JSON_stringify v = Throw e → e = bigint_error.
Proof. unfold JSON_stringify. destruct v; try done; destruct (has_bigint _); congruence. Qed.

Lemma generateExecutionSignature_Throw m executionId input output context e :
  generateExecutionSignature m executionId input output context = Throw e →
  e = bigint_error.
Proof.
  unfold generateExecutionSignature.
  destruct (JSON_stringify (VObj input)) as [inputText|e1] eqn:H1; cbn [bind].
  2:{ intros [= <-]. by eapply JSON_stringify_Throw. }
  destruct (JSON_stringify output) as [outputText|e2] eqn:H2; cbn [bind].
  2:{ intros [= <-]. by eapply JSON_stringify_Throw. }
  match goal with
  | |- bind (JSON_stringify ?v) _ = _ → _ =>
    destruct (JSON_stringify v) as [text|e3] eqn:H3; cbn [bind]
  end.
  - intros H. discriminate H.
  - intros [= <-]. by eapply JSON_stringify_Throw.
Qed.

Lemma replace_placeholders_Throw entries rendered e :
  for_of entries replace_placeholder rendered = Throw e →
  ∃ name message, e = JsError name message.
Proof.
  revert rendered. induction entries as [|[key value] entries IH]; intros rendered;
    cbn [for_of]; [done|].
  destruct (replace_placeholder (key, value) rendered) as [next|e'] eqn:Hstep; simpl.
  - apply IH.
  - intros [= <-]. unfold replace_placeholder in Hstep.
    assert (Hvalue : ∀ stringValue : string,
              (if RegExp_valid ("{{" ++ key ++ "}}")
               then Return (RegExp_replace_all ("{{" ++ key ++ "}}") rendered stringValue)
               else Throw (JsError "SyntaxError" (RegExp_error ("{{" ++ key ++ "}}") "g")))
              = Throw e' → ∃ name message, e' = JsError name message).
    { intros stringValue. destruct (RegExp_valid _); [done|]. intros [= <-]. by eexists _, _. }
    match type of Hstep with
    | bind ?c _ = _ => destruct c as [stringValue|e2] eqn:Hc
    end; cbn [bind] in Hstep; [by eapply Hvalue|].
    injection Hstep as <-.
    destruct value; try done.
    all: destruct (JSON_stringify _) as [text|e3] eqn:Hj; cbn [bind] in Hc; [done|].
    all: injection Hc as <-; apply JSON_stringify_Throw in Hj as ->; by eexists _, _.
Qed.

Lemma renderTemplate_Throw m inputs dependencies e :
  renderTemplate m inputs dependencies = Throw e → ∃ name message, e = JsError name message.
Proof.
  unfold renderTemplate.
  destruct (for_of (Object_entries inputs) _ _) as [rendered|e'] eqn:Hfirst; simpl.
  - apply replace_placeholders_Throw.
  - intros [= <-]. by eapply replace_placeholders_Throw.
Qed.

Lemma checkAccess_Throw caller m w e m1 w1 :
  checkAccess caller m w = (Throw e, m1, w1) →
  ∃ message, e = PromptHubMCPError ACCESS_DENIED message VUndefined.
Proof.
  assert (Hexp : ∀ policy, check_expiration policy m w = (Throw e, m1, w1) →
                           ∃ message, e = PromptHubMCPError ACCESS_DENIED message VUndefined).
  { intros policy. rewrite check_expiration_unfold.
    destruct (truthy _); [|done]. destruct (_ <? _)%Z; [|done].
    intros [= <- _ _]. by eexists. }
  unfold checkAccess, run_bind, this, run_ret, run_throw.
  destruct (AccessPolicy.type _); try done; try apply Hexp.
  - case_decide; [|done]. intros [= <- _ _]. by eexists.
  - destruct (AccessPolicy.whitelist _); [|apply Hexp].
    case_decide; [apply Hexp|]. intros [= <- _ _]. by eexists.
Qed.

(** The error codes of [execute]. A failed call reports one of four codes:
    [VALIDATION_ERROR], exactly when the schema refuses the context;
    [INVALID_INPUT], with the message [Input validation failed];
    [ACCESS_DENIED], from the access check; and [EXECUTION_FAILED] for any
    error that is not a [PromptHubMCPError]. A response carries an error
    exactly when it is not a success. *)
Theorem execute_error_codes input context m w response m' w' :
  execute input context m w = (Return response, m', w') →
  (ModuleResponse.success response = false ↔
   is_Some (ModuleResponse.Metadata.error (ModuleResponse.metadata response))) ∧
  ∀ e, ModuleResponse.Metadata.error (ModuleResponse.metadata response) = Some e →
       (code e = VALIDATION_ERROR ∧ ¬ schema_accepts context) ∨
       (schema_accepts context ∧
        ((code e = INVALID_INPUT ∧ message e = "Input validation failed") ∨
         code e = ACCESS_DENIED ∨ code e = EXECUTION_FAILED)).
Proof.
  rewrite execute_unfold.
  destruct (execute_try _ _ _ _ m _) as [[[r|thrown] m1] w1] eqn:Htry.
  { intros [= <- <- <-].
    destruct (execute_try_outcome _ _ _ _ _ _ _ _ _ Htry) as (_ & _ & _ & Hok & Herr & _).
    rewrite Hok, Herr. split; [split; [done | by intros [? ?]] | done]. }
  intros [= <- <- <-]. simpl. split; [split; [by eexists | done]|].
  intros e [= <-]. rewrite execute_try_stages in Htry. unfold schema_accepts.
  destruct (ExecutionContextSchema_safeParse context) as [ctx|issues].
  2:{ injection Htry as <- _ _. left. split; [done|]. by intros [? ?]. }
  right. split; [by eexists|].
  destruct (validateInput m input) as [inputValidation|e'] eqn:Hvalidate.
  2:{ injection Htry as <- _ _.
      destruct (validateInput_Throw _ _ _ Hvalidate) as (? & ? & ->). by right; right. }
  destruct (ValidationResult.valid inputValidation); cbn [negb] in Htry.
  2:{ injection Htry as <- _ _. by left. }
  destruct (checkAccess _ m _) as [[[[]|e'] m2] w2] eqn:Haccess.
  2:{ injection Htry as <- _ _.
      destruct (checkAccess_Throw _ _ _ _ _ _ Haccess) as (? & ->). by right; left. }
  destruct (renderTemplate m _ ∅) as [renderedPrompt|e'] eqn:Hrender.
  2:{ injection Htry as <- _ _.
      destruct (renderTemplate_Throw _ _ _ _ Hrender) as (? & ? & ->). by right; right. }
  cbn zeta in Htry.
  destruct (generateExecutionSignature _ _ _ _ _) as [signature|e'] eqn:Hsig;
    [discriminate Htry|].
  injection Htry as <- _ _. apply generateExecutionSignature_Throw in Hsig as ->.
  by right; right.
Qed.

End execute_error_facts.

(** An empty input for the test prompt, under a private policy. *)
Lemma execute_invalid_input_witness :
  ∃ response,
    PromptModule.execute (ext := Sample.externals) (rt := Sample.runtime)
      ∅ (Sample.context "test-caller" 1000 "test-request-id")
      (Sample.test_module (Sample.policy private None None)) 0%nat
    = (Return response, Sample.test_module (Sample.policy private None None), 3%nat) ∧
    ModuleResponse.success response = false ∧
    ModuleResponse.Metadata.error (ModuleResponse.metadata response) =
      Some {| code := INVALID_INPUT; message := "Input validation failed";
              details := VArr [VStr "Required parameter 'text' is missing"] |}.
Proof.
  apply (execute_invalid_input (ext := Sample.externals) (rt := Sample.runtime)
           ∅ (Sample.context "test-caller" 1000 "test-request-id")
           (Sample.test_module (Sample.policy private None None)) 0%nat
           {| ValidationResult.valid := false;
              ValidationResult.errors := ["Required parameter 'text' is missing"];
              ValidationResult.warnings := [] |}).
  - eexists. vm_compute. reflexivity.
  - vm_compute. reflexivity.
  - reflexivity.
Defined.

(** A caller who is not the author of a private prompt. *)
Lemma execute_access_denied_witness :
  ∃ response message w',
    PromptModule.execute (ext := Sample.externals) (rt := Sample.runtime)
      {["text" := VStr "Hello world"]} (Sample.context "someone-else" 1000 "test-request-id")
      (Sample.test_module (Sample.policy private None None)) 0%nat
    = (Return response, Sample.test_module (Sample.policy private None None), w') ∧
    ModuleResponse.success response = false ∧
    ModuleResponse.output response = VNull ∧
    ModuleResponse.Metadata.error (ModuleResponse.metadata response) =
      Some {| code := ACCESS_DENIED; message := message; details := VUndefined |}.
Proof.
  eapply (execute_access_denied (ext := Sample.externals) (rt := Sample.runtime)
            {["text" := VStr "Hello world"]}
            (Sample.context "someone-else" 1000 "test-request-id")).
  - vm_compute. reflexivity.
  - vm_compute. reflexivity.
  - reflexivity.
  - eexists. vm_compute. reflexivity.
Defined.

(** The call of C10: everything passes but the serialization of the
    input, and the failed call is counted. *)
Lemma execute_failure_counts_witness :
  PromptMetadata.executionCount
    (PromptModule.getMetadata
       (PromptModule.execute (ext := Sample.externals) (rt := Sample.runtime)
          (<["extra" := VBigInt 10]> {["text" := VStr "Hello world"]})
          (Sample.context "test-caller" 1000 "test-request-id")
          (Sample.test_module (Sample.policy public None None)) 0%nat).1.2)
  = (PromptMetadata.executionCount
       (PromptModule.getMetadata (Sample.test_module (Sample.policy public None None))) + 1)%Z ∧
  PromptMetadata.executionCount
    (PromptModule.getMetadata
       (PromptModule.execute (ext := Sample.externals) (rt := Sample.runtime)
          {["format" := VStr "json"]} (Sample.context "test-caller" 1000 "test-request-id")
          (Sample.test_module (Sample.policy public None None)) 0%nat).1.2)
  = PromptMetadata.executionCount
      (PromptModule.getMetadata (Sample.test_module (Sample.policy public None None))).
Proof.
  split.
  - edestruct (execute_failure_counts (ext := Sample.externals) (rt := Sample.runtime)
                 (<["extra" := VBigInt 10]> {["text" := VStr "Hello world"]}
                    : gmap string Value)
                 (Sample.context "test-caller" 1000 "test-request-id")
                 (Sample.test_module (Sample.policy public None None)) 0%nat)
      as (_ & Hcounted & _); [vm_compute; reflexivity | reflexivity |].
    apply Hcounted. eexists _, _, _, _.
    split; [vm_compute; reflexivity|]. split; [vm_compute; reflexivity|].
    split; [reflexivity|]. split; [vm_compute; reflexivity|].
    split; [vm_compute; reflexivity|]. vm_compute. reflexivity.
  - edestruct (execute_failure_counts (ext := Sample.externals) (rt := Sample.runtime)
                 ({["format" := VStr "json"]} : gmap string Value)
                 (Sample.context "test-caller" 1000 "test-request-id")
                 (Sample.test_module (Sample.policy public None None)) 0%nat)
      as (_ & _ & Hsame); [vm_compute; reflexivity | reflexivity |].
    eapply Hsame. vm_compute. reflexivity.
Defined.

(** A valid call of the public test prompt. *)
Lemma execute_succeeds_iff_witness :
  ∃ response,
    (PromptModule.execute (ext := Sample.externals) (rt := Sample.runtime)
       {["text" := VStr "Hello world"]} (Sample.context "test-caller" 1000 "test-request-id")
       (Sample.test_module (Sample.policy public None None)) 0%nat).1.1 = Return response ∧
    (ModuleResponse.success response = true ↔
     ∃ ctx inputValidation renderedPrompt serialized,
       ExecutionContextSchema_safeParse (Sample.context "test-caller" 1000 "test-request-id")
         = ParseSuccess ctx ∧
       PromptModule.validateInput (ext := Sample.externals)
         (Sample.test_module (Sample.policy public None None)) {["text" := VStr "Hello world"]}
         = Return inputValidation ∧
       ValidationResult.valid inputValidation = true ∧
       access_granted (rt := Sample.runtime) (ExecutionContext.caller ctx)
         (Sample.test_module (Sample.policy public None None))
         (after_start (rt := Sample.runtime) 0%nat) ∧
       PromptModule.renderTemplate (ext := Sample.externals)
         (Sample.test_module (Sample.policy public None None))
         (PromptModule.prepareExecutionInputs (ext := Sample.externals)
            (Sample.test_module (Sample.policy public None None))
            {["text" := VStr "Hello world"]}) ∅ = Return renderedPrompt ∧
       JSON_stringify (ext := Sample.externals) (VObj {["text" := VStr "Hello world"]})
         = Return serialized).
Proof.
  eexists. split; [vm_compute; reflexivity|].
  eapply (execute_succeeds_iff (ext := Sample.externals) (rt := Sample.runtime)
            {["text" := VStr "Hello world"]} (Sample.context "test-caller" 1000 "test-request-id")
            (Sample.test_module (Sample.policy public None None)) 0%nat).
  vm_compute. reflexivity.
Defined.

(** The response to a valid call of the public test prompt. *)
Lemma execute_success_response_witness :
  ∃ response m' renderedPrompt timestamp executed,
    (PromptModule.execute (ext := Sample.externals) (rt := Sample.runtime)
       {["text" := VStr "Hello world"]} (Sample.context "test-caller" 1000 "test-request-id")
       (Sample.test_module (Sample.policy public None None)) 0%nat).1 = (Return response, m') ∧
    PromptModule.renderTemplate (ext := Sample.externals)
      (Sample.test_module (Sample.policy public None None))
      (PromptModule.prepareExecutionInputs (ext := Sample.externals)
         (Sample.test_module (Sample.policy public None None))
         {["text" := VStr "Hello world"]}) ∅ = Return renderedPrompt ∧
    ModuleResponse.output response =
      VObj (<["text" := VStr "Mock response for prompt: Test Prompt"]>
           (<["renderedPrompt" := VStr renderedPrompt]>
           (<["executionId" :=
                VStr (ModuleResponse.Metadata.executionId (ModuleResponse.metadata response))]>
           (<["timestamp" := VNum timestamp]> ∅)))) ∧
    ModuleResponse.Metadata.promptId (ModuleResponse.metadata response) = "test-prompt" ∧
    PromptModule.lastExecutionTime m' = Some executed ∧
    PromptMetadata.updatedAt (PromptModule.getMetadata m') = executed.
Proof.
  edestruct (execute_success_response (ext := Sample.externals) (rt := Sample.runtime)
               ({["text" := VStr "Hello world"]} : gmap string Value)
               (Sample.context "test-caller" 1000 "test-request-id")
               (Sample.test_module (Sample.policy public None None)) 0%nat)
    as (renderedPrompt & timestamp & executed & Hrender & Hout & _ & Hid & _ & _ & Hlast & Hupd);
    [vm_compute; reflexivity | reflexivity |].
  eexists _, _, renderedPrompt, timestamp, executed.
  split; [vm_compute; reflexivity|]. split; [exact Hrender|]. split; [exact Hout|].
  split; [exact Hid|]. split; [exact Hlast|].
  rewrite Hupd. vm_compute in Hlast. injection Hlast as <-. reflexivity.
Defined.

(** A context that is not an object. *)
Lemma execute_error_codes_witness :
  ∃ response,
    (PromptModule.execute (ext := Sample.externals) (rt := Sample.runtime)
       {["text" := VStr "Hello world"]} (VStr "not a context")
       (Sample.test_module (Sample.policy public None None)) 0%nat).1.1 = Return response ∧
    (ModuleResponse.success response = false ↔
     is_Some (ModuleResponse.Metadata.error (ModuleResponse.metadata response))) ∧
    ∀ e, ModuleResponse.Metadata.error (ModuleResponse.metadata response) = Some e →
         (code e = VALIDATION_ERROR ∧ ¬ schema_accepts (VStr "not a context")) ∨
         (schema_accepts (VStr "not a context") ∧
          ((code e = INVALID_INPUT ∧ message e = "Input validation failed") ∨
           code e = ACCESS_DENIED ∨ code e = EXECUTION_FAILED)).
Proof.
  eexists. split; [vm_compute; reflexivity|].
  eapply (execute_error_codes (ext := Sample.externals) (rt := Sample.runtime)
            {["text" := VStr "Hello world"]} (VStr "not a context")
            (Sample.test_module (Sample.policy public None None)) 0%nat).
  vm_compute. reflexivity.
Defined.

(** * The search index: [buildSearchIndex] and [initialize] *)

Section tag_index_facts.
Import Router.

Lemma index_tag_listed prompt tagIndex tag tag' :
  listed (index_tag prompt tagIndex tag) tag' =
  (listed tagIndex tag' ++ if decide (tag = tag') then [prompt] else [])%list.
Proof.
  unfold listed, index_tag. case_decide as Heq.
  - subst. by rewrite lookup_insert_eq.
  - rewrite lookup_insert_ne by done. by rewrite app_nil_r.
Qed.

Lemma index_prompt_listed prompt tagIndex tag tags :
  listed (foldl (index_tag prompt) tagIndex tags) tag =
  (listed tagIndex tag ++ replicate (occurrences tag tags) prompt)%list.
Proof.
  revert tagIndex. induction tags as [|t tags IH]; intros tagIndex.
  - by rewrite app_nil_r.
  - cbn [foldl]. rewrite IH, index_tag_listed. unfold occurrences. cbn [List.filter].
    rewrite <- app_assoc. f_equal.
    case_decide; case_bool_decide; try done.
Qed.

Lemma tag_index_listed_from tagIndex allPrompts tag :
  listed (foldl index_prompt tagIndex allPrompts) tag =
  (listed tagIndex tag ++
   allPrompts ≫= λ prompt, replicate (occurrences tag (PromptMetadata.tags prompt)) prompt)%list.
Proof.
  revert tagIndex. induction allPrompts as [|p ps IH]; intros tagIndex.
  - by rewrite app_nil_r.
  - cbn [foldl]. rewrite IH. unfold index_prompt. rewrite index_prompt_listed.
    by rewrite <- app_assoc.
Qed.

(** No entry of the index is an empty list. *)
Lemma index_tag_nonempty prompt tagIndex tag :
  (∀ t l, tagIndex !! t = Some l → l ≠ []) →
  ∀ t l, index_tag prompt tagIndex tag !! t = Some l → l ≠ [].
Proof.
  intros Hne t l. unfold index_tag.
  destruct (decide (tag = t)) as [->|Hneq].
  - rewrite lookup_insert_eq. intros [= <-]. by destruct (default _ _).
  - rewrite lookup_insert_ne by done. apply Hne.
Qed.

Lemma tag_index_nonempty_from tagIndex allPrompts :
  (∀ t l, tagIndex !! t = Some l → l ≠ []) →
  ∀ t l, foldl index_prompt tagIndex allPrompts !! t = Some l → l ≠ [].
Proof.
  revert tagIndex. induction allPrompts as [|p ps IH]; intros tagIndex Hne; [done|].
  cbn [foldl]. apply IH. unfold index_prompt.
  generalize (PromptMetadata.tags p). intros tags. revert tagIndex Hne.
  induction tags as [|t tags IHt]; intros tagIndex Hne; [done|].
  cbn [foldl]. apply IHt. by apply index_tag_nonempty.
Qed.

Lemma occurrences_pos tag tags : (0 < occurrences tag tags)%nat ↔ tag ∈ tags.
Proof.
  unfold occurrences. induction tags as [|t tags IH]; cbn [List.filter].
  - split; [simpl; lia | by intros ?%elem_of_nil].
  - rewrite elem_of_cons. case_bool_decide; simpl; [split; [auto | lia]|].
    rewrite IH. split; [auto | by intros [->|]].
Qed.

Lemma occurrences_NoDup tag tags :
  NoDup tags → occurrences tag tags = if decide (tag ∈ tags) then 1%nat else 0%nat.
Proof.
  unfold occurrences. induction 1 as [|t tags Ht Hnd IH]; cbn [List.filter].
  - by case_decide as H; [apply elem_of_nil in H|].
  - case_bool_decide as Heq; simpl.
    + subst. rewrite IH. rewrite decide_False by done.
      by rewrite decide_True by apply list_elem_of_here.
    + rewrite IH. case_decide as Hin.
      * by rewrite decide_True by by apply list_elem_of_further.
      * rewrite decide_False; [done|]. by intros [->|]%elem_of_cons.
Qed.

(** The index [buildSearchIndex] computes. Under each tag it lists the
    prompts that carry the tag, in the order of the listing, a prompt once
    for every time the tag occurs among its tags; a tag no prompt carries
    has no entry. When no prompt repeats a tag, the entry of a tag is the
    listing filtered by the tag. *)
Theorem tag_index_lookup allPrompts tag :
  let hits := allPrompts ≫= λ prompt,
                replicate (occurrences tag (PromptMetadata.tags prompt)) prompt in
  tag_index allPrompts !! tag = (if decide (hits = []) then None else Some hits) ∧
  (is_Some (tag_index allPrompts !! tag) ↔
   ∃ prompt, prompt ∈ allPrompts ∧ tag ∈ PromptMetadata.tags prompt) ∧
  ((∀ prompt, prompt ∈ allPrompts → NoDup (PromptMetadata.tags prompt)) →
   hits = List.filter (λ prompt, bool_decide (tag ∈ PromptMetadata.tags prompt)) allPrompts).
Proof.
  intros hits.
  pose proof (tag_index_listed_from ∅ allPrompts tag) as Hlisted.
  unfold listed in Hlisted. rewrite lookup_empty in Hlisted. simpl in Hlisted.
  fold (tag_index allPrompts) in Hlisted. fold hits in Hlisted.
  assert (Hlookup : tag_index allPrompts !! tag = if decide (hits = []) then None else Some hits).
  { destruct (tag_index allPrompts !! tag) as [l|] eqn:Hl; simpl in Hlisted; subst.
    - rewrite decide_False; [done|].
      by apply (tag_index_nonempty_from ∅ allPrompts) in Hl.
    - rewrite <- Hlisted. by rewrite decide_True. }
  assert (Hhits : hits ≠ [] ↔ ∃ prompt, prompt ∈ allPrompts ∧ tag ∈ PromptMetadata.tags prompt).
  { subst hits. clear. induction allPrompts as [|p ps IH].
    - split; [intros Hne; by destruct Hne|].
      intros (q & Hq & _). by apply elem_of_nil in Hq.
    - cbn [mbind list_bind]. split.
      + intros Hne. destruct (decide (tag ∈ PromptMetadata.tags p)) as [Hin|Hnin].
        * exists p. split; [apply list_elem_of_here | done].
        * assert (occurrences tag (PromptMetadata.tags p) = 0%nat) as Hz.
          { destruct (occurrences tag (PromptMetadata.tags p)) eqn:Hocc; [done|].
            destruct Hnin. apply occurrences_pos. lia. }
          rewrite Hz in Hne. simpl in Hne. apply IH in Hne as (q & Hq & Htag).
          exists q. split; [by apply list_elem_of_further | done].
      + intros (q & [->|Hq]%elem_of_cons & Htag).
        * apply occurrences_pos in Htag.
          destruct (occurrences tag (PromptMetadata.tags p)); [lia | done].
        * intros [_ Hnil]%app_eq_nil. revert Hnil. apply IH. eauto. }
  split; [done|]. split.
  - rewrite Hlookup, <- Hhits. case_decide; split; done.
  - intros Hnd. subst hits. clear Hlisted Hlookup Hhits.
    induction allPrompts as [|p ps IH]; [done|].
    cbn [mbind list_bind List.filter].
    rewrite IH by (intros; apply Hnd; by apply list_elem_of_further).
    rewrite occurrences_NoDup by apply Hnd, list_elem_of_here.
    case_decide; case_bool_decide; done.
Qed.

End tag_index_facts.

Section initialize_facts.
Import Router.
Context `{ext : Externals} `{lib : Libraries} `{rt : Runtime} `{vault : !VaultClient}.

(** [initialize] cannot fail. [buildSearchIndex] swallows whatever listing
    the prompts throws, so the [catch] of [initialize] is never entered and
    the router always comes up: with the index of the listing when the vault
    answers, and with the index it had when the vault fails. The cache of
    modules is not touched, and the vault is asked once. *)
Theorem initialize_always_returns r w :
  ∃ r',
    initialize r w = (Return tt, r', (listPrompts w).2) ∧
    moduleCache r' = moduleCache r ∧
    searchIndex r' =
      match (listPrompts w).1 with
      | Return allPrompts => tag_index allPrompts
      | Throw _ => searchIndex r
      end.
Proof.
  unfold initialize, buildSearchIndex, op_try, op_bind, await, modify, op_ret.
  destruct (listPrompts w) as [[allPrompts|e] w']; by eexists.
Qed.

End initialize_facts.


(** * The router over the vault: [getPromptModule] and [executePrompt] *)

Section router_facts.
Import Router.
Context `{ext : Externals} `{lib : Libraries} `{rt : Runtime} `{vault : !VaultClient}.

Lemma getPromptModule_unfold promptId version r w :
  getPromptModule promptId version r w =
  match moduleCache r !! cacheKey promptId version with
  | Some m => (Return m, r, w)
  | None =>
    match getPrompt promptId version w with
    | (Throw e, w1) => (Throw e, r, w1)
    | (Return None, w1) => (Throw (not_found_error promptId version), r, w1)
    | (Return (Some data), w1) =>
      match PromptModule.constructor (PromptData.definition data) (PromptData.metadata data) with
      | Throw e => (Throw e, r, w1)
      | Return m =>
        (Return m,
         {| moduleCache := <[cacheKey promptId version := m]> (moduleCache r);
            searchIndex := searchIndex r |}, w1)
      end
    end
  end.
Proof.
  unfold getPromptModule, op_bind, fields, op_ret, await, op_throw, op_lift, modify.
  destruct (moduleCache r !! cacheKey promptId version); [done|].
  by destruct (getPrompt promptId version w) as [[[data|]|e] w1].
Qed.


(** The module cached under the key of the prompt, once a method ran. *)
Lemma getPromptModule_cache promptId version r w m r1 w1 m' :
  getPromptModule promptId version r w = (Return m, r1, w1) →
  <[cacheKey promptId version := m']> (moduleCache r1)
    = <[cacheKey promptId version := m']> (moduleCache r) ∧
  searchIndex r1 = searchIndex r ∧
  moduleCache r1 !! cacheKey promptId version = Some m.
Proof.
  rewrite getPromptModule_unfold.
  destruct (moduleCache r !! cacheKey promptId version) as [cached|] eqn:Hcached.
  { by intros [= <- <- <-]. }
  destruct (getPrompt promptId version w) as [[[data|]|e] w2]; try done.
  destruct (PromptModule.constructor _ _) as [fresh|e]; [|done].
  intros [= <- <- <-]. simpl. by rewrite insert_insert_eq, lookup_insert_eq.
Qed.

Lemma getPromptModule_Throw promptId version r w e r1 w1 :
  getPromptModule promptId version r w = (Throw e, r1, w1) →
  r1 = r ∧ moduleCache r !! cacheKey promptId version = None ∧
  w1 = (getPrompt promptId version w).2 ∧
  ((getPrompt promptId version w).1 = Throw e ∨
   ((getPrompt promptId version w).1 = Return None ∧ e = not_found_error promptId version) ∨
   (∃ data issues,
      (getPrompt promptId version w).1 = Return (Some data) ∧
      PromptDefinitionSchema_safeParse (PromptData.definition data) = ParseFailure issues ∧
      e = PromptHubMCPError VALIDATION_ERROR "Invalid prompt definition"
            (issues_value issues))).
Proof.
  rewrite getPromptModule_unfold.
  destruct (moduleCache r !! cacheKey promptId version) as [cached|]; [done|].
  destruct (getPrompt promptId version w) as [[[data|]|e'] w2]; simpl.
  - unfold PromptModule.constructor.
    destruct (PromptDefinitionSchema_safeParse _) as [d|issues] eqn:Hparse; [done|].
    intros [= <- <- <-]. repeat split. right. right. by exists data, issues.
  - intros [= <- <- <-]. repeat split. right. by left.
  - intros [= <- <- <-]. repeat split. by left.
Qed.

Lemma execute_Return input context m w :
  ∃ response m' w', PromptModule.execute input context m w = (Return response, m', w').
Proof.
  rewrite execute_unfold.
  destruct (PromptModule.execute_try _ _ _ _ m _) as [[[response|e] m1] w1];
    by eexists _, _, _.
Qed.

Lemma record_on_chain_Return promptId executionId inputs output success executionTime r w :
  ∃ w', record_on_chain promptId executionId inputs output success executionTime r w
        = (Return tt, r, w').
Proof.
  unfold record_on_chain, op_try, op_bind, op_lift, await, op_ret.
  destruct (hashObject (VObj inputs)); [|by eexists].
  destruct (hashObject output); [|by eexists].
  destruct (recordExecution _ _ _ _ _ _ w) as [[tx|e] w']; by eexists.
Qed.

(** The [try] block of [executePrompt] once the module is there. *)
Lemma executePrompt_try_available promptId inputs context version startTime executionId
    r w m r1 w1 response m' w2 :
  getPromptModule promptId version r w = (Return m, r1, w1) →
  PromptModule.execute inputs (module_context context executionId) m w1
    = (Return response, m', w2) →
  ∃ w',
    executePrompt_try promptId inputs context version startTime executionId r w =
    (Return
       {| PromptExecutionResult.success := ModuleResponse.success response;
          PromptExecutionResult.output := ModuleResponse.output response;
          PromptExecutionResult.metadata :=
            {| PromptExecutionResult.promptId := promptId;
               PromptExecutionResult.version := version_or_latest version;
               PromptExecutionResult.executionId := executionId;
               PromptExecutionResult.timestamp := startTime;
               PromptExecutionResult.executionTime := ((Date_now w2).1 - startTime)%Z;
               PromptExecutionResult.tokenUsage := None;
               PromptExecutionResult.modelProvider := ExecutionContext.modelProvider context |};
          PromptExecutionResult.signature := ModuleResponse.signature response;
          PromptExecutionResult.error :=
            if ModuleResponse.success response then None
            else Some {| code := EXECUTION_FAILED; message := "Prompt execution failed";
                         details := response_metadata_value (ModuleResponse.metadata response) |} |},
     {| moduleCache := <[cacheKey promptId version := m']> (moduleCache r);
        searchIndex := searchIndex r |}, w') ∧
    (ModuleResponse.success response = false ∨ ExecutionContext.caller context = "" →
     w' = (Date_now w2).2).
Proof.
  intros Hget Hexec.
  destruct (getPromptModule_cache _ _ _ _ _ _ _ m' Hget) as (Hcache & Hindex & _).
  unfold executePrompt_try. unfold op_bind at 1. rewrite Hget.
  unfold op_bind at 1. unfold on_module. rewrite Hexec, Hcache, Hindex.
  unfold op_bind at 1. unfold op_now. destruct (Date_now w2) as [endTime w3]. cbn [fst snd].
  unfold op_bind, op_ret.
  destruct (ModuleResponse.success response && bool_decide (ExecutionContext.caller context ≠ ""))
    eqn:Hrecord.
  - match goal with
    | |- context [record_on_chain ?a ?b ?c ?d ?e ?f ?g ?h] =>
      destruct (record_on_chain_Return a b c d e f g h) as [w' ->]
    end.
    exists w'. split; [done|].
    apply andb_true_iff in Hrecord as [Hok Hcaller]. apply bool_decide_eq_true in Hcaller.
    intros [Hfail|Hempty]; [congruence | done].
  - by exists w3.
Qed.

Lemma routed_executePrompt_unfold promptId inputs context version r w :
  executePrompt promptId inputs context version r w =
  match executePrompt_try promptId inputs context version (Date_now w).1
          (uuidv4 (Date_now w).2).1 r (after_start w) with
  | (Return result, r', w') => (Return result, r', w')
  | (Throw error, r', w') =>
    (Return
       {| PromptExecutionResult.success := false;
          PromptExecutionResult.output := VNull;
          PromptExecutionResult.metadata :=
            {| PromptExecutionResult.promptId := promptId;
               PromptExecutionResult.version := version_or_latest version;
               PromptExecutionResult.executionId := (uuidv4 (Date_now w).2).1;
               PromptExecutionResult.timestamp := (Date_now w).1;
               PromptExecutionResult.executionTime := ((Date_now w').1 - (Date_now w).1)%Z;
               PromptExecutionResult.tokenUsage := None;
               PromptExecutionResult.modelProvider := None |};
          PromptExecutionResult.signature := None;
          PromptExecutionResult.error := Some (caught_error_info error) |},
     r', (Date_now w').2)
  end.
Proof.
  unfold executePrompt, op_bind, op_now, op_uuid, op_try, after_start.
  destruct (Date_now w) as [startTime w1]. cbn [fst snd].
  destruct (uuidv4 w1) as [executionId w2]. cbn [fst snd].
  destruct (executePrompt_try _ _ _ _ _ _ r w2) as [[[result|e] r'] w']; [done|].
  unfold executePrompt_catch, op_bind, op_now, op_ret.
  by destruct (Date_now w').
Qed.

Lemma executePrompt_try_Throw promptId inputs context version startTime executionId
    r w e r' w' :
  executePrompt_try promptId inputs context version startTime executionId r w
    = (Throw e, r', w') →
  getPromptModule promptId version r w = (Throw e, r', w').
Proof.
  destruct (getPromptModule promptId version r w) as [[[m|e1] r1] w1] eqn:Hget.
  - destruct (execute_Return inputs (module_context context executionId) m w1)
      as (response & m' & w2 & Hexec).
    destruct (executePrompt_try_available _ _ _ _ startTime _ _ _ _ _ _ _ _ _ Hget Hexec)
      as (w3 & -> & _). done.
  - unfold executePrompt_try. unfold op_bind at 1. rewrite Hget. by intros [= -> -> ->].
Qed.


Lemma executePrompt_try_unavailable promptId inputs context version startTime executionId
    r w e r1 w1 :
  getPromptModule promptId version r w = (Throw e, r1, w1) →
  executePrompt_try promptId inputs context version startTime executionId r w
  = (Throw e, r, w1).
Proof.
  intros Hget. destruct (getPromptModule_Throw _ _ _ _ _ _ _ Hget) as (-> & _).
  unfold executePrompt_try. unfold op_bind at 1. by rewrite Hget.
Qed.

(** Every call of [executePrompt] returns a result; the result of a call
    that did not succeed carries an error, and the call leaves the search
    index and the other entries of the cache alone. *)
Lemma executePrompt_outcome promptId inputs context version r w :
  ∃ result r' w',
    executePrompt promptId inputs context version r w = (Return result, r', w') ∧
    PromptExecutionResult.promptId (PromptExecutionResult.metadata result) = promptId ∧
    PromptExecutionResult.version (PromptExecutionResult.metadata result)
      = version_or_latest version ∧
    PromptExecutionResult.executionId (PromptExecutionResult.metadata result)
      = (uuidv4 (Date_now w).2).1 ∧
    PromptExecutionResult.timestamp (PromptExecutionResult.metadata result) = (Date_now w).1 ∧
    (PromptExecutionResult.success result = true ↔ PromptExecutionResult.error result = None) ∧
    searchIndex r' = searchIndex r ∧
    (∀ key, key ≠ cacheKey promptId version → moduleCache r' !! key = moduleCache r !! key) ∧
    (is_Some (moduleCache r !! cacheKey promptId version) →
     is_Some (moduleCache r' !! cacheKey promptId version)).
Proof.
  rewrite routed_executePrompt_unfold.
  destruct (getPromptModule promptId version r (after_start w)) as [[[m|e] r1] w1] eqn:Hget.
  - destruct (execute_Return inputs (module_context context (uuidv4 (Date_now w).2).1) m w1)
      as (response & m' & w2 & Hexec).
    destruct (executePrompt_try_available _ _ _ _ (Date_now w).1 _ _ _ _ _ _ _ _ _ Hget Hexec)
      as (w3 & -> & _).
    eexists _, _, _. split; [done|]. simpl. repeat split; try done.
    + by destruct (ModuleResponse.success response).
    + by destruct (ModuleResponse.success response).
    + intros key Hkey. by rewrite lookup_insert_ne.
    + intros _. rewrite lookup_insert_eq. by eexists.
  - rewrite (executePrompt_try_unavailable _ _ _ _ _ _ _ _ _ _ _ Hget).
    eexists _, _, _. split; [done|]. simpl. by repeat split.
Qed.

(** *** [executePrompt] *)

(** [executePrompt] never throws. Whatever happens while the module is
    loaded or run, the call returns a result that names the prompt, the
    version asked for ([latest] when none or an empty one is given), the
    execution id drawn for the call and the time the call started; the
    result is a success exactly when it carries no error. Of the fields of
    the router the call changes nothing but the cache entry of the prompt
    it ran, which it never removes. *)
Theorem executePrompt_always_returns promptId inputs context version r w :
  ∃ result r' w',
    executePrompt promptId inputs context version r w = (Return result, r', w') ∧
    PromptExecutionResult.promptId (PromptExecutionResult.metadata result) = promptId ∧
    PromptExecutionResult.version (PromptExecutionResult.metadata result)
      = version_or_latest version ∧
    PromptExecutionResult.executionId (PromptExecutionResult.metadata result)
      = (uuidv4 (Date_now w).2).1 ∧
    PromptExecutionResult.timestamp (PromptExecutionResult.metadata result) = (Date_now w).1 ∧
    (PromptExecutionResult.success result = true ↔ PromptExecutionResult.error result = None) ∧
    searchIndex r' = searchIndex r ∧
    (∀ key, key ≠ cacheKey promptId version → moduleCache r' !! key = moduleCache r !! key) ∧
    (is_Some (moduleCache r !! cacheKey promptId version) →
     is_Some (moduleCache r' !! cacheKey promptId version)).
Proof. apply executePrompt_outcome. Qed.

(** A prompt that cannot be loaded. When the module is not in the cache
    and loading it fails, [executePrompt] returns a failure with a [null]
    output whose error has the code and the message of what was thrown,
    and the router is as before: nothing is cached. What was thrown is the
    error of the vault when [getPrompt] rejects, [PROMPT_NOT_FOUND] when
    the vault has no such prompt, and [VALIDATION_ERROR] when the
    definition the vault returned does not pass the schema. *)
Theorem executePrompt_unavailable promptId inputs context version r w e r1 w1 :
  getPromptModule promptId version r (after_start w) = (Throw e, r1, w1) →
  (∃ result,
     executePrompt promptId inputs context version r w
       = (Return result, r, (Date_now w1).2) ∧
     PromptExecutionResult.success result = false ∧
     PromptExecutionResult.output result = VNull ∧
     PromptExecutionResult.signature result = None ∧
     PromptExecutionResult.error result = Some (caught_error_info e)) ∧
  moduleCache r !! cacheKey promptId version = None ∧
  ((getPrompt promptId version (after_start w)).1 = Throw e ∨
   ((getPrompt promptId version (after_start w)).1 = Return None ∧
    code (caught_error_info e) = PROMPT_NOT_FOUND ∧
    message (caught_error_info e) =
      "Prompt not found: " ++ promptId ++
      match version with
      | Some v => if decide (v = "") then "" else "@" ++ v
      | None => ""
      end) ∨
   (∃ data,
      (getPrompt promptId version (after_start w)).1 = Return (Some data) ∧
      code (caught_error_info e) = VALIDATION_ERROR ∧
      message (caught_error_info e) = "Invalid prompt definition")).
Proof.
  intros Hget.
  destruct (getPromptModule_Throw _ _ _ _ _ _ _ Hget) as (-> & Hcache & -> & Hwhy).
  split; [|split; [done|]].
  - rewrite routed_executePrompt_unfold.
    rewrite (executePrompt_try_unavailable _ _ _ _ _ _ _ _ _ _ _ Hget).
    eexists. by repeat split.
  - destruct Hwhy as [?|[[? ->]|(data & issues & ? & _ & ->)]]; [by left | |].
    + right. left. by repeat split.
    + right. right. exists data. by repeat split.
Qed.

(** A prompt that is there. Once the module is loaded or found in the
    cache, [executePrompt] relays what [execute] of the module answers: its
    success flag, its output and its signature. A failure of the module,
    whatever its own error code, is reported with the code
    [EXECUTION_FAILED] and the message [Prompt execution failed]; the
    error of the module is only found in the details, under [error]. The
    module as [execute] left it is the one the cache holds afterwards, so
    executions through the router are counted on the cached module. The
    vault is asked to record the execution only after a success with a
    caller that is not empty. *)
Theorem executePrompt_relays_module promptId inputs context version r w m r1 w1
    response m' w2 :
  getPromptModule promptId version r (after_start w) = (Return m, r1, w1) →
  PromptModule.execute inputs (module_context context (uuidv4 (Date_now w).2).1) m w1
    = (Return response, m', w2) →
  ∃ result r' w',
    executePrompt promptId inputs context version r w = (Return result, r', w') ∧
    moduleCache r' = <[cacheKey promptId version := m']> (moduleCache r) ∧
    PromptExecutionResult.success result = ModuleResponse.success response ∧
    PromptExecutionResult.output result = ModuleResponse.output response ∧
    PromptExecutionResult.signature result = ModuleResponse.signature response ∧
    (ModuleResponse.success response = true → PromptExecutionResult.error result = None) ∧
    (ModuleResponse.success response = false →
     ∃ fields,
       PromptExecutionResult.error result =
         Some {| code := EXECUTION_FAILED; message := "Prompt execution failed";
                 details := VObj fields |} ∧
       fields !! "error" =
         error_info_value <$> ModuleResponse.Metadata.error (ModuleResponse.metadata response)) ∧
    (ModuleResponse.success response = false ∨ ExecutionContext.caller context = "" →
     w' = (Date_now w2).2).
Proof.
  intros Hget Hexec. rewrite routed_executePrompt_unfold.
  destruct (executePrompt_try_available _ _ _ _ (Date_now w).1 _ _ _ _ _ _ _ _ _ Hget Hexec)
    as (w3 & -> & Hworld).
  eexists _, _, _. split; [done|]. simpl. repeat split; try done.
  - by intros ->.
  - intros ->. eexists. split; [done|].
    rewrite !lookup_insert_ne by done.
    destruct (ModuleResponse.Metadata.error _); simpl; [by rewrite lookup_insert_eq | done].
Qed.

(** The cache of modules. A module that [getPromptModule] returned is in
    the cache under the key of the request, and from then on every request
    with the same key is served that module without a call to the vault:
    the fields of the router and the world are untouched. The key is
    [promptId@version] with [latest] for an absent or empty version, so a
    request without a version, one for the version [latest] and one for
    the empty version share one entry. *)
Theorem getPromptModule_serves_from_cache promptId version r w m r' w' :
  getPromptModule promptId version r w = (Return m, r', w') →
  moduleCache r' !! cacheKey promptId version = Some m ∧
  (∀ promptId2 version2 w2,
     cacheKey promptId2 version2 = cacheKey promptId version →
     getPromptModule promptId2 version2 r' w2 = (Return m, r', w2)) ∧
  cacheKey promptId None = cacheKey promptId (Some "latest") ∧
  cacheKey promptId (Some "") = cacheKey promptId (Some "latest").
Proof.
  intros Hget.
  destruct (getPromptModule_cache _ _ _ _ _ _ _ m Hget) as (_ & _ & Hcached).
  split; [done|]. split; [|done].
  intros promptId2 version2 w2 Hkey. rewrite getPromptModule_unfold, Hkey. by rewrite Hcached.
Qed.

Lemma getPromptModule_origin promptId version r w m r1 w1 :
  getPromptModule promptId version r w = (Return m, r1, w1) →
  moduleCache r !! cacheKey promptId version = Some m ∨
  (moduleCache r !! cacheKey promptId version = None ∧ PromptModule.executionCount m = 0%Z).
Proof.
  rewrite getPromptModule_unfold.
  destruct (moduleCache r !! cacheKey promptId version) as [cached|]; [by intros [= <- _ _]; left|].
  destruct (getPrompt promptId version w) as [[[data|]|e] w2]; try done.
  unfold PromptModule.constructor.
  destruct (PromptDefinitionSchema_safeParse _); [|done].
  intros [= <- _ _]. by right.
Qed.

Lemma execute_count input context m w response m' w' :
  PromptModule.execute input context m w = (Return response, m', w') →
  ModuleResponse.success response = true →
  PromptModule.executionCount m' = (PromptModule.executionCount m + 1)%Z.
Proof.
  rewrite execute_unfold.
  destruct (PromptModule.execute_try _ _ _ _ m _) as [[[r0|e] m1] w2] eqn:Htry.
  - intros [= <- <- <-] _.
    by destruct (execute_try_outcome _ _ _ _ _ _ _ _ _ Htry) as (_ & _ & Hcount & _).
  - by intros [= <- <- <-].
Qed.

(** Executions through the router are counted on the cached module. The
    module of a prompt is created with a count of [0] when it is first
    loaded and kept in the cache from then on; every successful
    [executePrompt] leaves in the cache a module whose count is one more
    than the count of the module the call found there, or [1] when the
    call loaded it. *)
Theorem executePrompt_counts promptId inputs context version r w result r' w' :
  executePrompt promptId inputs context version r w = (Return result, r', w') →
  PromptExecutionResult.success result = true →
  ∃ m',
    moduleCache r' !! cacheKey promptId version = Some m' ∧
    PromptModule.executionCount m' =
      (match moduleCache r !! cacheKey promptId version with
       | Some m => PromptModule.executionCount m
       | None => 0
       end + 1)%Z.
Proof.
  rewrite routed_executePrompt_unfold.
  destruct (getPromptModule promptId version r (after_start w)) as [[[m|e] r1] w1] eqn:Hget.
  - destruct (execute_Return inputs (module_context context (uuidv4 (Date_now w).2).1) m w1)
      as (response & m' & w2 & Hexec).
    destruct (executePrompt_try_available _ _ _ _ (Date_now w).1 _ _ _ _ _ _ _ _ _ Hget Hexec)
      as (w3 & -> & _).
    intros [= <- <- <-]. simpl. intros Hok.
    exists m'. split; [by rewrite lookup_insert_eq|].
    rewrite (execute_count _ _ _ _ _ _ _ Hexec Hok).
    by destruct (getPromptModule_origin _ _ _ _ _ _ _ Hget) as [->|[-> ->]].
  - rewrite (executePrompt_try_unavailable _ _ _ _ _ _ _ _ _ _ _ Hget).
    by intros [= <- <- <-].
Qed.

End router_facts.

Section module_context_facts.
Import Router.
Context `{ext : Externals} `{rt : Runtime}.

Lemma with_optional_lookup_ne key value (o : gmap string Value) key' :
  key ≠ key' → with_optional key value o !! key' = o !! key'.
Proof. intros Hne. destruct value; [by apply lookup_insert_ne | done]. Qed.

Lemma with_optional_lookup_eq key value (o : gmap string Value) :
  o !! key = None → with_optional key value o !! key = value.
Proof. intros Hnone. destruct value; [by apply lookup_insert_eq | done]. Qed.

Lemma safeParse_fields o ctx :
  ExecutionContextSchema_safeParse (VObj o) = ParseSuccess ctx →
  ExecutionContext.caller ctx = as_string (prop o "caller") ∧
  ExecutionContext.requestId ctx = as_string (prop o "requestId") ∧
  ExecutionContext.timestamp ctx = as_number (prop o "timestamp") ∧
  ExecutionContext.modelProvider ctx = as_optional_string (prop o "modelProvider").
Proof.
  unfold ExecutionContextSchema_safeParse.
  destruct (_ ++ _)%list; [|done]. by intros [= <-].
Qed.

Ltac context_lookup :=
  unfold prop;
  repeat first
    [ rewrite lookup_insert_eq
    | rewrite lookup_insert_ne by done
    | rewrite with_optional_lookup_ne by done
    | rewrite with_optional_lookup_eq
        by (repeat first [ rewrite lookup_insert_ne by done
                         | rewrite with_optional_lookup_ne by done
                         | apply lookup_empty ])
    | rewrite lookup_empty ].

Lemma module_context_parse (context : ExecutionContext.t PromptExecutionResult.t) executionId :
  ∃ ctx,
    ExecutionContextSchema_safeParse (module_context context executionId) = ParseSuccess ctx ∧
    ExecutionContext.caller ctx = ExecutionContext.caller context ∧
    ExecutionContext.requestId ctx = executionId ∧
    ExecutionContext.timestamp ctx = ExecutionContext.timestamp context ∧
    ExecutionContext.modelProvider ctx = ExecutionContext.modelProvider context.
Proof.
  assert (Haccepts : schema_accepts (module_context context executionId)).
  { apply schema_accepts_iff. unfold module_context. eexists. split; [reflexivity|].
    split; [by context_lookup|].
    split; [context_lookup; by destruct (ExecutionContext.modelProvider context)|].
    split; [by context_lookup|].
    split; [context_lookup; by destruct (ExecutionContext.previousOutputs context)|].
    split; [by context_lookup|].
    split; [context_lookup; by destruct (ExecutionContext.chainId context)|].
    context_lookup; by destruct (ExecutionContext.blockHeight context). }
  destruct Haccepts as [ctx Hctx]. exists ctx. split; [exact Hctx|].
  unfold module_context in Hctx. apply safeParse_fields in Hctx as (-> & -> & -> & ->).
  split; [by context_lookup|]. split; [by context_lookup|]. split; [by context_lookup|].
  context_lookup. by destruct (ExecutionContext.modelProvider context).
Qed.

(** The context the router hands to the module. Whatever typed context
    [executePrompt] is given, the object it passes to [execute] satisfies
    the schema, with the caller and the timestamp of the context and, as
    request id, the execution id of the router in place of the request id
    of the context. A module run through the router therefore never fails
    on its context: the error of a failed response is [INVALID_INPUT],
    [ACCESS_DENIED] or [EXECUTION_FAILED]. *)
Theorem executePrompt_context_accepted (context : ExecutionContext.t PromptExecutionResult.t)
    executionId :
  (∃ ctx,
     ExecutionContextSchema_safeParse (module_context context executionId) = ParseSuccess ctx ∧
     ExecutionContext.caller ctx = ExecutionContext.caller context ∧
     ExecutionContext.requestId ctx = executionId ∧
     ExecutionContext.timestamp ctx = ExecutionContext.timestamp context) ∧
  ∀ inputs m w response m' w' e,
    PromptModule.execute inputs (module_context context executionId) m w
      = (Return response, m', w') →
    ModuleResponse.Metadata.error (ModuleResponse.metadata response) = Some e →
    code e = INVALID_INPUT ∨ code e = ACCESS_DENIED ∨ code e = EXECUTION_FAILED.
Proof.
  destruct (module_context_parse context executionId) as (ctx & Hctx & Hcaller & Hid & Hts & _).
  split; [exists ctx; split; [exact Hctx|]; split; [exact Hcaller|]; split; [exact Hid | exact Hts]|].
  intros inputs m w response m' w' e Hexec He.
  rewrite execute_unfold in Hexec.
  destruct (PromptModule.execute_try _ _ _ _ m _) as [[[r|thrown] m1] w1] eqn:Htry.
  { injection Hexec as <- _ _.
    destruct (execute_try_outcome _ _ _ _ _ _ _ _ _ Htry) as (_ & _ & _ & _ & Herr & _).
    congruence. }
  injection Hexec as <- _ _. simpl in He. injection He as <-.
  rewrite execute_try_stages, Hctx in Htry.
  destruct (PromptModule.validateInput m inputs) as [inputValidation|e'] eqn:Hvalidate.
  2:{ injection Htry as <- _ _.
      destruct (validateInput_Throw _ _ _ Hvalidate) as (? & ? & ->). by right; right. }
  destruct (ValidationResult.valid inputValidation); cbn [negb] in Htry.
  2:{ injection Htry as <- _ _. by left. }
  destruct (PromptModule.checkAccess _ m _) as [[[[]|e'] m2] w2] eqn:Haccess.
  2:{ injection Htry as <- _ _.
      destruct (checkAccess_Throw _ _ _ _ _ _ Haccess) as (? & ->). by right; left. }
  destruct (PromptModule.renderTemplate m _ ∅) as [renderedPrompt|e'] eqn:Hrender.
  2:{ injection Htry as <- _ _.
      destruct (renderTemplate_Throw _ _ _ _ Hrender) as (? & ? & ->). by right; right. }
  cbn zeta in Htry.
  destruct (PromptModule.generateExecutionSignature _ _ _ _ _) as [signature|e'] eqn:Hsig;
    [discriminate Htry|].
  injection Htry as <- _ _. apply generateExecutionSignature_Throw in Hsig as ->.
  by right; right.
Qed.

End module_context_facts.

(** * A DAG run through the router *)

Section run_without_throw.
Import PromptRouter.
Context `{rt : Runtime}.
Variable executePrompt :
  string → gmap string Value → ExecutionContext.t PromptExecutionResult.t →
  option string → World → Completion PromptExecutionResult.t * World.
Variable rootInputs : gmap string Value.
Variable context : option PartialContext.t.
Variable startTime : Z.

(** [executePrompt] returns on every call, and a result that is not a
    success carries an error. *)
Hypothesis executePrompt_returns : ∀ promptId inputs nodeContext version w,
  ∃ nodeResult w',
    executePrompt promptId inputs nodeContext version w = (Return nodeResult, w') ∧
    (PromptExecutionResult.success nodeResult = false →
     is_Some (PromptExecutionResult.error nodeResult)).

Lemma run_node_stops node st w r st' w' :
  run_node executePrompt rootInputs context startTime node st w = (Some r, st', w') →
  ∃ nodeResult,
    PromptExecutionResult.success nodeResult = false ∧
    is_Some (PromptExecutionResult.error nodeResult) ∧
    results st' = <[DAGNode.id node := nodeResult]> (results st) ∧
    executionOrder st' = (executionOrder st ++ [DAGNode.id node])%list ∧
    failure_report st' (DAGNode.id node)
      (NodeError (PromptExecutionResult.error nodeResult)) r.
Proof.
  unfold run_node.
  destruct (Date_now w) as [nodeStartTime w1].
  destruct (uuidv4 w1) as [requestId w2].
  match goal with
  | |- context [executePrompt ?p ?i ?c ?v ?w] =>
    destruct (executePrompt_returns p i c v w) as (nodeResult & w3 & -> & Herr)
  end.
  destruct (PromptExecutionResult.success nodeResult) eqn:Hok; [done|].
  destruct (Date_now w3) as [endTime w4]. intros [= <- <- <-].
  exists nodeResult. split; [done|]. split; [by apply Herr|]. by repeat split.
Qed.

Lemma run_node_continues node st w st' w' :
  run_node executePrompt rootInputs context startTime node st w = (None, st', w') →
  ∃ nodeResult,
    results st' = <[DAGNode.id node := nodeResult]> (results st) ∧
    executionOrder st' = (executionOrder st ++ [DAGNode.id node])%list.
Proof.
  unfold run_node.
  destruct (Date_now w) as [nodeStartTime w1].
  destruct (uuidv4 w1) as [requestId w2].
  destruct (executePrompt _ _ _ _ w2) as [[nodeResult|e] w3].
  - destruct (PromptExecutionResult.success nodeResult); [|by destruct (Date_now w3)].
    intros [= <- <-]. by exists nodeResult.
  - by destruct (Date_now w3).
Qed.

Lemma run_nodes_stops sorted st w r st' w' :
  run_nodes executePrompt rootInputs context startTime sorted st w = (Some r, st', w') →
  ∃ nodeId nodeResult,
    PromptExecutionResult.success nodeResult = false ∧
    is_Some (PromptExecutionResult.error nodeResult) ∧
    results st' !! nodeId = Some nodeResult ∧
    last (executionOrder st') = Some nodeId ∧
    failure_report st' nodeId (NodeError (PromptExecutionResult.error nodeResult)) r.
Proof.
  revert st w. induction sorted as [|node rest IH]; intros st w; cbn [run_nodes]; [done|].
  destruct (run_node _ _ _ _ node st w) as [[[early|] st1] w1] eqn:Hnode.
  - intros [= <- <- <-].
    destruct (run_node_stops _ _ _ _ _ _ Hnode) as (nodeResult & Hfail & Herr & Hres & Hord & Hrep).
    exists (DAGNode.id node), nodeResult. split; [done|]. split; [done|].
    split; [by rewrite Hres, lookup_insert_eq|]. split; [by rewrite Hord, last_snoc | done].
  - apply IH.
Qed.

End run_without_throw.

Section executeDag_router_facts.
Import Router.
Context `{ext : Externals} `{lib : Libraries} `{rt : Runtime} `{vault : !VaultClient}.

Lemma run_prompt_returns promptId inputs nodeContext version (s : @World router_runtime) :
  ∃ nodeResult s',
    run_prompt promptId inputs nodeContext version s = (Return nodeResult, s') ∧
    (PromptExecutionResult.success nodeResult = false →
     is_Some (PromptExecutionResult.error nodeResult)).
Proof.
  unfold run_prompt.
  destruct (executePrompt_outcome promptId inputs nodeContext version s.1 s.2)
    as (result & r' & w' & -> & _ & _ & _ & _ & Herr & _).
  eexists _, _. split; [done|]. intros Hfail.
  destruct (PromptExecutionResult.error result); [by eexists|].
  destruct Herr as [_ Herr]. rewrite Herr in Hfail; done.
Qed.

(** A DAG run through the router. A node that fails never surfaces as a
    caught exception, since [executePrompt] returns its failures: when
    [executeDag] stops at a node, the error names that node and carries the
    error of the node's own result, the result is recorded under the node
    and the node is the last of the execution order. The only exception
    [executeDag] reports is the one of the validation, under the node id
    [validation], with nothing run. *)
Theorem executeDag_reports_node_results dag rootInputs context r w :
  let result := (executeDag dag rootInputs context r w).1.1 in
  match DAGExecutionResult.error result with
  | None => DAGExecutionResult.success result = true
  | Some (nodeId, NodeError nodeError) =>
    DAGExecutionResult.success result = false ∧
    is_Some nodeError ∧
    last (DAGExecutionResult.executionOrder result) = Some nodeId ∧
    ∃ nodeResult,
      DAGExecutionResult.results result !! nodeId = Some nodeResult ∧
      PromptExecutionResult.success nodeResult = false ∧
      PromptExecutionResult.error nodeResult = nodeError
  | Some (nodeId, CaughtError e) =>
    DAGExecutionResult.success result = false ∧
    nodeId = "validation" ∧ PromptRouter.validateDAG dag = Throw e ∧
    (∃ message, e = PromptHubMCPError VALIDATION_ERROR message VUndefined) ∧
    DAGExecutionResult.executionOrder result = [] ∧
    DAGExecutionResult.results result = ∅
  end.
Proof.
  intros result. subst result. unfold executeDag, PromptRouter.executeDag.
  destruct (validateDAG_outcome dag) as [Hvalid|(e & Hinvalid & He)].
  - destruct (validateDAG_Return dag Hvalid) as (_ & _ & _ & sorted & Hsort).
    unfold PromptRouter.executeDag_traced.
    destruct (@Date_now router_runtime (r, w)) as [startTime s1].
    rewrite Hvalid. cbn [bind]. rewrite Hsort.
    destruct (PromptRouter.run_nodes (rt := router_runtime) run_prompt rootInputs context
                startTime sorted PromptRouter.empty_run s1)
      as [[[early|] st'] s2] eqn:Hloop.
    + destruct (run_nodes_stops (rt := router_runtime) run_prompt rootInputs context startTime
                  run_prompt_returns _ _ _ _ _ _ Hloop)
        as (nodeId & nodeResult & Hfail & Herr & Hres & Hlast & Hok & Hresults & Horder & Herror).
      cbn [fst snd]. rewrite Herror, Hresults, Horder.
      split; [done|]. split; [done|]. split; [done|]. by exists nodeResult.
    + by destruct (@Date_now router_runtime s2) as [endTime s3].
  - destruct (executeDag_traced_rejected (rt := router_runtime) run_prompt dag rootInputs
                context (r, w) e Hinvalid) as (result & s' & -> & Hfail & Hres & Hord & Herr).
    cbn [fst snd]. rewrite Herr. by repeat split.
Qed.

End executeDag_router_facts.

Section executeDag_caller_facts.
Import PromptRouter.
Context `{rt : Runtime}.
Variable executePrompt :
  string → gmap string Value → ExecutionContext.t PromptExecutionResult.t →
  option string → World → Completion PromptExecutionResult.t * World.
Variable rootInputs : gmap string Value.
Variable context : option PartialContext.t.

Lemma run_node_context startTime node st w early st' w' :
  run_node executePrompt rootInputs context startTime node st w = (early, st', w') →
  ∃ call,
    invoked st' = (invoked st ++ [call])%list ∧
    ExecutionContext.caller (inv_context call) = caller_or_default context ∧
    ExecutionContext.modelProvider (inv_context call)
      = context ≫= PartialContext.modelProvider ∧
    ExecutionContext.timestamp (inv_context call) = (Date_now w).1 ∧
    ExecutionContext.requestId (inv_context call) = (uuidv4 (Date_now w).2).1.
Proof.
  unfold run_node.
  destruct (Date_now w) as [nodeStartTime w1]. cbn [fst snd].
  destruct (uuidv4 w1) as [requestId w2]. cbn [fst snd].
  destruct (executePrompt _ _ _ _ w2) as [[nodeResult|e] w3].
  - destruct (PromptExecutionResult.success nodeResult).
    + intros [= <- <- <-]. by eexists.
    + destruct (Date_now w3). intros [= <- <- <-]. by eexists.
  - destruct (Date_now w3). intros [= <- <- <-]. by eexists.
Qed.

Lemma run_nodes_context startTime sorted st w early st' w' :
  run_nodes executePrompt rootInputs context startTime sorted st w = (early, st', w') →
  ∃ calls,
    invoked st' = (invoked st ++ calls)%list ∧
    Forall (λ call,
              ExecutionContext.caller (inv_context call) = caller_or_default context ∧
              ExecutionContext.modelProvider (inv_context call)
                = context ≫= PartialContext.modelProvider) calls.
Proof.
  revert st w. induction sorted as [|node rest IH]; intros st w; cbn [run_nodes].
  - intros [= <- <- <-]. exists []. by rewrite app_nil_r.
  - destruct (run_node _ _ _ _ node st w) as [[[r|] st1] w1] eqn:Hnode.
    + intros [= <- <- <-].
      destruct (run_node_context _ _ _ _ _ _ _ Hnode) as (call & -> & Hcaller & Hmp & _).
      exists [call]. split; [done|]. by repeat constructor.
    + intros Hrest.
      destruct (run_node_context _ _ _ _ _ _ _ Hnode) as (call & Hst1 & Hcaller & Hmp & _).
      destruct (IH _ _ Hrest) as (calls & -> & Hall).
      exists (call :: calls). rewrite Hst1, <- app_assoc. split; [done|].
      by constructor.
Qed.

(** The identity a DAG runs under. Every node of a run is executed with
    the caller of the context given to [executeDag], and with the caller
    [dag-executor] when no context is given, when it names no caller, or
    when the caller it names is the empty string; the model provider of the
    context is passed on as it is. *)
Theorem executeDag_callers dag w :
  Forall (λ call,
            ExecutionContext.caller (inv_context call) =
              match context ≫= PartialContext.caller with
              | Some caller => if decide (caller = "") then "dag-executor" else caller
              | None => "dag-executor"
              end ∧
            ExecutionContext.modelProvider (inv_context call)
              = context ≫= PartialContext.modelProvider)
         (executeDag_traced executePrompt dag rootInputs context w).1.2.
Proof.
  unfold executeDag_traced.
  destruct (Date_now w) as [startTime w1].
  destruct (bind (validateDAG dag) _) as [sorted|e].
  - destruct (run_nodes _ _ _ _ sorted empty_run w1) as [[early st'] w2] eqn:Hrun.
    destruct (run_nodes_context _ _ _ _ _ _ _ Hrun) as (calls & Hcalls & Hall).
    simpl in Hcalls. subst calls.
    destruct early; [done|]. by destruct (Date_now w2).
  - destruct (Date_now w1). by constructor.
Qed.

End executeDag_caller_facts.

(** A prompt the sample vault does not have. *)
Lemma executePrompt_unavailable_witness :
  (∃ result,
     Router.executePrompt (ext := Sample.externals) (lib := Sample.libraries)
       (rt := Sample.runtime) (vault := Sample.vault)
       "missing" ∅ (Sample.typed_context "test-caller" 1000 "request") None Router.new 0%nat
     = (Return result, Router.new, 4%nat) ∧
     PromptExecutionResult.success result = false ∧
     PromptExecutionResult.output result = VNull ∧
     PromptExecutionResult.signature result = None ∧
     PromptExecutionResult.error result =
       Some (Router.caught_error_info (Router.not_found_error "missing" None))) ∧
  code (Router.caught_error_info (Router.not_found_error "missing" None)) = PROMPT_NOT_FOUND ∧
  message (Router.caught_error_info (Router.not_found_error "missing" None))
    = "Prompt not found: missing".
Proof.
  destruct (executePrompt_unavailable (ext := Sample.externals) (lib := Sample.libraries)
              (rt := Sample.runtime) (vault := Sample.vault)
              "missing" ∅ (Sample.typed_context "test-caller" 1000 "request") None
              Router.new 0%nat (Router.not_found_error "missing" None) Router.new 3%nat)
    as (Hresult & _ & _).
  - vm_compute. reflexivity.
  - split; [exact Hresult|]. split; reflexivity.
Defined.

(** A private prompt run through the router by another caller: the
    denial is reported as [EXECUTION_FAILED]. *)
Lemma executePrompt_relays_module_witness :
  ∃ result r' w',
    Router.executePrompt (ext := Sample.externals) (lib := Sample.libraries)
      (rt := Sample.runtime) (vault := Sample.vault)
      "private-prompt" {["text" := VStr "Hello world"]}
      (Sample.typed_context "someone-else" 1000 "request") None Router.new 0%nat
    = (Return result, r', w') ∧
    PromptExecutionResult.success result = false ∧
    (∃ fields,
       PromptExecutionResult.error result =
         Some {| code := EXECUTION_FAILED; message := "Prompt execution failed";
                 details := VObj fields |} ∧
       fields !! "error" =
         Some (Router.error_info_value
                 {| code := ACCESS_DENIED;
                    message := "This prompt is private and can only be accessed by the author";
                    details := VUndefined |})) ∧
    w' = 7%nat.
Proof.
  edestruct (executePrompt_relays_module (ext := Sample.externals) (lib := Sample.libraries)
               (rt := Sample.runtime) (vault := Sample.vault)
               "private-prompt" ({["text" := VStr "Hello world"]} : gmap string Value)
               (Sample.typed_context "someone-else" 1000 "request") None Router.new 0%nat)
    as (result & r' & w' & Hrun & _ & Hok & _ & _ & _ & Herr & Hworld);
    [vm_compute; reflexivity | vm_compute; reflexivity |].
  exists result, r', w'. split; [exact Hrun|].
  split; [rewrite Hok; reflexivity|].
  split; [exact (Herr eq_refl)|].
  rewrite Hworld; [reflexivity | left; reflexivity].
Defined.

(** The prompt loaded without a version is served for the version
    [latest]. *)
Lemma getPromptModule_serves_from_cache_witness :
  ∃ m r',
    (Router.getPromptModule (lib := Sample.libraries)
       (rt := Sample.runtime) (vault := Sample.vault) "test-prompt" None Router.new 0%nat).1
      = (Return m, r') ∧
    Router.moduleCache r' !! Router.cacheKey "test-prompt" None = Some m ∧
    Router.getPromptModule (lib := Sample.libraries)
      (rt := Sample.runtime) (vault := Sample.vault) "test-prompt" (Some "latest") r' 7%nat
      = (Return m, r', 7%nat).
Proof.
  edestruct (getPromptModule_serves_from_cache (lib := Sample.libraries) (rt := Sample.runtime) (vault := Sample.vault)
               "test-prompt" None Router.new 0%nat) as (Hcached & Hserved & _);
    [vm_compute; reflexivity|].
  eexists _, _. split; [vm_compute; reflexivity|]. split; [exact Hcached|].
  apply Hserved. reflexivity.
Defined.

(** The first successful execution of a prompt through a fresh router. *)
Lemma executePrompt_counts_witness :
  ∃ result r' m',
    (Router.executePrompt (ext := Sample.externals) (lib := Sample.libraries)
       (rt := Sample.runtime) (vault := Sample.vault)
       "test-prompt" {["text" := VStr "Hello world"]}
       (Sample.typed_context "test-caller" 1000 "request") None Router.new 0%nat).1
      = (Return result, r') ∧
    Router.moduleCache r' !! Router.cacheKey "test-prompt" None = Some m' ∧
    PromptModule.executionCount m' = 1%Z.
Proof.
  edestruct (executePrompt_counts (ext := Sample.externals) (lib := Sample.libraries)
               (rt := Sample.runtime) (vault := Sample.vault)
               "test-prompt" ({["text" := VStr "Hello world"]} : gmap string Value)
               (Sample.typed_context "test-caller" 1000 "request") None Router.new 0%nat)
    as (m' & Hcached & Hcount); [vm_compute; reflexivity | reflexivity |].
  eexists _, _, m'. split; [vm_compute; reflexivity|]. split; [exact Hcached|].
  exact Hcount.
Defined.
